(** * Meridian Intelligence: ingestion pipeline and BM25 retrieval

    A shallow embedding of [api/ingest.py] and [api/retriever.py].

    Modelling conventions.
    - Python [str] is modelled by [string]: a sequence of 8-bit characters.
      The embedding is faithful on ASCII text; characters above 127 are
      carried around unchanged (they are neither letters, digits nor
      white space for the functions below).
    - Python [float] arithmetic is idealised as arithmetic on the real
      numbers [R]; [math.log] is [ln].  Operations that raise in Python
      ([x / 0.0], [math.log] of a non-positive number) raise in the model.
    - Python exceptions are modelled by the error monad [Result].
    - [Passage] objects live in a heap and are referred to by location, so
      that object identity and mutation can be expressed. *)

From Stdlib Require Import List Bool Arith ZArith Lia String Ascii.
From Stdlib Require Import Reals Lra Permutation Sorted.
Import ListNotations.

Local Open Scope string_scope.
Local Open Scope list_scope.

(* ------------------------------------------------------------------ *)
(** * Characters and strings *)
(* ------------------------------------------------------------------ *)

Definition ch_dquote : ascii := Eval cbv in ascii_of_nat 34.
Definition ch_squote : ascii := Eval cbv in ascii_of_nat 39.
Definition ch_bslash : ascii := Eval cbv in ascii_of_nat 92.
Definition ch_nl : ascii := Eval cbv in ascii_of_nat 10.
Definition ch_tab : ascii := Eval cbv in ascii_of_nat 9.
Definition ch_cr : ascii := Eval cbv in ascii_of_nat 13.
Definition ch_lbrace : ascii := Eval cbv in ascii_of_nat 123.
Definition ch_rbrace : ascii := Eval cbv in ascii_of_nat 125.

(** A one-character Python string. *)
Definition str1 (c : ascii) : string := String c EmptyString.

(** [text[n:]] for [0 <= n]. *)
Fixpoint str_drop (n : nat) (s : string) : string :=
  match n, s with
  | O, _ => s
  | S n', String _ r => str_drop n' r
  | S _, EmptyString => EmptyString
  end.

(** [text[:n]] for [0 <= n]. *)
Fixpoint str_take (n : nat) (s : string) : string :=
  match n, s with
  | S n', String c r => String c (str_take n' r)
  | _, _ => EmptyString
  end.

(** Last character of a string, if any. *)
Fixpoint str_last (s : string) : option ascii :=
  match s with
  | EmptyString => None
  | String c EmptyString => Some c
  | String _ r => str_last r
  end.

(** First character of a string, if any. *)
Definition str_head (s : string) : option ascii :=
  match s with
  | EmptyString => None
  | String c _ => Some c
  end.

(* ------------------------------------------------------------------ *)
(** * Object Extractor: [_extract_balanced_braces] *)
(* ------------------------------------------------------------------ *)

Module Extractor.

(** The [while i < len(text)] loop of [_extract_balanced_braces], run on
    the suffix [text[i:]].  The result is the number of characters consumed
    up to and including the closing brace at which [depth] returns to 0
    (so [i + 1 - i0] where [i0] is the loop's index on entry), or [None]
    when the loop falls off the end of the text.

    [string_char] is the Python string holding the active quote character
    (the empty string before any quote has been seen). *)
Fixpoint scan (s : string) (depth : Z) (in_string : bool)
         (string_char : string) : option nat :=
  match s with
  | EmptyString => None
  | String ch rest =>
      if in_string then
        match Ascii.eqb ch ch_bslash, rest with
        | true, String _ rest' =>
            (* i += 2; continue *)
            option_map (fun n => S (S n)) (scan rest' depth true string_char)
        | _, _ =>
            if String.eqb (str1 ch) string_char
            then option_map S (scan rest depth false string_char)
            else option_map S (scan rest depth true string_char)
        end
      else
        if Ascii.eqb ch ch_squote || Ascii.eqb ch ch_dquote then
          option_map S (scan rest depth true (str1 ch))
        else if Ascii.eqb ch ch_lbrace then
          option_map S (scan rest (depth + 1) false string_char)
        else if Ascii.eqb ch ch_rbrace then
          if Z.eqb (depth - 1) 0 then Some 1%nat
          else option_map S (scan rest (depth - 1) false string_char)
        else option_map S (scan rest depth false string_char)
  end.

(** [_extract_balanced_braces(text, start)] for an offset [start >= 0]
    (the callers pass [match.end() - 1]). *)
Definition _extract_balanced_braces (text : string) (start : nat) : string :=
  match str_drop start text with
  | EmptyString => EmptyString            (* start >= len(text) *)
  | String c _ as suffix =>
      if negb (Ascii.eqb c ch_lbrace) then EmptyString
      else match scan suffix 0 false EmptyString with
           | Some n => str_take n suffix  (* text[start : i + 1] *)
           | None => EmptyString
           end
  end.

(** Number of occurrences of the character [c] in [s] that lie outside
    string literals.  String literals are delimited by matching single or
    double quotes; inside a literal a backslash escapes the character that
    follows it.  These are the "unescaped" occurrences of [c]. *)
Fixpoint count_unescaped_from (c : ascii) (s : string) (in_string : bool)
         (string_char : string) : nat :=
  match s with
  | EmptyString => O
  | String ch rest =>
      if in_string then
        match Ascii.eqb ch ch_bslash, rest with
        | true, String _ rest' => count_unescaped_from c rest' true string_char
        | _, _ =>
            count_unescaped_from c rest
              (negb (String.eqb (str1 ch) string_char)) string_char
        end
      else if Ascii.eqb ch ch_squote || Ascii.eqb ch ch_dquote then
        count_unescaped_from c rest true (str1 ch)
      else
        (if Ascii.eqb ch c then 1 else 0)%nat
        + count_unescaped_from c rest false string_char
  end.

Definition count_unescaped (c : ascii) (s : string) : nat :=
  count_unescaped_from c s false EmptyString.

End Extractor.

(* ------------------------------------------------------------------ *)
(** * Python values, exceptions *)
(* ------------------------------------------------------------------ *)

(** Exceptions the modelled code can raise. *)
Inductive exn : Type :=
| ZeroDivisionError
| ValueError
| TypeError
| AttributeError
| KeyError
| IndexError.

Inductive Result (A : Type) : Type :=
| Ok (a : A)
| Err (e : exn).
Arguments Ok {A} a.
Arguments Err {A} e.

Definition rbind {A B} (r : Result A) (k : A -> Result B) : Result B :=
  match r with
  | Ok a => k a
  | Err e => Err e
  end.

Declare Scope result_scope.
Delimit Scope result_scope with result.
Notation "x <- c ;; k" := (rbind c (fun x => k))
  (at level 61, c at next level, right associativity) : result_scope.

(** The values [json.loads] produces.  An integer literal becomes a Python
    [int]; a literal with a fraction or an exponent becomes a [float], kept
    here as its source token. *)
#[local] Unset Elimination Schemes.
Inductive json : Type :=
| JNull
| JBool (b : bool)
| JInt (z : Z)
| JFloat (tok : string)
| JStr (s : string)
| JArr (items : list json)
| JObj (members : list (string * json)).
#[local] Set Elimination Schemes.

(** [s == v] for a Python string [s] and a JSON value [v]: a string is
    equal to strings only. *)
Definition str_eq_json (s : string) (v : json) : bool :=
  match v with
  | JStr s' => String.eqb s s'
  | _ => false
  end.

(** [s in l] for a Python string [s] and a list [l]. *)
Definition str_in (s : string) (l : list json) : bool :=
  existsb (str_eq_json s) l.

(** [s in l] for a list of strings. *)
Definition str_mem (s : string) (l : list string) : bool :=
  existsb (String.eqb s) l.

(* ------------------------------------------------------------------ *)
(** * Passage data model and the process-wide store *)
(* ------------------------------------------------------------------ *)

(** The slots of a [Passage] object. *)
Record Passage : Type := mkPassage {
  ticker : string;
  section : string;
  subsection : json;
  content : string;
  tags : list json;
  weight : R
}.

(** [Passage.to_dict()] extended with the ["relevance_score"] entry that
    [retrieve] adds. *)
Record ResultDict : Type := mkResultDict {
  r_ticker : string;
  r_section : string;
  r_subsection : json;
  r_content : string;
  r_tags : list json;
  r_weight : R;
  relevance_score : R
}.

(** Passage objects are heap allocated; a location is the index of the
    object in allocation order. *)
Definition loc : Type := nat.
Definition Heap : Type := list Passage.

(** The module-level globals of [ingest.py] together with the heap of
    Passage objects.  [_store] is a Python [dict]: an association list in
    insertion order. *)
Record State : Type := mkState {
  heap : Heap;
  _store : list (string * list loc);
  _all_passages : list loc
}.

(** The object a location refers to.  Python has no dangling references;
    a location outside the heap reads as this placeholder. *)
Definition unbound : Passage :=
  mkPassage EmptyString EmptyString JNull EmptyString [] 0%R.

Definition deref (h : Heap) (l : loc) : Passage := nth l h unbound.

(** Computations that read and extend the state and may raise. *)
Definition M (A : Type) : Type := State -> Result A * State.

Definition ret {A} (a : A) : M A := fun st => (Ok a, st).
Definition raise {A} (e : exn) : M A := fun st => (Err e, st).
Definition bind {A B} (m : M A) (k : A -> M B) : M B :=
  fun st => match m st with
            | (Ok a, st') => k a st'
            | (Err e, st') => (Err e, st')
            end.
Definition lift {A} (r : Result A) : M A := fun st => (r, st).
Definition get_state : M State := fun st => (Ok st, st).

Declare Scope monad_scope.
Delimit Scope monad_scope with monad.
Notation "x <- c ;; k" := (bind c (fun x => k))
  (at level 61, c at next level, right associativity) : monad_scope.

(** [Passage(ticker, section, subsection, content, tags, weight)]:
    allocates a fresh object.  ([self.tags = tags or []] leaves [tags]
    as it is.) *)
Definition new_Passage (p : Passage) : M loc :=
  fun st => (Ok (List.length (heap st)),
             mkState (heap st ++ [p]) (_store st) (_all_passages st)).

(** Reading the attributes of the object at [l]. *)
Definition read (l : loc) : M Passage :=
  fun st => (Ok (deref (heap st) l), st).

Fixpoint mapM {A B} (f : A -> M B) (l : list A) : M (list B) :=
  match l with
  | [] => ret []
  | x :: r => (y <- f x ;; ys <- mapM f r ;; ret (y :: ys))%monad
  end.

(* ------------------------------------------------------------------ *)
(** * ASCII character classes and case mapping *)
(* ------------------------------------------------------------------ *)

Definition in_range (lo hi : nat) (c : ascii) : bool :=
  let n := nat_of_ascii c in (lo <=? n)%nat && (n <=? hi)%nat.

Definition is_upper (c : ascii) : bool := in_range 65 90 c.
Definition is_lower (c : ascii) : bool := in_range 97 122 c.
Definition is_digit (c : ascii) : bool := in_range 48 57 c.
Definition is_alpha (c : ascii) : bool := is_upper c || is_lower c.

(** [\w] on ASCII text. *)
Definition is_word (c : ascii) : bool :=
  is_alpha c || is_digit c || Ascii.eqb c "_"%char.

(** [\s] and [str.isspace] on ASCII text: tab, line feed, vertical tab,
    form feed, carriage return, the separators 28 to 31, and space. *)
Definition is_space (c : ascii) : bool :=
  in_range 9 13 c || in_range 28 32 c.

Definition lower_char (c : ascii) : ascii :=
  if is_upper c then ascii_of_nat (nat_of_ascii c + 32) else c.
Definition upper_char (c : ascii) : ascii :=
  if is_lower c then ascii_of_nat (nat_of_ascii c - 32) else c.

Fixpoint str_map (f : ascii -> ascii) (s : string) : string :=
  match s with
  | EmptyString => EmptyString
  | String c r => String (f c) (str_map f r)
  end.

(** [s.lower()] and [s.upper()]. *)
Definition lower (s : string) : string := str_map lower_char s.
Definition upper (s : string) : string := str_map upper_char s.

Fixpoint lstrip (s : string) : string :=
  match s with
  | String c r => if is_space c then lstrip r else s
  | EmptyString => EmptyString
  end.

Fixpoint str_rev_onto (s acc : string) : string :=
  match s with
  | EmptyString => acc
  | String c r => str_rev_onto r (String c acc)
  end.
Definition str_rev (s : string) : string := str_rev_onto s EmptyString.

Definition rstrip (s : string) : string := str_rev (lstrip (str_rev s)).

(** [s.strip()]. *)
Definition strip (s : string) : string := rstrip (lstrip s).

(** [sub in s] for strings. *)
Fixpoint contains (sub s : string) : bool :=
  String.prefix sub s ||
  match s with
  | EmptyString => false
  | String _ r => contains sub r
  end.

(* ------------------------------------------------------------------ *)
(** * Passage Store: [get_passages] *)
(* ------------------------------------------------------------------ *)

(** [d.get(k, default)] on a dict kept as an association list. *)
Fixpoint dict_get {V} (d : list (string * V)) (k : string) (default : V) : V :=
  match d with
  | [] => default
  | (k', v) :: r => if String.eqb k k' then v else dict_get r k default
  end.

(** Truth value of an optional string: [None] and the empty string are
    false. *)
Definition str_truthy (o : option string) : bool :=
  match o with
  | None | Some EmptyString => false
  | Some _ => true
  end.

Definition get_passages (st : State) (ticker : option string) : list loc :=
  match ticker with
  | Some t =>
      if str_truthy ticker then dict_get (_store st) (upper t) []
      else _all_passages st
  | None => _all_passages st
  end.

(* ------------------------------------------------------------------ *)
(** * Tokeniser *)
(* ------------------------------------------------------------------ *)

Definition _STOP_WORDS : list string :=
  [ "a"; "an"; "the"; "is"; "are"; "was"; "were"; "be"; "been"; "being";
    "have"; "has"; "had"; "do"; "does"; "did"; "will"; "would"; "could";
    "should"; "may"; "might"; "shall"; "can"; "need"; "dare"; "ought";
    "to"; "of"; "in"; "for"; "on"; "with"; "at"; "by"; "from"; "as";
    "into"; "through"; "during"; "before"; "after"; "above"; "below";
    "between"; "out"; "off"; "over"; "under"; "again"; "further"; "then";
    "once"; "and"; "but"; "or"; "nor"; "not"; "so"; "yet"; "both";
    "each"; "all"; "any"; "few"; "more"; "most"; "other"; "some"; "such";
    "no"; "only"; "same"; "than"; "too"; "very"; "just"; "because";
    "if"; "when"; "while"; "this"; "that"; "these"; "those"; "it"; "its";
    "what"; "which"; "who"; "whom"; "how"; "where"; "why"; "i"; "me";
    "my"; "we"; "our"; "you"; "your"; "he"; "him"; "his"; "she"; "her";
    "they"; "them"; "their" ].

(** [[a-z0-9]]. *)
Definition is_tok_char (c : ascii) : bool := is_lower c || is_digit c.

Definition emit (cur : string) : list string :=
  match cur with
  | EmptyString => []
  | _ => [cur]
  end.

(** [re.findall(r"[a-z0-9]+(?:\.[a-z0-9]+)*", s)].  [cur] is the part of
    the current match read so far (empty between matches).  A run of
    [[a-z0-9]] is taken whole; a dot continues the match only when a
    character of [[a-z0-9]] follows it. *)
Fixpoint findall_tokens (s : string) (cur : string) : list string :=
  match s with
  | EmptyString => emit cur
  | String c r =>
      if is_tok_char c then findall_tokens r (cur ++ str1 c)
      else if Ascii.eqb c "."%char
              && negb (String.eqb cur EmptyString)
              && match r with
                 | String c' _ => is_tok_char c'
                 | EmptyString => false
                 end
      then findall_tokens r (cur ++ str1 c)
      else emit cur ++ findall_tokens r EmptyString
  end.

Definition _tokenize (text : string) : list string :=
  let tokens := findall_tokens (lower text) EmptyString in
  filter (fun t => negb (str_mem t _STOP_WORDS)
                   && (1 <? String.length t)%nat) tokens.

(* ------------------------------------------------------------------ *)
(** * Float operations that can raise *)
(* ------------------------------------------------------------------ *)

(** [x / y] on floats. *)
Definition py_div (x y : R) : Result R :=
  if Req_dec_T y 0%R then Err ZeroDivisionError else Ok (x / y)%R.

(** [math.log(x)]. *)
Definition py_log (x : R) : Result R :=
  if Rle_dec x 0%R then Err ValueError else Ok (ln x).

(** [a < b] on floats. *)
Definition Rltb (a b : R) : bool := if Rlt_dec a b then true else false.

(** Nearest integer, ties to the even one. *)
Definition round_half_even (x : R) : Z :=
  let f := Int_part x in
  let d := (x - IZR f)%R in
  if Rlt_dec d (1 / 2)%R then f
  else if Rlt_dec (1 / 2)%R d then (f + 1)%Z
  else if Z.even f then f else (f + 1)%Z.

(** [round(x, 3)]. *)
Definition round3 (x : R) : R :=
  (IZR (round_half_even (x * 1000)) / 1000)%R.

(* ------------------------------------------------------------------ *)
(** * [list.sort(key=...)] and slicing *)
(* ------------------------------------------------------------------ *)

(** Insert [x], which came before every element of the sorted list [l] in
    the original order, so that it stays in front of the elements whose key
    is not smaller than its own. *)
Fixpoint insert_by {A} (key : A -> R) (x : A) (l : list A) : list A :=
  match l with
  | [] => [x]
  | y :: r =>
      if Rltb (key y) (key x) then y :: insert_by key x r
      else x :: y :: r
  end.

(** [l.sort(key=key)]: the stable ascending sort. *)
Definition sort_by {A} (key : A -> R) (l : list A) : list A :=
  fold_right (insert_by key) [] l.

(** [l[:m]] for a Python integer [m]; a negative [m] counts from the
    end. *)
Definition slice_to {A} (l : list A) (m : Z) : list A :=
  if (0 <=? m)%Z then firstn (Z.to_nat m) l
  else firstn (Z.to_nat (Z.of_nat (List.length l) + m)) l.

(* ------------------------------------------------------------------ *)
(** * Lexical index: the class [BM25] *)
(* ------------------------------------------------------------------ *)

(** [collections.Counter] over strings: keys in first-insertion order. *)
Definition Counter : Type := list (string * nat).

(** [c[k] += 1]. *)
Fixpoint counter_incr (c : Counter) (k : string) : Counter :=
  match c with
  | [] => [(k, 1%nat)]
  | (k', n) :: r =>
      if String.eqb k k' then (k', S n) :: r else (k', n) :: counter_incr r k
  end.

(** [Counter(tokens)]. *)
Definition Counter_of (tokens : list string) : Counter :=
  fold_left counter_incr tokens [].

(** [c.get(k, 0)]. *)
Definition counter_get (c : Counter) (k : string) : nat := dict_get c k 0%nat.

Definition sum_nat (l : list nat) : nat := fold_left Nat.add l 0%nat.

(** The attributes of a [BM25] object. *)
Record BM25 : Type := mkBM25 {
  passages : list loc;
  k1 : R;
  b : R;
  corpus_size : nat;
  doc_tokens : list (list string);
  doc_freqs : list Counter;
  doc_lens : list nat;
  avg_dl : R;
  df : Counter
}.

(** [BM25.__init__(passages)] with the default [k1] and [b]; the contents
    of the passages are read from the heap [h]. *)
Definition BM25_init (h : Heap) (ps : list loc) : BM25 :=
  let toks := map (fun p => _tokenize (content (deref h p))) ps in
  let freqs := map Counter_of toks in
  let lens := map (@List.length string) toks in
  let n := List.length ps in
  mkBM25 ps (15 / 10)%R (75 / 100)%R n toks freqs lens
    (INR (sum_nat lens) / INR (Nat.max n 1))%R
    (fold_left (fun d freq => fold_left counter_incr (map fst freq) d)
       freqs []).

Section Scoring.
Local Open Scope result_scope.

Variable h : Heap.
Variable bm : BM25.

(** [BM25._idf(term)]. *)
Definition _idf (term : string) : Result R :=
  let n := counter_get (df bm) term in
  q <- py_div (IZR (Z.of_nat (corpus_size bm) - Z.of_nat n) + 5 / 10)%R
              (INR n + 5 / 10)%R ;;
  py_log (q + 1)%R.

(** One iteration of the loop [for term in query_tokens]: the term's
    contribution to the score of a document with term counts [freq] and
    length [dl]. *)
Definition term_score (freq : Counter) (dl : nat) (term : string)
  : Result R :=
  let tf := counter_get freq term in
  idf <- _idf term ;;
  let numerator := (INR tf * (k1 bm + 1))%R in
  q <- py_div (b bm * INR dl)%R (avg_dl bm) ;;
  let denominator := (INR tf + k1 bm * (1 - b bm + q))%R in
  py_div (idf * numerator)%R denominator.

(** The inner loop: [score] after all query terms have been added. *)
Fixpoint sum_terms (freq : Counter) (dl : nat) (terms : list string)
         (score : R) : Result R :=
  match terms with
  | [] => Ok score
  | term :: r =>
      t <- term_score freq dl term ;;
      sum_terms freq dl r (score + t)%R
  end.

(** The body of [for i, passage in enumerate(self.passages)].  The lists
    [doc_lens] and [doc_freqs] are as long as [passages] by
    [__init__]. *)
Definition score_doc (query_tokens : list string) (i : nat) (passage : loc)
  : Result (R * loc) :=
  let dl := nth i (doc_lens bm) 0%nat in
  let freq := nth i (doc_freqs bm) [] in
  s <- sum_terms freq dl query_tokens 0%R ;;
  Ok ((s * weight (deref h passage))%R, passage).

Fixpoint score_loop (query_tokens : list string) (i : nat) (ps : list loc)
  : Result (list (R * loc)) :=
  match ps with
  | [] => Ok []
  | p :: r =>
      x <- score_doc query_tokens i p ;;
      xs <- score_loop query_tokens (S i) r ;;
      Ok (x :: xs)
  end.

(** [BM25.score(query)]. *)
Definition score (query : string) : Result (list (R * loc)) :=
  let query_tokens := _tokenize query in
  match query_tokens with
  | [] => Ok (map (fun p => (0%R, p)) (passages bm))
  | _ =>
      results <- score_loop query_tokens 0 (passages bm) ;;
      Ok (sort_by (fun x => (- fst x)%R) results)
  end.

End Scoring.

(* ------------------------------------------------------------------ *)
(** * Query heuristics *)
(* ------------------------------------------------------------------ *)

Definition _SECTION_HINTS : list (string * list string) :=
  [ ("bull", ["hypothesis"; "verdict"; "narrative"]);
    ("bear", ["hypothesis"; "verdict"; "narrative"]);
    ("upside", ["hypothesis"; "verdict"; "narrative"]);
    ("downside", ["hypothesis"; "verdict"; "narrative"]);
    ("thesis", ["hypothesis"; "verdict"; "narrative"]);
    ("hypothesis", ["hypothesis"]);
    ("risk", ["tripwire"; "discriminator"; "hypothesis"; "evidence"]);
    ("catalyst", ["tripwire"; "discriminator"]);
    ("tripwire", ["tripwire"]);
    ("evidence", ["evidence"]);
    ("regulatory", ["evidence"]);
    ("competitor", ["evidence"]);
    ("valuation", ["identity"; "reference"; "narrative"]);
    ("price", ["technical"; "identity"; "reference"]);
    ("technical", ["technical"]);
    ("chart", ["technical"]);
    ("metric", ["identity"; "reference"; "overview"]);
    ("financial", ["identity"; "reference"]);
    ("dividend", ["identity"; "reference"]);
    ("margin", ["evidence"; "hypothesis"; "identity"]);
    ("gap", ["gaps"]);
    ("unknown", ["gaps"]);
    ("narrative", ["narrative"]);
    ("overview", ["overview"]);
    ("summary", ["verdict"; "overview"; "narrative"]);
    ("fresh", ["freshness"]) ].

(** [set.add]. *)
Definition set_add (x : string) (s : list string) : list string :=
  if str_mem x s then s else s ++ [x].

(** [s.update(xs)]. *)
Definition set_update (s : list string) (xs : list string) : list string :=
  fold_left (fun acc x => set_add x acc) xs s.

(** [_detect_section_boost(query)].  The result is the list of the
    elements of a set; only its emptiness and membership in it are
    observed.  Each iteration of the loop updates [boosted] with the
    keyword's sections when the keyword occurs in the query, and with
    nothing otherwise. *)
Definition _detect_section_boost (query : string) : list string :=
  let query_lower := lower query in
  fold_left
    (fun boosted kv =>
       set_update boosted
         (if contains (fst kv) query_lower then snd kv else []))
    _SECTION_HINTS [].

(** [Passage(p.ticker, p.section, p.subsection, p.content, p.tags,
    p.weight * factor)]. *)
Definition scaled (p : Passage) (factor : R) : Passage :=
  mkPassage (ticker p) (section p) (subsection p) (content p) (tags p)
            (weight p * factor)%R.

(** The loop shared by the boosting passes: a passage for which [test]
    holds is replaced by a fresh copy with a scaled weight, the others
    are kept. *)
Definition boost_loop (test : Passage -> bool) (factor : R)
           (ps : list loc) : M (list loc) :=
  mapM (fun l =>
          (p <- read l ;;
           if test p then new_Passage (scaled p factor) else ret l)%monad)
       ps.

Definition direction_map : list (string * string) :=
  [ ("bullish", "upside"); ("bull", "upside");
    ("bearish", "downside"); ("bear", "downside") ].

Definition _filter_by_alignment (ps : list loc) (alignment : option string)
  : M (list loc) :=
  match alignment with
  | None => ret ps
  | Some a =>
      if negb (str_truthy alignment) then ret ps
      else
        let alignment_lower := strip (lower a) in
        if str_mem alignment_lower ["t1"; "t2"; "t3"; "t4"] then
          boost_loop (fun p => str_in alignment_lower (tags p)) (15 / 10)%R ps
        else
          let direction :=
            dict_get direction_map alignment_lower alignment_lower in
          if str_mem direction ["upside"; "downside"; "neutral"] then
            boost_loop (fun p => str_in direction (tags p)) (13 / 10)%R ps
          else ret ps
  end.

(* ------------------------------------------------------------------ *)
(** * Public retrieval API *)
(* ------------------------------------------------------------------ *)

(** [passage.to_dict()] with [result["relevance_score"] = round(score, 3)]. *)
Definition to_result (score : R) (p : Passage) : ResultDict :=
  mkResultDict (ticker p) (section p) (subsection p) (content p) (tags p)
               (weight p) (round3 score).

(** The first half of [retrieve]: the candidate lookup and the two
    boosting passes, up to the list handed to the [BM25] constructor. *)
Definition boosted_candidates (query : string) (ticker : option string)
           (thesis_alignment : option string) : M (list loc) :=
  (st <- get_state ;;
   let candidates := get_passages st ticker in
   match candidates with
   | [] => ret []
   | _ =>
       aligned <- _filter_by_alignment candidates thesis_alignment ;;
       let boosted_sections := _detect_section_boost query in
       match boosted_sections with
       | [] => ret aligned
       | _ => boost_loop (fun p => str_mem (section p) boosted_sections)
                         (14 / 10)%R aligned
       end
   end)%monad.

Definition retrieve (query : string) (ticker : option string)
           (thesis_alignment : option string) (max_passages : Z)
  : M (list ResultDict) :=
  (adjusted <- boosted_candidates query ticker thesis_alignment ;;
   match adjusted with
   | [] => ret []                         (* if not passages: return [] *)
   | _ =>
       st' <- get_state ;;
       let bm25 := BM25_init (heap st') adjusted in
       scored <- lift (score (heap st') bm25 query) ;;
       mapM (fun sp => p <- read (snd sp) ;; ret (to_result (fst sp) p))
            (slice_to scored max_passages)
   end)%monad.

(* ------------------------------------------------------------------ *)
(** * Value-level views used to state the properties *)
(* ------------------------------------------------------------------ *)

Definition rmap {A B} (f : A -> B) (r : Result A) : Result B :=
  rbind r (fun a => Ok (f a)).

(** Every reference held by the globals points into the heap. *)
Definition store_wf (st : State) : bool :=
  forallb (fun kv => forallb (fun l => (l <? List.length (heap st))%nat)
                             (snd kv))
          (_store st)
  && forallb (fun l => (l <? List.length (heap st))%nat) (_all_passages st).

(** What the thesis-alignment pass hands on for a passage with
    attributes [p]. *)
Definition align_boost (alignment : option string) (p : Passage) : Passage :=
  match alignment with
  | None => p
  | Some a =>
      if negb (str_truthy alignment) then p
      else
        let alignment_lower := strip (lower a) in
        if str_mem alignment_lower ["t1"; "t2"; "t3"; "t4"] then
          if str_in alignment_lower (tags p) then scaled p (15 / 10)%R else p
        else
          let direction :=
            dict_get direction_map alignment_lower alignment_lower in
          if str_mem direction ["upside"; "downside"; "neutral"] then
            if str_in direction (tags p) then scaled p (13 / 10)%R else p
          else p
  end.

(** What the section-keyword pass hands on. *)
Definition section_boost (query : string) (p : Passage) : Passage :=
  match _detect_section_boost query with
  | [] => p
  | bs => if str_mem (section p) bs then scaled p (14 / 10)%R else p
  end.

(** The attributes of a candidate as the [BM25] constructor sees it. *)
Definition boosted_value (query : string) (alignment : option string)
           (p : Passage) : Passage :=
  section_boost query (align_boost alignment p).

(** The scores [BM25(docs).score(query)] computes, in candidate order
    (before sorting), for candidates with attributes [docs]. *)
Definition bm25_scores (docs : list Passage) (query : string)
  : Result (list R) :=
  let ps := seq 0 (List.length docs) in
  match _tokenize query with
  | [] => Ok (map (fun _ => 0%R) docs)
  | toks => rmap (map fst) (score_loop docs (BM25_init docs ps) toks 0 ps)
  end.

(** The candidate positions in the order [BM25.score] returns them. *)
Definition ranking (scores : list R) : list nat :=
  sort_by (fun i => (- nth i scores 0)%R) (seq 0 (List.length scores)).

(** [x] occurs in front of [y] in [l]. *)
Definition before {A} (x y : A) (l : list A) : Prop :=
  exists l1 l2 l3, l = l1 ++ x :: l2 ++ y :: l3.

(** Position [i] is ranked in front of position [j]: its score is higher,
    or the scores are equal and [i] comes first in candidate order. *)
Definition outranks (scores : list R) (i j : nat) : Prop :=
  (nth i scores 0 > nth j scores 0)%R \/
  (nth i scores 0 = nth j scores 0 /\ (i < j)%nat)%R.

(** Ascending order of positions by [key], ties by position. *)
Definition lex (key : nat -> R) (i j : nat) : Prop :=
  (key i < key j)%R \/ (key i = key j /\ (i < j)%nat).

(** [st'] is [st] with further objects allocated: the globals and every
    object of [st] are as before. *)
Definition extends (st st' : State) : Prop :=
  (exists news, heap st' = heap st ++ news) /\
  _store st' = _store st /\
  _all_passages st' = _all_passages st.

(** What a boosting loop hands on for a passage with attributes [p]. *)
Definition boost (test : Passage -> bool) (factor : R) (p : Passage)
  : Passage :=
  if test p then scaled p factor else p.

(** The value [BM25._idf] computes for a term of document frequency the
    table [df] records. *)
Definition idf_val (bm : BM25) (term : string) : R :=
  let n := counter_get (df bm) term in
  ln ((IZR (Z.of_nat (corpus_size bm) - Z.of_nat n) + 5 / 10)
      / (INR n + 5 / 10) + 1)%R.

(** The value one query term contributes for term frequency [tf] in a
    document of length [dl]. *)
Definition term_val (bm : BM25) (term : string) (tf dl : nat) : R :=
  (idf_val bm term * (INR tf * (k1 bm + 1))
   / (INR tf + k1 bm * (1 - b bm + b bm * INR dl / avg_dl bm)))%R.

(** The index was built with the default parameters, no term is recorded
    in more documents than there are, and the average length is not
    negative. *)
Definition index_ok (bm : BM25) : Prop :=
  k1 bm = (15 / 10)%R /\ b bm = (75 / 100)%R /\
  (forall t, (counter_get (df bm) t <= corpus_size bm)%nat) /\
  (0 <= avg_dl bm)%R.

(** The inner loop of [BM25.score] for the document at position [i]. *)
Definition doc_sum (bm : BM25) (toks : list string) (i : nat) : Result R :=
  sum_terms bm (nth i (doc_freqs bm) []) (nth i (doc_lens bm) 0%nat) toks 0%R.

(** Two indexes with the same statistics (they may list different
    objects). *)
Definition same_index (bm bm' : BM25) : Prop :=
  k1 bm = k1 bm' /\ b bm = b bm' /\ corpus_size bm = corpus_size bm' /\
  doc_freqs bm = doc_freqs bm' /\ doc_lens bm = doc_lens bm' /\
  avg_dl bm = avg_dl bm' /\ df bm = df bm'.

(** The sum over the query terms, as a real number. *)
Fixpoint sum_vals (bm : BM25) (freq : Counter) (dl : nat)
         (terms : list string) : R :=
  match terms with
  | [] => 0%R
  | t :: r =>
      (term_val bm t (counter_get freq t) dl + sum_vals bm freq dl r)%R
  end.

(** The value of the inner loop for the document at position [i]. *)
Definition doc_val (bm : BM25) (toks : list string) (i : nat) : R :=
  sum_vals bm (nth i (doc_freqs bm) []) (nth i (doc_lens bm) 0%nat) toks.

(** The attributes of the candidates of [ticker] as the [BM25]
    constructor sees them. *)
Definition boosted_docs (st : State) (query : string)
           (ticker alignment : option string) : list Passage :=
  map (fun l => boosted_value query alignment (deref (heap st) l))
      (get_passages st ticker).

(* ------------------------------------------------------------------ *)
(** * A small corpus used in examples *)
(* ------------------------------------------------------------------ *)

Definition example_overview : Passage :=
  mkPassage "WOW" "overview" (JStr "company_description")
            "Woolworths Group (ASX: WOW)"
            [JStr "overview"; JStr "fundamentals"] 1%R.

Definition example_metrics : Passage :=
  mkPassage "WOW" "overview" (JStr "key_metrics")
            "Key metrics for WOW: Revenue: 64B"
            [JStr "metrics"; JStr "fundamentals"] (8 / 10)%R.

Definition example_hypothesis : Passage :=
  mkPassage "WOW" "hypothesis" (JStr "t2")
            "Hypothesis: Margin recovery"
            [JStr "hypothesis"; JStr "t2"; JStr "upside"] (13 / 10)%R.

(** The store after ingesting a document with these three passages for
    the ticker WOW. *)
Definition example_state : State :=
  mkState [example_overview; example_metrics; example_hypothesis]
          [("WOW", [0; 1; 2])%nat]
          [0; 1; 2]%nat.

(* ------------------------------------------------------------------ *)
(** * Which passages the boosting passes select *)
(* ------------------------------------------------------------------ *)

(** The supplied alignment is a tier token and the passage carries it as
    a tag. *)
Definition tier_match (alignment : string) (p : Passage) : bool :=
  str_truthy (Some alignment)
  && str_mem (strip (lower alignment)) ["t1"; "t2"; "t3"; "t4"]
  && str_in (strip (lower alignment)) (tags p).

(** The supplied alignment resolves to a direction and the passage carries
    that direction as a tag. *)
Definition direction_match (alignment : string) (p : Passage) : bool :=
  let al := strip (lower alignment) in
  let direction := dict_get direction_map al al in
  str_truthy (Some alignment)
  && negb (str_mem al ["t1"; "t2"; "t3"; "t4"])
  && str_mem direction ["upside"; "downside"; "neutral"]
  && str_in direction (tags p).

(** The passage's section is in the query's keyword-matched union. *)
Definition section_match (query : string) (p : Passage) : bool :=
  str_mem (section p) (_detect_section_boost query).

(** The passage receives neither boost. *)
Definition no_boost (query : string) (alignment : option string)
           (p : Passage) : bool :=
  negb (section_match query p)
  && match alignment with
     | None => true
     | Some a => negb (tier_match a p) && negb (direction_match a p)
     end.

(* ------------------------------------------------------------------ *)
(** * Term frequencies: auxiliary notions and example corpora *)
(* ------------------------------------------------------------------ *)

(** The number of token lists in which [x] occurs. *)
Definition df_count (x : string) (TL : list (list string)) : nat :=
  List.length (filter (str_mem x) TL).

(** The tokens of a document. *)
Definition tokens_of (d : Passage) : list string := _tokenize (content d).

(** Example documents for the term-frequency properties. *)
Definition tf_doc (text : string) : Passage :=
  mkPassage "WOW" "evidence" (JStr "card_1") text [JStr "evidence"] 1%R.

Definition tf_docs : list Passage :=
  [tf_doc "alpha beta"; tf_doc "alpha gamma"; tf_doc "alpha gamma"].

Definition tf_docs_more : list Passage :=
  [tf_doc "alpha alpha beta"; tf_doc "alpha gamma"; tf_doc "alpha gamma"].

Definition tf_docs_swap : list Passage :=
  [tf_doc "alpha beta zeta"; tf_doc "alpha gamma"; tf_doc "alpha gamma"].

Definition tf_docs_swapped : list Passage :=
  [tf_doc "alpha beta alpha"; tf_doc "alpha gamma"; tf_doc "alpha gamma"].

(* ------------------------------------------------------------------ *)
(** * Further notions used to state properties of the code *)
(* ------------------------------------------------------------------ *)

(** Every character of [s] satisfies [P]. *)
Fixpoint str_forall (P : ascii -> bool) (s : string) : bool :=
  match s with
  | EmptyString => true
  | String c r => P c && str_forall P r
  end.

(** The string begins (ends) with a character of [[a-z0-9]]. *)
Definition head_tok (s : string) : bool :=
  match str_head s with
  | Some c => is_tok_char c
  | None => false
  end.

Definition last_tok (s : string) : bool :=
  match str_last s with
  | Some c => is_tok_char c
  | None => false
  end.

(** The shape of a token: characters of [[a-z0-9]] and dots, beginning
    and ending with a character of [[a-z0-9]]. *)
Definition token_shape (t : string) : bool :=
  str_forall (fun c => is_tok_char c || Ascii.eqb c "."%char) t
  && head_tok t && last_tok t.

(** What is known of the part of a match read so far, in front of the
    rest [s] of the text. *)
Definition cur_ok (cur s : string) : Prop :=
  cur = EmptyString \/
  (str_forall (fun c => is_tok_char c || Ascii.eqb c "."%char) cur = true /\
   head_tok cur = true /\
   (last_tok cur = true \/ head_tok s = true)).

(* ------------------------------------------------------------------ *)
(** * Pattern substitution *)
(* ------------------------------------------------------------------ *)

(** [re.sub] and [str.replace] scan the text from left to right; at each
    position a [matcher] either fails or gives the length of the match
    (at least one character) and the text to put in its place; the scan
    resumes behind the match.  [prev] is the character in front of the
    current position (for look-behind); [skip] counts the characters of
    the current match still to be dropped. *)
Section Substitution.

Variable matcher : option ascii -> string -> option (nat * string).

Fixpoint sub_scan (prev : option ascii) (skip : nat) (s : string) : string :=
  match s with
  | EmptyString => EmptyString
  | String c r =>
      match skip with
      | S k => sub_scan (Some c) k r
      | O =>
          match matcher prev s with
          | Some (n, replacement) =>
              (replacement ++ sub_scan (Some c) (Nat.pred n) r)%string
          | None => String c (sub_scan (Some c) O r)
          end
      end
  end.

Definition re_sub (s : string) : string := sub_scan None O s.

End Substitution.

(** Number of leading characters of [s] that satisfy [p]. *)
Fixpoint span_len (p : ascii -> bool) (s : string) : nat :=
  match s with
  | String c r => if p c then S (span_len p r) else O
  | EmptyString => O
  end.

(** [s.replace(old, new)] for a non-empty [old]. *)
Definition str_replace (old new : string) (s : string) : string :=
  re_sub (fun _ t =>
            if String.prefix old t then Some (String.length old, new)
            else None) s.

(** Index of the first occurrence of [sub] in [s]. *)
Fixpoint str_find (sub s : string) : option nat :=
  if String.prefix sub s then Some O
  else match s with
       | EmptyString => None
       | String _ r => option_map S (str_find sub r)
       end.

(* ------------------------------------------------------------------ *)
(** * Literal Normalizer: [_js_to_dict] *)
(* ------------------------------------------------------------------ *)

Module Normalizer.

(** The line-comment pattern: two slashes and everything up to the next
    line feed. *)
Definition m_line_comment (_ : option ascii) (t : string)
  : option (nat * string) :=
  if String.prefix "//" t
  then Some (2 + span_len (fun c => negb (Ascii.eqb c ch_nl)) (str_drop 2 t),
             EmptyString)%nat
  else None.

(** The block-comment pattern with [re.DOTALL]: from a slash and a star
    up to the first star and slash behind them. *)
Definition m_block_comment (_ : option ascii) (t : string)
  : option (nat * string) :=
  if String.prefix "/*" t
  then match str_find "*/" (str_drop 2 t) with
       | Some i => Some (2 + i + 2, EmptyString)%nat
       | None => None
       end
  else None.

(** [[a-zA-Z_]] *)
Definition is_ident_start (c : ascii) : bool :=
  is_alpha c || Ascii.eqb c "_"%char.

(** The bare-key pattern: behind an opening brace, a comma or a line feed
    (look-behind), optional white space, an identifier (a letter or an
    underscore, then word characters), optional white space and a colon.
    The match is replaced by a space and the identifier in double quotes,
    followed by the colon. *)
Definition m_bare_key (prev : option ascii) (t : string)
  : option (nat * string) :=
  match prev with
  | Some p =>
      if Ascii.eqb p ch_lbrace || Ascii.eqb p ","%char || Ascii.eqb p ch_nl
      then
        let w1 := span_len is_space t in
        let t1 := str_drop w1 t in
        match t1 with
        | String c _ =>
            if is_ident_start c then
              let k := span_len is_word t1 in
              let t2 := str_drop k t1 in
              let w2 := span_len is_space t2 in
              match str_drop w2 t2 with
              | String ":" _ =>
                  Some ((w1 + k + w2 + 1)%nat,
                        (" " ++ str1 ch_dquote ++ str_take k t1
                         ++ str1 ch_dquote ++ ":")%string)
              | _ => None
              end
            else None
        | EmptyString => None
        end
      else None
  | None => None
  end.

(** The trailing-comma pattern: a comma, optional white space and a
    closing brace or bracket; the match is replaced by the closing
    character. *)
Definition m_trailing_comma (_ : option ascii) (t : string)
  : option (nat * string) :=
  match t with
  | String "," r =>
      let w := span_len is_space r in
      match str_drop w r with
      | String c _ =>
          if Ascii.eqb c ch_rbrace || Ascii.eqb c "]"%char
          then Some (1 + w + 1, str1 c)%nat
          else None
      | EmptyString => None
      end
  | _ => None
  end.

(** The three states of the loop of [_single_to_double_quotes]: outside
    strings, inside a double-quoted string, inside a single-quoted
    string. *)
Inductive quote_mode : Type := Outside | InDouble | InSingle.

Fixpoint single_to_double (mode : quote_mode) (s : string) : string :=
  match mode, s with
  | Outside, EmptyString => EmptyString
  | Outside, String c r =>
      if Ascii.eqb c ch_dquote then String c (single_to_double InDouble r)
      else if Ascii.eqb c ch_squote
           then String ch_dquote (single_to_double InSingle r)
           else String c (single_to_double Outside r)
  | InDouble, EmptyString => EmptyString
  | InDouble, String c r =>
      if Ascii.eqb c ch_dquote then String c (single_to_double Outside r)
      else if Ascii.eqb c ch_bslash then
             match r with
             | String c2 r' => String c (String c2 (single_to_double InDouble r'))
             | EmptyString => String c EmptyString
             end
           else String c (single_to_double InDouble r)
  | InSingle, EmptyString => str1 ch_dquote
  | InSingle, String c r =>
      if Ascii.eqb c ch_squote
      then String ch_dquote (single_to_double Outside r)
      else if Ascii.eqb c ch_bslash then
             match r with
             | String c2 r' =>
                 (if Ascii.eqb c2 ch_squote then str1 ch_squote
                  else if Ascii.eqb c2 ch_dquote
                       then String ch_bslash (str1 ch_dquote)
                  else if Ascii.eqb c2 ch_bslash
                       then String ch_bslash (str1 ch_bslash)
                  else if Ascii.eqb c2 "n"%char then String ch_bslash "n"
                  else if Ascii.eqb c2 "t"%char then String ch_bslash "t"
                  else if Ascii.eqb c2 "r"%char then String ch_bslash "r"
                  else String ch_bslash (str1 c2))
                 ++ single_to_double InSingle r'
             | EmptyString => str1 ch_dquote
             end
           else if Ascii.eqb c ch_dquote
                then String ch_bslash (String ch_dquote
                                         (single_to_double InSingle r))
                else String c (single_to_double InSingle r)
  end.

Definition _single_to_double_quotes (s : string) : string :=
  single_to_double Outside s.

(** The text handed to [json.loads]. *)
Definition normalize (js_str : string) : string :=
  let s := js_str in
  let s := re_sub m_line_comment s in
  let s := re_sub m_block_comment s in
  let s := re_sub m_bare_key s in
  let s := _single_to_double_quotes s in
  let s := re_sub m_trailing_comma s in
  str_replace ": undefined" ": null" s.

End Normalizer.


(* ------------------------------------------------------------------ *)
(** * HTML entity cleanup: [_clean_html] *)
(* ------------------------------------------------------------------ *)

(** The em dash, as its three UTF-8 bytes. *)
Definition em_dash : string :=
  String (ascii_of_nat 226) (String (ascii_of_nat 128)
    (String (ascii_of_nat 148) EmptyString)).

Definition _HTML_ENTITIES : list (string * string) :=
  [ ("&amp;", "&"); ("&lt;", "<"); ("&gt;", ">"); ("&bull;", " - ");
    ("&ndash;", "-"); ("&mdash;", " " ++ em_dash ++ " ");
    ("&rarr;", "->"); ("&larr;", "<-"); ("&uarr;", "^"); ("&darr;", "v");
    ("&ge;", ">="); ("&le;", "<="); ("&#9650;", "^"); ("&#9660;", "v") ]%string.

(** The tag pattern: an opening angle bracket, one or more characters
    other than the closing angle bracket, and the closing angle
    bracket. *)
Definition m_tag (_ : option ascii) (t : string) : option (nat * string) :=
  match t with
  | String "<" r =>
      let k := span_len (fun c => negb (Ascii.eqb c ">"%char)) r in
      match k, str_drop k r with
      | S _, String ">" _ => Some (1 + k + 1, EmptyString)%nat
      | _, _ => None
      end
  | _ => None
  end.

(** The white-space pattern: one or more white-space characters, replaced
    by one space. *)
Definition m_spaces (_ : option ascii) (t : string)
  : option (nat * string) :=
  match span_len is_space t with
  | O => None
  | k => Some (k, " ")
  end.

(** [_clean_html(text)] for a string [text]. *)
Definition _clean_html (text : string) : string :=
  match text with
  | EmptyString => EmptyString            (* if not text: return the empty string *)
  | _ =>
      let text :=
        fold_left (fun t er => str_replace (fst er) (snd er) t)
                  _HTML_ENTITIES text in
      let text := re_sub m_tag text in
      strip (re_sub m_spaces text)
  end.

(** The string begins (ends) with a character that satisfies [P]. *)
Definition head_is (P : ascii -> bool) (s : string) : bool :=
  match str_head s with
  | Some c => P c
  | None => false
  end.

Definition last_is (P : ascii -> bool) (s : string) : bool :=
  match str_last s with
  | Some c => P c
  | None => false
  end.

(** White space is normalised: every white-space character is a space,
    no two spaces are adjacent, and the text neither begins nor ends with
    a space. *)
Definition ws_normal (s : string) : bool :=
  str_forall (fun c => negb (is_space c) || Ascii.eqb c " "%char) s
  && negb (contains "  " s)
  && negb (head_is is_space s) && negb (last_is is_space s).

(** A character that is not white space, or is a space. *)
Definition ws_char (c : ascii) : bool :=
  negb (is_space c) || Ascii.eqb c " "%char.


(* ------------------------------------------------------------------ *)
(** * Pattern scans of the document text *)
(* ------------------------------------------------------------------ *)

(** Optional white space, an equals sign, optional white space and an
    opening brace at the head of [t]: the number of characters up to and
    including the brace. *)
Definition m_assign_brace (t : string) : option nat :=
  let w1 := span_len is_space t in
  match str_drop w1 t with
  | String "=" t1 =>
      let w2 := span_len is_space t1 in
      match str_drop w2 t1 with
      | String c _ =>
          if Ascii.eqb c ch_lbrace then Some (w1 + 1 + w2 + 1)%nat else None
      | EmptyString => None
      end
  | _ => None
  end.

(** The ticker pattern at the head of [t]: the text STOCK_DATA and a dot,
    two to five upper-case letters (the group), and an assignment of an
    opening brace.  A run of more than five upper-case letters does not
    match: the character behind the group is then a letter.  The result
    is the length of the match and the group. *)
Definition m_stock (t : string) : option (nat * string) :=
  if String.prefix "STOCK_DATA." t then
    let t1 := str_drop 11 t in
    let k := span_len is_upper t1 in
    if (2 <=? k)%nat && (k <=? 5)%nat then
      match m_assign_brace (str_drop k t1) with
      | Some n => Some ((11 + k + n)%nat, str_take k t1)
      | None => None
      end
    else None
  else None.

(** [pattern.finditer(html)] for the ticker pattern: the matches from
    left to right, each as its group and the offset of its last
    character, [match.end() - 1].  [pos] is the offset of the head of
    [s] in the text; [skip] counts the characters of the current match
    still to be passed. *)
Fixpoint finditer_stock (pos skip : nat) (s : string) : list (string * nat) :=
  match s with
  | EmptyString => []
  | String _ r =>
      match skip with
      | S k => finditer_stock (S pos) k r
      | O =>
          match m_stock s with
          | Some (n, tk) =>
              (tk, (pos + n - 1)%nat) :: finditer_stock (S pos) (Nat.pred n) r
          | None => finditer_stock (S pos) O r
          end
      end
  end.

(** The pattern of a constant's declaration at the head of [t]: the word
    const, white space, the [name], and an assignment of an opening
    brace. *)
Definition m_const (name : string) (t : string) : option nat :=
  if String.prefix "const" t then
    let t1 := str_drop 5 t in
    let w := span_len is_space t1 in
    match w with
    | O => None
    | _ =>
        let t2 := str_drop w t1 in
        if String.prefix name t2 then
          match m_assign_brace (str_drop (String.length name) t2) with
          | Some n => Some (5 + w + String.length name + n)%nat
          | None => None
          end
        else None
    end
  else None.

(** [pattern.search(html)] for a constant's declaration: [match.end() - 1]
    of the first match. *)
Fixpoint search_const (name : string) (pos : nat) (s : string) : option nat :=
  match m_const name s with
  | Some n => Some (pos + n - 1)%nat
  | None =>
      match s with
      | EmptyString => None
      | String _ r => search_const name (S pos) r
      end
  end.

(* ------------------------------------------------------------------ *)
(** * Operations on parsed values *)
(* ------------------------------------------------------------------ *)

(** [d[k] = v] on a dict: a present key keeps its place. *)
Fixpoint dict_set {V} (d : list (string * V)) (k : string) (v : V)
  : list (string * V) :=
  match d with
  | [] => [(k, v)]
  | (k', v') :: r =>
      if String.eqb k k' then (k', v) :: r else (k', v') :: dict_set r k v
  end.

(** [k in d]. *)
Definition dict_has {V} (d : list (string * V)) (k : string) : bool :=
  existsb (fun kv => String.eqb k (fst kv)) d.

(** [sep.join(l)]. *)
Fixpoint str_join (sep : string) (l : list string) : string :=
  match l with
  | [] => EmptyString
  | [x] => x
  | x :: r => (x ++ sep ++ str_join sep r)%string
  end.

(** The characters of a string, each as a one-character string. *)
Fixpoint str_chars (s : string) : list string :=
  match s with
  | EmptyString => []
  | String c r => str1 c :: str_chars r
  end.

(** The decimal numeral of a natural number, as [str(n)] gives it. *)
Fixpoint nat_str_digits (fuel n : nat) (acc : string) : string :=
  match fuel with
  | O => acc
  | S f =>
      let acc' := String (ascii_of_nat (48 + n mod 10)) acc in
      if (n / 10 =? 0)%nat then acc' else nat_str_digits f (n / 10) acc'
  end.

Definition nat_str (n : nat) : string := nat_str_digits (S n) n EmptyString.

(** [[f(x) for x in l]] where [f] may raise. *)
Fixpoint mapR {A B} (f : A -> Result B) (l : list A) : Result (list B) :=
  match l with
  | [] => Ok []
  | x :: r => (y <- f x ;; ys <- mapR f r ;; Ok (y :: ys))%result
  end.

(** The em dash and the right arrow, as their UTF-8 bytes. *)
Definition right_arrow : string :=
  String (ascii_of_nat 226) (String (ascii_of_nat 134)
    (String (ascii_of_nat 146) EmptyString)).

Definition nl : string := str1 ch_nl.

Section Ingestion.
Local Open Scope result_scope.

(** The library functions the ingestion code relies on:
    - [json_loads s] is [json.loads(s)], with [None] when it raises
      [JSONDecodeError].  The two other exceptions [json.loads] can
      raise, [ValueError] for an integer of more digits than the
      interpreter converts and [RecursionError] for a deeply nested text,
      are not caught by [_js_to_dict] and are not modelled: the
      embedding describes the runs in which they do not occur;
    - [py_str v] is [str(v)] for a value that is not a string;
    - [float_truthy tok] is the truth value of the float read from the
      token [tok]. *)
Variable json_loads : string -> option json.
Variable py_str : json -> string.
Variable float_truthy : string -> bool.

(** [bool(v)]. *)
Definition py_truthy (v : json) : bool :=
  match v with
  | JNull => false
  | JBool b => b
  | JInt z => negb (Z.eqb z 0)
  | JFloat tok => float_truthy tok
  | JStr s => negb (String.eqb s EmptyString)
  | JArr l => match l with [] => false | _ => true end
  | JObj m => match m with [] => false | _ => true end
  end.

(** [v or w]. *)
Definition py_or (v w : json) : json := if py_truthy v then v else w.

(** A value inside an f-string, and [str(v)]. *)
Definition fmt (v : json) : string :=
  match v with
  | JStr s => s
  | _ => py_str v
  end.

(** [d.get(k, default)]: only a dict has the method. *)
Definition py_get (d : json) (k : string) (default : json) : Result json :=
  match d with
  | JObj m => Ok (dict_get m k default)
  | _ => Err AttributeError
  end.

(** [d[k]] for a string [k]. *)
Definition py_getitem (d : json) (k : string) : Result json :=
  match d with
  | JObj m => if dict_has m k then Ok (dict_get m k JNull) else Err KeyError
  | _ => Err TypeError
  end.

(** [v[i]] for an integer [i >= 0]. *)
Definition py_index (v : json) (i : nat) : Result json :=
  match v with
  | JArr l => match nth_error l i with
              | Some x => Ok x
              | None => Err IndexError
              end
  | JStr s => match nth_error (str_chars s) i with
              | Some x => Ok (JStr x)
              | None => Err IndexError
              end
  | JObj _ => Err KeyError
  | _ => Err TypeError
  end.

(** [len(v)]. *)
Definition py_len (v : json) : Result nat :=
  match v with
  | JArr l => Ok (List.length l)
  | JStr s => Ok (String.length s)
  | JObj m => Ok (List.length m)
  | _ => Err TypeError
  end.

(** The items [for x in v] visits. *)
Definition py_iter (v : json) : Result (list json) :=
  match v with
  | JArr l => Ok l
  | JStr s => Ok (map JStr (str_chars s))
  | JObj m => Ok (map (fun kv => JStr (fst kv)) m)
  | _ => Err TypeError
  end.

(** [sep.join(v)]: the items must be strings. *)
Definition py_join (sep : string) (v : json) : Result string :=
  items <- py_iter v ;;
  strs <- mapR (fun x => match x with
                         | JStr s => Ok s
                         | _ => Err TypeError
                         end) items ;;
  Ok (str_join sep strs).

(** [v.lower()]. *)
Definition py_lower (v : json) : Result string :=
  match v with
  | JStr s => Ok (lower s)
  | _ => Err AttributeError
  end.

(** [_clean_html(v)] for any value [v]: a false value gives the empty
    string, any other value is converted by [str]. *)
Definition clean (v : json) : string :=
  if py_truthy v then _clean_html (fmt v) else EmptyString.

(** [_js_to_dict(js_str)]. *)
Definition _js_to_dict (js_str : string) : option json :=
  json_loads (Normalizer.normalize js_str).

(** [_extract_js_objects(html)]. *)
Definition _extract_js_objects (html : string) : list (string * json) :=
  fold_left
    (fun stocks m =>
       let ticker := fst m in
       let brace_start := snd m in
       let js_obj := Extractor._extract_balanced_braces html brace_start in
       if String.eqb js_obj EmptyString then stocks
       else match _js_to_dict js_obj with
            | Some parsed =>
                if py_truthy parsed then dict_set stocks ticker parsed
                else stocks
            | None => stocks
            end)
    (finditer_stock 0 0 html) [].

(** The common body of [_extract_reference_data] and
    [_extract_freshness_data]: the value of [_js_to_dict(js_obj) or {}]
    for the block behind the first declaration of [name]. *)
Definition extract_const_data (name : string) (html : string) : json :=
  match search_const name 0 html with
  | None => JObj []
  | Some brace_start =>
      let js_obj := Extractor._extract_balanced_braces html brace_start in
      match _js_to_dict js_obj with
      | Some parsed => py_or parsed (JObj [])
      | None => JObj []
      end
  end.

Definition _extract_reference_data (html : string) : json :=
  extract_const_data "REFERENCE_DATA" html.

Definition _extract_freshness_data (html : string) : json :=
  extract_const_data "FRESHNESS_DATA" html.


(* ------------------------------------------------------------------ *)
(** * Chunker: [_chunk_stock] *)
(* ------------------------------------------------------------------ *)

(** [Passage(ticker=..., section=..., subsection=..., content=...,
    tags=..., weight=...)] with string literals for the section, the
    subsection and the tags. *)
Definition passage_of (ticker section subsection content : string)
           (tags : list string) (weight : R) : Passage :=
  mkPassage ticker section (JStr subsection) content (map JStr tags) weight.

(** [if d.get(k): parts.append(f(d[k]))]: what is appended. *)
Definition part_if (d : json) (k : string) (f : json -> string)
  : Result (list string) :=
  v <- py_get d k JNull ;;
  if py_truthy v then (x <- py_getitem d k ;; Ok [f x]) else Ok [].

(** Company overview. *)
Definition chunk_overview (ticker : string) (data : json)
  : Result (list Passage) :=
  p1 <- part_if data "company"
          (fun v => (fmt v ++ " (ASX: " ++ ticker ++ ")")%string) ;;
  p2 <- part_if data "sector" (fun v => ("Sector: " ++ fmt v)%string) ;;
  p3 <- part_if data "heroDescription" clean ;;
  p4 <- part_if data "heroCompanyDescription" clean ;;
  identity <- py_get data "identity" (JObj []) ;;
  ov <- py_get identity "overview" JNull ;;
  p5 <- (if py_truthy ov
         then (i <- py_getitem data "identity" ;;
               o <- py_getitem i "overview" ;;
               Ok [clean o])
         else Ok []) ;;
  let overview_parts := p1 ++ p2 ++ p3 ++ p4 ++ p5 in
  match overview_parts with
  | [] => Ok []
  | _ => Ok [passage_of ticker "overview" "company_description"
               (str_join nl overview_parts)
               ["overview"; "fundamentals"] 1]
  end.

(** Hero metrics. *)
Definition chunk_metrics (ticker : string) (data : json)
  : Result (list Passage) :=
  m0 <- py_get data "heroMetrics" JNull ;;
  let metrics := py_or m0 (JArr []) in
  if py_truthy metrics then
    items <- py_iter metrics ;;
    strs <- mapR (fun m =>
                    label <- py_get m "label" (JStr EmptyString) ;;
                    value <- py_get m "value" (JStr EmptyString) ;;
                    Ok (fmt label ++ ": " ++ clean value)%string)
                 items ;;
    Ok [passage_of ticker "overview" "key_metrics"
          ("Key metrics for " ++ ticker ++ ": " ++ str_join ", " strs)%string
          ["metrics"; "fundamentals"] (8 / 10)]
  else Ok [].

(** Identity table. *)
Definition chunk_identity (ticker : string) (data : json)
  : Result (list Passage) :=
  identity <- py_get data "identity" (JObj []) ;;
  id_rows <- py_get identity "rows" (JArr []) ;;
  if py_truthy id_rows then
    rows <- py_iter id_rows ;;
    lines <- mapR (fun row =>
                     cells <- py_iter row ;;
                     ls <- mapR (fun cell =>
                                   n <- py_len cell ;;
                                   if (2 <=? n)%nat then
                                     c0 <- py_index cell 0 ;;
                                     c1 <- py_index cell 1 ;;
                                     Ok [(fmt c0 ++ ": " ++ clean c1)%string]
                                   else Ok [])
                                cells ;;
                     Ok (List.concat ls))
                  rows ;;
    let id_lines := List.concat lines in
    Ok [passage_of ticker "identity" "financial_data"
          ("Financial identity for " ++ ticker ++ ":" ++ nl
           ++ str_join nl id_lines)%string
          ["identity"; "financials"; "fundamentals"] (9 / 10)]
  else Ok [].

(** Skew. *)
Definition chunk_skew (ticker : string) (data : json)
  : Result (list Passage) :=
  skew <- py_get data "skew" (JObj []) ;;
  if py_truthy skew then
    direction <- py_get skew "direction" (JStr "unknown") ;;
    rationale <- py_get skew "rationale" (JStr EmptyString) ;;
    Ok [passage_of ticker "verdict" "skew"
          ("Risk skew for " ++ ticker ++ ": " ++ fmt direction ++ ". "
           ++ clean rationale)%string
          ["skew"; "risk"; "verdict"] 1]
  else Ok [].

(** Verdict. *)
Definition chunk_verdict (ticker : string) (data : json)
  : Result (list Passage) :=
  verdict <- py_get data "verdict" (JObj []) ;;
  if py_truthy verdict then
    text <- py_get verdict "text" (JStr EmptyString) ;;
    let head := ("Verdict for " ++ ticker ++ ": " ++ clean text)%string in
    scores <- py_get verdict "scores" (JArr []) ;;
    items <- py_iter scores ;;
    rest <- mapR (fun score =>
                    label <- py_get score "label" (JStr EmptyString) ;;
                    sc <- py_get score "score" (JStr EmptyString) ;;
                    dir <- py_get score "dirText" (JStr EmptyString) ;;
                    Ok ("  " ++ fmt label ++ ": " ++ fmt sc ++ " ("
                        ++ clean dir ++ ")")%string)
                 items ;;
    Ok [passage_of ticker "verdict" "summary"
          (str_join nl (head :: rest))
          ["verdict"; "thesis"; "summary"] (12 / 10)]
  else Ok [].

(** [xs = d.get(k) or []; if xs: parts.append(label + sep.join(
    _clean_html(x) for x in xs))]: what is appended. *)
Definition joined_part (d : json) (k : string) (label sep : string)
  : Result (list string) :=
  v <- py_get d k JNull ;;
  let xs := py_or v (JArr []) in
  if py_truthy xs then
    items <- py_iter xs ;;
    Ok [(label ++ str_join sep (map clean items))%string]
  else Ok [].

(** Hypotheses, one passage each. *)
Definition chunk_hypothesis (ticker : string) (hyp : json) : Result Passage :=
  title <- py_get hyp "title" (JStr EmptyString) ;;
  direction <- py_get hyp "direction" (JStr EmptyString) ;;
  sc <- py_get hyp "score" (JStr EmptyString) ;;
  status <- py_get hyp "statusText" (JStr EmptyString) ;;
  description <- py_get hyp "description" (JStr EmptyString) ;;
  let parts :=
    [ ("Hypothesis: " ++ clean title)%string;
      ("Direction: " ++ fmt direction)%string;
      ("Probability: " ++ fmt sc)%string;
      ("Status: " ++ clean status)%string;
      ("Description: " ++ clean description)%string ] in
  requires <- joined_part hyp "requires" "Requires: " "; " ;;
  supporting <- joined_part hyp "supporting" "Supporting evidence: " " | " ;;
  contradicting <-
    joined_part hyp "contradicting" "Contradicting evidence: " " | " ;;
  tier <- py_get hyp "tier" (JStr EmptyString) ;;
  direction' <- py_get hyp "direction" (JStr EmptyString) ;;
  Ok (mkPassage ticker "hypothesis" tier
        (str_join nl (parts ++ requires ++ supporting ++ contradicting))
        [JStr "hypothesis"; tier; direction'] (13 / 10)).

Definition chunk_hypotheses (ticker : string) (data : json)
  : Result (list Passage) :=
  hyps <- py_get data "hypotheses" (JArr []) ;;
  items <- py_iter hyps ;;
  mapR (chunk_hypothesis ticker) items.

(** Narrative. *)
Definition chunk_narrative (ticker : string) (data : json)
  : Result (list Passage) :=
  narrative <- py_get data "narrative" (JObj []) ;;
  if py_truthy narrative then
    the <- py_get narrative "theNarrative" JNull ;;
    n1 <- (if py_truthy the
           then (x <- py_getitem narrative "theNarrative" ;;
                 Ok [passage_of ticker "narrative" "the_narrative"
                       ("Market narrative for " ++ ticker ++ ": "
                        ++ clean x)%string
                       ["narrative"; "thesis"] (11 / 10)])
           else Ok []) ;;
    pi <- py_get narrative "priceImplication" (JObj []) ;;
    n2 <- (if py_truthy pi
           then (c <- py_get pi "content" JNull ;;
                 if py_truthy c
                 then (label <- py_get pi "label" (JStr EmptyString) ;;
                       x <- py_getitem pi "content" ;;
                       Ok [passage_of ticker "narrative" "price_implication"
                             ("Price implications for " ++ ticker ++ " ("
                              ++ clean label ++ "): " ++ clean x)%string
                             ["narrative"; "price"; "valuation"] 1])
                 else Ok [])
           else Ok []) ;;
    ec <- py_get narrative "evidenceCheck" JNull ;;
    n3 <- (if py_truthy ec
           then (x <- py_getitem narrative "evidenceCheck" ;;
                 Ok [passage_of ticker "narrative" "evidence_check"
                       ("Evidence check for " ++ ticker ++ ": "
                        ++ clean x)%string
                       ["narrative"; "evidence"] 1])
           else Ok []) ;;
    ns <- py_get narrative "narrativeStability" JNull ;;
    n4 <- (if py_truthy ns
           then (x <- py_getitem narrative "narrativeStability" ;;
                 Ok [passage_of ticker "narrative" "stability"
                       ("Narrative stability for " ++ ticker ++ ": "
                        ++ clean x)%string
                       ["narrative"; "stability"; "risk"] 1])
           else Ok []) ;;
    Ok (n1 ++ n2 ++ n3 ++ n4)
  else Ok [].

(** Evidence cards: one passage per card, and one more for a card with a
    table. *)
Definition chunk_card (ticker : string) (card : json)
  : Result (list Passage) :=
  title <- py_get card "title" (JStr EmptyString) ;;
  label <- py_get card "epistemicLabel" (JStr EmptyString) ;;
  finding <- py_get card "finding" (JStr EmptyString) ;;
  let parts :=
    [ ("Evidence: " ++ clean title)%string;
      ("Epistemic status: " ++ clean label)%string;
      ("Finding: " ++ clean finding)%string ] in
  tension <- part_if card "tension"
               (fun v => ("Tension: " ++ clean v)%string) ;;
  source <- part_if card "source"
              (fun v => ("Source: " ++ clean v)%string) ;;
  tags <- py_get card "tags" (JArr []) ;;
  tag_items <- py_iter tags ;;
  tag_texts <- mapR (fun t =>
                       x <- py_get t "text" (JStr EmptyString) ;;
                       Ok (clean x))
                    tag_items ;;
  number <- py_get card "number" (JStr EmptyString) ;;
  let p :=
    mkPassage ticker "evidence" (JStr ("card_" ++ fmt number))
      (str_join nl (parts ++ tension ++ source))
      (JStr "evidence" :: map JStr tag_texts) (11 / 10) in
  tbl <- py_get card "table" JNull ;;
  if py_truthy tbl then
    headers <- py_get tbl "headers" (JArr []) ;;
    rows <- py_get tbl "rows" (JArr []) ;;
    head <- py_join " | " headers ;;
    row_items <- py_iter rows ;;
    lines <- mapR (fun row =>
                     cells <- py_iter row ;;
                     Ok (str_join " | " (map clean cells)))
                  row_items ;;
    number' <- py_get card "number" (JStr EmptyString) ;;
    title' <- py_get card "title" (JStr EmptyString) ;;
    Ok [p;
        passage_of ticker "evidence" ("card_" ++ fmt number' ++ "_table")
          ("Data table for " ++ clean title' ++ ":" ++ nl
           ++ str_join nl (head :: lines))%string
          ["evidence"; "data"] (8 / 10)]
  else Ok [p].

Definition chunk_cards (ticker : string) (evidence : json)
  : Result (list Passage) :=
  cards <- py_get evidence "cards" (JArr []) ;;
  items <- py_iter cards ;;
  ps <- mapR (chunk_card ticker) items ;;
  Ok (List.concat ps).

(** Evidence alignment summary. *)
Definition chunk_alignment (ticker : string) (evidence : json)
  : Result (list Passage) :=
  alignment <- py_get evidence "alignmentSummary" (JObj []) ;;
  if py_truthy alignment then
    sm <- py_get alignment "summary" JNull ;;
    if py_truthy sm then
      s <- py_getitem alignment "summary" ;;
      t1 <- py_get s "t1" (JStr "-") ;;
      t2 <- py_get s "t2" (JStr "-") ;;
      t3 <- py_get s "t3" (JStr "-") ;;
      t4 <- py_get s "t4" (JStr "-") ;;
      Ok [passage_of ticker "evidence" "alignment_summary"
            ("Evidence alignment summary for " ++ ticker ++ ": "
             ++ "T1 support: " ++ fmt t1 ++ ", "
             ++ "T2 support: " ++ fmt t2 ++ ", "
             ++ "T3 support: " ++ fmt t3 ++ ", "
             ++ "T4 support: " ++ fmt t4)%string
            ["evidence"; "summary"; "alignment"] 1]
    else Ok []
  else Ok [].

(** Discriminators: one passage per row, numbered from 1, and one for
    the non-discriminating evidence. *)
Definition chunk_disc_row (ticker : string) (ir : nat * json)
  : Result Passage :=
  let i := fst ir in
  let row := snd ir in
  diag <- py_get row "diagnosticity" (JStr EmptyString) ;;
  ev <- py_get row "evidence" (JStr EmptyString) ;;
  between <- py_get row "discriminatesBetween" (JStr EmptyString) ;;
  reading <- py_get row "currentReading" (JStr EmptyString) ;;
  diag' <- py_get row "diagnosticity" (JStr EmptyString) ;;
  tag <- py_lower diag' ;;
  Ok (mkPassage ticker "discriminator" (JStr ("disc_" ++ nat_str (i + 1)))
        ("Discriminator (" ++ fmt diag ++ ") for " ++ ticker ++ ": "
         ++ clean ev ++ " " ++ em_dash ++ " "
         ++ "Discriminates between: " ++ clean between
         ++ " " ++ em_dash ++ " "
         ++ "Current reading: " ++ clean reading)%string
        [JStr "discriminator"; JStr tag] (12 / 10)).

Definition chunk_discriminators (ticker : string) (data : json)
  : Result (list Passage) :=
  disc <- py_get data "discriminators" (JObj []) ;;
  if py_truthy disc then
    rows <- py_get disc "rows" (JArr []) ;;
    items <- py_iter rows ;;
    ps <- mapR (chunk_disc_row ticker)
               (combine (seq 0 (List.length items)) items) ;;
    nd <- py_get disc "nonDiscriminating" JNull ;;
    q <- (if py_truthy nd
          then (x <- py_getitem disc "nonDiscriminating" ;;
                Ok [passage_of ticker "discriminator" "non_discriminating"
                      ("Non-discriminating evidence for " ++ ticker ++ ": "
                       ++ clean x)%string
                      ["discriminator"; "noise"] (6 / 10)])
          else Ok []) ;;
    Ok (ps ++ q)
  else Ok [].

(** Tripwires, one passage per card. *)
Definition chunk_tripwire (ticker : string) (tw : json) : Result Passage :=
  conds <- py_get tw "conditions" (JArr []) ;;
  items <- py_iter conds ;;
  cond_parts <- mapR (fun cond =>
                        a <- py_get cond "if" (JStr EmptyString) ;;
                        c <- py_get cond "then" (JStr EmptyString) ;;
                        Ok (clean a ++ " " ++ right_arrow ++ " "
                            ++ clean c)%string)
                     items ;;
  name <- py_get tw "name" (JStr EmptyString) ;;
  name' <- py_get tw "name" (JStr EmptyString) ;;
  date <- py_get tw "date" (JStr EmptyString) ;;
  Ok (mkPassage ticker "tripwire" (JStr (clean name))
        ("Tripwire for " ++ ticker ++ ": " ++ clean name' ++ " (Date: "
         ++ clean date ++ ")" ++ nl ++ str_join nl cond_parts)%string
        [JStr "tripwire"; JStr "catalyst"; JStr "risk"] (12 / 10)).

Definition chunk_tripwires (ticker : string) (data : json)
  : Result (list Passage) :=
  tripwires <- py_get data "tripwires" (JObj []) ;;
  cards <- py_get tripwires "cards" (JArr []) ;;
  items <- py_iter cards ;;
  mapR (chunk_tripwire ticker) items.

(** Gaps. *)
Definition chunk_gaps (ticker : string) (data : json)
  : Result (list Passage) :=
  gaps <- py_get data "gaps" (JObj []) ;;
  couldnt <- py_get gaps "couldntAssess" (JArr []) ;;
  if py_truthy couldnt then
    items <- py_iter couldnt ;;
    Ok [passage_of ticker "gaps" "unknowns"
          ("Research gaps for " ++ ticker ++ " (what we couldn't assess):"
           ++ nl
           ++ str_join nl (map (fun g => ("- " ++ clean g)%string) items))%string
          ["gaps"; "limitations"] (9 / 10)]
  else Ok [].

(** [x = d.get(k, {}); if x: parts.append(f(x))], where [f] may raise:
    what is appended. *)
Definition sub_part (d : json) (k : string) (f : json -> Result string)
  : Result (list string) :=
  x <- py_get d k (JObj []) ;;
  if py_truthy x then (s <- f x ;; Ok [s]) else Ok [].

(** Technical analysis. *)
Definition chunk_technical (ticker : string) (data : json)
  : Result (list Passage) :=
  ta <- py_get data "technicalAnalysis" (JObj []) ;;
  if py_truthy ta then
    date <- py_get ta "date" (JStr EmptyString) ;;
    regime <- py_get ta "regime" (JStr EmptyString) ;;
    clarity <- py_get ta "clarity" (JStr EmptyString) ;;
    let parts :=
      [ ("Technical analysis for " ++ ticker ++ " (" ++ fmt date ++ "):")%string;
        ("Regime: " ++ fmt regime ++ ", Clarity: " ++ fmt clarity)%string ] in
    price <- sub_part ta "price"
               (fun price =>
                  currency <- py_get price "currency" (JStr EmptyString) ;;
                  current <- py_get price "current" (JStr EmptyString) ;;
                  Ok ("Price: " ++ fmt currency ++ fmt current)%string) ;;
    ma <- py_get ta "movingAverages" (JObj []) ;;
    mas <- (if py_truthy ma then
              ma50 <- py_get ma "ma50" (JObj []) ;;
              ma200 <- py_get ma "ma200" (JObj []) ;;
              l50 <- (if py_truthy ma50
                      then (v <- py_get ma50 "value" (JStr EmptyString) ;;
                            Ok [("50-day MA: " ++ fmt v)%string])
                      else Ok []) ;;
              l200 <- (if py_truthy ma200
                       then (v <- py_get ma200 "value" (JStr EmptyString) ;;
                             Ok [("200-day MA: " ++ fmt v)%string])
                       else Ok []) ;;
              cross <- sub_part ma "crossover"
                         (fun crossover =>
                            ty <- py_get crossover "type" (JStr EmptyString) ;;
                            d <- py_get crossover "date" (JStr EmptyString) ;;
                            Ok ("Crossover: " ++ fmt ty ++ " (" ++ fmt d
                                ++ ")")%string) ;;
              Ok (l50 ++ l200 ++ cross)
            else Ok []) ;;
    vol <- sub_part ta "volatility"
             (fun vol =>
                a <- py_get vol "annualised" (JStr EmptyString) ;;
                Ok ("Annualised volatility: " ++ fmt a ++ "%")%string) ;;
    Ok [passage_of ticker "technical" "analysis"
          (str_join nl (parts ++ price ++ mas ++ vol))
          ["technical"; "price"; "chart"] (8 / 10)]
  else Ok [].

(** Reference data. *)
Definition field_labels : list (string * string) :=
  [ ("sharesOutstanding", "Shares outstanding (M)");
    ("analystTarget", "Analyst target price");
    ("epsTrailing", "Trailing EPS");
    ("epsForward", "Forward EPS");
    ("divPerShare", "Dividend per share");
    ("revenue", "Revenue ($B)");
    ("revenueGrowth", "Revenue growth (%)");
    ("ebitMargin", "EBIT margin (%)");
    ("ebitdaMargin", "EBITDA margin (%)");
    ("roe", "Return on equity (%)");
    ("netDebtToEbitda", "Net debt/EBITDA");
    ("fcf", "Free cash flow ($B)");
    ("fcfMargin", "FCF margin (%)") ].

Definition is_none (v : json) : bool :=
  match v with
  | JNull => true
  | _ => false
  end.

Definition chunk_reference (ticker : string) (ref : json)
  : Result (list Passage) :=
  if py_truthy ref then
    fields <- mapR (fun kl =>
                      val <- py_get ref (fst kl) JNull ;;
                      if is_none val then Ok []
                      else Ok [("  " ++ snd kl ++ ": " ++ fmt val)%string])
                   field_labels ;;
    buys <- py_get ref "analystBuys" JNull ;;
    consensus <- (if is_none buys then Ok []
                  else (b <- py_get ref "analystBuys" (JInt 0) ;;
                        h <- py_get ref "analystHolds" (JInt 0) ;;
                        s <- py_get ref "analystSells" (JInt 0) ;;
                        Ok [("  Analyst consensus: " ++ fmt b ++ " Buy, "
                             ++ fmt h ++ " Hold, " ++ fmt s
                             ++ " Sell")%string])) ;;
    Ok [passage_of ticker "reference" "fundamentals"
          (str_join nl (("Reference data for " ++ ticker ++ ":")%string
                        :: List.concat fields ++ consensus))
          ["reference"; "fundamentals"; "financials"] (7 / 10)]
  else Ok [].

(** Freshness data. *)
Definition chunk_freshness (ticker : string) (fresh : json)
  : Result (list Passage) :=
  if py_truthy fresh then
    review <- py_get fresh "reviewDate" (JStr "unknown") ;;
    days <- py_get fresh "daysSinceReview" (JStr "?") ;;
    price <- py_get fresh "priceAtReview" (JStr "?") ;;
    change <- py_get fresh "pricePctChange" (JStr "?") ;;
    catalyst <- py_get fresh "nearestCatalyst" (JStr "none") ;;
    cdays <- py_get fresh "nearestCatalystDays" (JStr "?") ;;
    status <- py_get fresh "status" (JStr "unknown") ;;
    Ok [passage_of ticker "freshness" "status"
          ("Research freshness for " ++ ticker ++ ": "
           ++ "Last reviewed " ++ fmt review ++ " "
           ++ "(" ++ fmt days ++ " days ago). "
           ++ "Price at review: " ++ fmt price ++ ", "
           ++ "change since: " ++ fmt change ++ "%. "
           ++ "Nearest catalyst: " ++ fmt catalyst ++ " "
           ++ "(" ++ fmt cdays ++ " days). "
           ++ "Status: " ++ fmt status ++ ".")%string
          ["freshness"; "status"] (5 / 10)]
  else Ok [].

(** [_chunk_stock(ticker, data, ref, fresh)]: the attributes of the
    passages it returns, in order.  [ref] and [fresh] are [JNull] for
    [None]. *)
Definition _chunk_stock (ticker : string) (data ref fresh : json)
  : Result (list Passage) :=
  overview <- chunk_overview ticker data ;;
  metrics <- chunk_metrics ticker data ;;
  identity <- chunk_identity ticker data ;;
  skew <- chunk_skew ticker data ;;
  verdict <- chunk_verdict ticker data ;;
  hypotheses <- chunk_hypotheses ticker data ;;
  narrative <- chunk_narrative ticker data ;;
  evidence <- py_get data "evidence" (JObj []) ;;
  cards <- chunk_cards ticker evidence ;;
  alignment <- chunk_alignment ticker evidence ;;
  discriminators <- chunk_discriminators ticker data ;;
  tripwires <- chunk_tripwires ticker data ;;
  gaps <- chunk_gaps ticker data ;;
  technical <- chunk_technical ticker data ;;
  reference <- chunk_reference ticker ref ;;
  freshness <- chunk_freshness ticker fresh ;;
  Ok (overview ++ metrics ++ identity ++ skew ++ verdict ++ hypotheses
      ++ narrative ++ cards ++ alignment ++ discriminators ++ tripwires
      ++ gaps ++ technical ++ reference ++ freshness).


(* ------------------------------------------------------------------ *)
(** * Public API of the ingestion module *)
(* ------------------------------------------------------------------ *)

(** Assignment to the globals [_store] and [_all_passages]. *)
Definition set_store (store : list (string * list loc)) (all : list loc)
  : M unit :=
  fun st => (Ok tt, mkState (heap st) store all).

Fixpoint forM_ {A} (f : A -> M unit) (l : list A) : M unit :=
  match l with
  | [] => ret tt
  | x :: r => (_ <- f x ;; forM_ f r)%monad
  end.

(** The body of the loop of [ingest] for one item of [stocks].  The
    Passage objects are allocated when [_chunk_stock] has computed their
    attributes; objects the source allocates before an exception are
    unreachable and are left out. *)
Definition ingest_stock (ref_data fresh_data : json) (td : string * json)
  : M unit :=
  (let ticker := fst td in
   let data := snd td in
   ref <- lift (py_get ref_data ticker JNull) ;;
   fresh <- lift (py_get fresh_data ticker JNull) ;;
   values <- lift (_chunk_stock ticker data ref fresh) ;;
   passages <- mapM new_Passage values ;;
   st <- get_state ;;
   set_store (dict_set (_store st) ticker passages)
             (_all_passages st ++ passages))%monad.

(** [ingest(html_path)], given the text [html] read from the file. *)
Definition ingest (html : string) : M (list (string * list loc)) :=
  (let stocks := _extract_js_objects html in
   let ref_data := _extract_reference_data html in
   let fresh_data := _extract_freshness_data html in
   _ <- set_store [] [] ;;
   _ <- forM_ (ingest_stock ref_data fresh_data) stocks ;;
   st <- get_state ;;
   ret (_store st))%monad.

End Ingestion.

(** [sorted(l)] where the elements are ordered by the string [key] gives
    for them (strings themselves, or items with distinct string keys). *)
Fixpoint insert_on {A} (key : A -> string) (x : A) (l : list A) : list A :=
  match l with
  | [] => [x]
  | y :: r =>
      if String.ltb (key y) (key x) then y :: insert_on key x r
      else x :: y :: r
  end.

Definition sorted_on {A} (key : A -> string) (l : list A) : list A :=
  fold_right (insert_on key) [] l.

(** [get_tickers()]. *)
Definition get_tickers (st : State) : list string :=
  sorted_on (fun t => t) (map fst (_store st)).

(** [get_passage_count()]. *)
Definition get_passage_count (st : State) : list (string * nat) :=
  map (fun tp => (fst tp, List.length (snd tp)))
      (sorted_on fst (_store st)).

(* ------------------------------------------------------------------ *)
(** * Notions used to state the properties of the ingestion code *)
(* ------------------------------------------------------------------ *)

(** The weights and the sections the chunker assigns. *)
Definition chunk_weights : list R :=
  [ 5 / 10; 6 / 10; 7 / 10; 8 / 10; 9 / 10; 1; 11 / 10; 12 / 10; 13 / 10 ]%R.

Definition chunk_sections : list string :=
  [ "overview"; "identity"; "verdict"; "hypothesis"; "narrative";
    "evidence"; "discriminator"; "tripwire"; "gaps"; "technical";
    "reference"; "freshness" ].

(** A passage as the chunker makes it for the ticker [tk]. *)
Definition chunked (tk : string) (p : Passage) : Prop :=
  ticker p = tk /\ In (weight p) chunk_weights /\
  In (section p) chunk_sections.

(** The exceptions the chunker can raise: on data of an unexpected
    type. *)
Definition chunk_exn (e : exn) : Prop :=
  e = AttributeError \/ e = TypeError \/ e = KeyError.

(** [r] returns a value that satisfies [Q], or raises one of the
    chunker's exceptions. *)
Definition wp {A} (r : Result A) (Q : A -> Prop) : Prop :=
  match r with
  | Ok a => Q a
  | Err e => chunk_exn e
  end.

(** A ticker symbol: two to five upper-case letters. *)
Definition ticker_shape (t : string) : bool :=
  (2 <=? String.length t)%nat && (String.length t <=? 5)%nat
  && str_forall is_upper t.

(** The state of the store behind [ingest]: every reference points into
    the heap, [_all_passages] lists the passages of the tickers in store
    order, the tickers are distinct symbols, and every passage is as the
    chunker makes it for its ticker. *)
Definition ingest_inv (st : State) : Prop :=
  store_wf st = true /\
  _all_passages st = List.concat (map snd (_store st)) /\
  NoDup (map fst (_store st)) /\
  Forall (fun kv =>
            ticker_shape (fst kv) = true /\
            Forall (fun l => chunked (fst kv) (deref (heap st) l)) (snd kv))
         (_store st).

(** A document with one ticker object, for the ticker symbol [sym]. *)
Definition acme_block : string :=
  "{company:'Acme Corp', sector:'Industrials'}".

Definition acme_html (sym : string) : string :=
  ("STOCK_DATA." ++ sym ++ " = " ++ acme_block)%string.

(** The value [json.loads] gives for the normalised block. *)
Definition acme_data : json :=
  JObj [("company", JStr "Acme Corp"); ("sector", JStr "Industrials")].

(** The passage made from it. *)
Definition acme_passage (sym : string) : Passage :=
  passage_of sym "overview" "company_description"
    ("Acme Corp (ASX: " ++ sym ++ ")" ++ nl ++ "Sector: Industrials")%string
    ["overview"; "fundamentals"] 1.

(* ------------------------------------------------------------------ *)
(** * A corpus with two relevance scores that round to the same value *)
(* ------------------------------------------------------------------ *)

(** Two passages of one ticker with the sections, subsections, tags and
    weights the chunker gives to the non-discriminating evidence and to
    the technical analysis; the first is emitted before the second. *)
Definition tie_first : Passage :=
  mkPassage "WOW" "discriminator" (JStr "non_discriminating")
            "volume noise volume trend flat signal"
            [JStr "discriminator"; JStr "noise"] (6 / 10)%R.

Definition tie_second : Passage :=
  mkPassage "WOW" "technical" (JStr "analysis")
            "price volume trend support level"
            [JStr "technical"; JStr "price"; JStr "chart"] (8 / 10)%R.

Definition tie_state : State :=
  mkState [tie_first; tie_second] [("WOW", [0; 1])%nat] [0; 1]%nat.

(* ================================================================== *)
(** * Properties *)
(* ================================================================== *)

(** ** Object Extractor: the balance invariant *)

Module ExtractorFacts.
Import Extractor.

(** Unfolding equations of the scanning loop and of the brace counter,
    one per path through the loop body. *)

Lemma scan_escape ch c2 rest depth q :
  Ascii.eqb ch ch_bslash = true ->
  scan (String ch (String c2 rest)) depth true q
  = option_map (fun n => S (S n)) (scan rest depth true q).
Proof. intros H. cbn [scan]. rewrite H. reflexivity. Qed.

Lemma scan_in_string ch rest depth q :
  Ascii.eqb ch ch_bslash = false \/ rest = EmptyString ->
  scan (String ch rest) depth true q
  = option_map S (scan rest depth (negb (String.eqb (str1 ch) q)) q).
Proof.
  intros H. cbn [scan].
  destruct (Ascii.eqb ch ch_bslash) eqn:Hb.
  - destruct H as [H|H]; [discriminate|]. subst rest.
    destruct (String.eqb (str1 ch) q); reflexivity.
  - destruct (String.eqb (str1 ch) q); reflexivity.
Qed.

Lemma count_escape c ch c2 rest q :
  Ascii.eqb ch ch_bslash = true ->
  count_unescaped_from c (String ch (String c2 rest)) true q
  = count_unescaped_from c rest true q.
Proof. intros H. cbn [count_unescaped_from]. rewrite H. reflexivity. Qed.

Lemma count_in_string c ch rest q :
  Ascii.eqb ch ch_bslash = false \/ rest = EmptyString ->
  count_unescaped_from c (String ch rest) true q
  = count_unescaped_from c rest (negb (String.eqb (str1 ch) q)) q.
Proof.
  intros H. cbn [count_unescaped_from].
  destruct (Ascii.eqb ch ch_bslash) eqn:Hb.
  - destruct H as [H|H]; [discriminate|]. subst rest. reflexivity.
  - destruct rest; reflexivity.
Qed.

Lemma count_outside c ch rest q :
  count_unescaped_from c (String ch rest) false q
  = if Ascii.eqb ch ch_squote || Ascii.eqb ch ch_dquote
    then count_unescaped_from c rest true (str1 ch)
    else ((if Ascii.eqb ch c then 1 else 0)
          + count_unescaped_from c rest false q)%nat.
Proof. reflexivity. Qed.

Lemma str_last_take_S n ch rest :
  (1 <= n)%nat ->
  str_last (str_take n rest) = Some ch_rbrace ->
  str_last (str_take (S n) (String ch rest)) = Some ch_rbrace.
Proof.
  intros Hn H. destruct n as [|n]; [lia|].
  destruct rest as [|c r]; [discriminate|]. exact H.
Qed.

(** Invariant of the scanning loop: when the loop returns after consuming
    [n] characters, those characters end with a closing brace, and the
    braces outside string literals among them bring [depth] back to 0. *)
Lemma scan_balanced (fuel : nat) :
  forall s depth in_string string_char n,
    (String.length s <= fuel)%nat ->
    scan s depth in_string string_char = Some n ->
    (1 <= n)%nat /\
    str_last (str_take n s) = Some ch_rbrace /\
    (depth + Z.of_nat (count_unescaped_from ch_lbrace (str_take n s)
                         in_string string_char)
     = Z.of_nat (count_unescaped_from ch_rbrace (str_take n s)
                   in_string string_char))%Z.
Proof.
  induction fuel as [|fuel IH]; intros s depth ins q n Hlen Hscan.
  - destruct s; simpl in *; [discriminate | lia].
  - destruct s as [|ch rest]; [discriminate|].
    simpl in Hlen.
    (* every path but the closing one continues with a recursive call *)
    assert (Hcont : forall s' d' i' q' (f : nat -> nat),
               (String.length s' <= fuel)%nat ->
               option_map f (scan s' d' i' q') = Some n ->
               exists m, n = f m /\ (1 <= m)%nat /\
                 str_last (str_take m s') = Some ch_rbrace /\
                 (d' + Z.of_nat (count_unescaped_from ch_lbrace
                                   (str_take m s') i' q')
                  = Z.of_nat (count_unescaped_from ch_rbrace
                                (str_take m s') i' q'))%Z).
    { intros s' d' i' q' f Hl Hs.
      destruct (scan s' d' i' q') as [m|] eqn:Hm; [|discriminate].
      injection Hs as <-. exists m. split; [reflexivity|].
      destruct (IH _ _ _ _ _ Hl Hm) as (A & B & C). auto. }
    destruct ins.
    + destruct (Ascii.eqb ch ch_bslash) eqn:Hbs.
      * destruct rest as [|c2 rest'].
        -- rewrite scan_in_string in Hscan by auto. discriminate.
        -- rewrite scan_escape in Hscan by assumption.
           apply Hcont in Hscan; [|simpl in Hlen; lia].
           destruct Hscan as (m & -> & Hm1 & Hm2 & Hm3).
           split; [lia|]. split.
           ++ apply str_last_take_S; [lia|]. apply str_last_take_S; assumption.
           ++ cbn [str_take]. rewrite !count_escape by assumption. exact Hm3.
      * rewrite scan_in_string in Hscan by auto.
        apply Hcont in Hscan; [|lia].
        destruct Hscan as (m & -> & Hm1 & Hm2 & Hm3).
        split; [lia|]. split.
        -- apply str_last_take_S; assumption.
        -- cbn [str_take]. rewrite !count_in_string by auto. exact Hm3.
    + cbn [scan] in Hscan.
      destruct (Ascii.eqb ch ch_squote || Ascii.eqb ch ch_dquote) eqn:Hquote.
      * apply Hcont in Hscan; [|lia].
        destruct Hscan as (m & -> & Hm1 & Hm2 & Hm3).
        split; [lia|]. split.
        -- apply str_last_take_S; assumption.
        -- cbn [str_take]. rewrite !count_outside, Hquote. exact Hm3.
      * destruct (Ascii.eqb ch ch_lbrace) eqn:Hl.
        -- apply Hcont in Hscan; [|lia].
           destruct Hscan as (m & -> & Hm1 & Hm2 & Hm3).
           split; [lia|]. split.
           ++ apply str_last_take_S; assumption.
           ++ cbn [str_take]. rewrite !count_outside, Hquote, Hl.
              apply Ascii.eqb_eq in Hl. subst ch.
              change (Ascii.eqb ch_lbrace ch_rbrace) with false. cbv iota. lia.
        -- destruct (Ascii.eqb ch ch_rbrace) eqn:Hr.
           ++ destruct (Z.eqb (depth - 1) 0) eqn:Hd.
              ** injection Hscan as <-. apply Z.eqb_eq in Hd.
                 apply Ascii.eqb_eq in Hr. subst ch.
                 split; [lia|]. split; [reflexivity|].
                 cbn. lia.
              ** apply Hcont in Hscan; [|lia].
                 destruct Hscan as (m & -> & Hm1 & Hm2 & Hm3).
                 split; [lia|]. split.
                 --- apply str_last_take_S; assumption.
                 --- cbn [str_take]. rewrite !count_outside, Hquote, Hl, Hr.
                     cbv iota. lia.
           ++ apply Hcont in Hscan; [|lia].
              destruct Hscan as (m & -> & Hm1 & Hm2 & Hm3).
              split; [lia|]. split.
              ** apply str_last_take_S; assumption.
              ** cbn [str_take]. rewrite !count_outside, Hquote, Hl, Hr.
                 exact Hm3.
Qed.

(** C6.  Balance invariant of the Object Extractor: whatever the document
    text and the starting offset, a non-empty result of
    [_extract_balanced_braces] starts with an opening brace, ends with a
    closing brace, and contains as many unescaped opening braces as
    unescaped closing braces (unescaped: outside string literals, where a
    backslash inside a literal escapes the next character). *)
Theorem extract_balanced_braces_balanced (text : string) (start : nat) :
  let r := _extract_balanced_braces text start in
  r <> EmptyString ->
  str_head r = Some ch_lbrace /\
  str_last r = Some ch_rbrace /\
  count_unescaped ch_lbrace r = count_unescaped ch_rbrace r.
Proof.
  unfold _extract_balanced_braces, count_unescaped.
  destruct (str_drop start text) as [|c suffix] eqn:Hdrop; cbv zeta;
    [congruence|].
  destruct (Ascii.eqb c ch_lbrace) eqn:Hc; cbn [negb]; [|congruence].
  destruct (scan (String c suffix) 0 false EmptyString) as [n|] eqn:Hscan;
    [|congruence].
  intros _.
  destruct (scan_balanced _ _ _ _ _ _ (le_n _) Hscan) as (Hn & Hlast & Hcnt).
  split; [|split].
  - destruct n as [|n]; [lia|]. apply Ascii.eqb_eq in Hc. subst c. reflexivity.
  - exact Hlast.
  - lia.
Qed.

(** The theorem applied to a block with nested braces, a quoted closing
    brace and trailing text. *)
Lemma extract_balanced_braces_balanced_witness :
  _extract_balanced_braces "x = {a:{b:'}'}, c:1}; y" 4 = "{a:{b:'}'}, c:1}" /\
  str_head (_extract_balanced_braces "x = {a:{b:'}'}, c:1}; y" 4)
    = Some ch_lbrace /\
  str_last (_extract_balanced_braces "x = {a:{b:'}'}, c:1}; y" 4)
    = Some ch_rbrace /\
  count_unescaped ch_lbrace (_extract_balanced_braces "x = {a:{b:'}'}, c:1}; y" 4)
  = count_unescaped ch_rbrace (_extract_balanced_braces "x = {a:{b:'}'}, c:1}; y" 4).
Proof.
  split; [reflexivity|].
  apply (extract_balanced_braces_balanced "x = {a:{b:'}'}, c:1}; y" 4).
  vm_compute. discriminate.
Defined.

(** Counting every brace character, quoted or not, is a different measure:
    a quoted brace makes the raw counts differ. *)
Example raw_brace_counts_may_differ :
  _extract_balanced_braces "{a:'}'}" 0 = "{a:'}'}".
Proof. reflexivity. Qed.

End ExtractorFacts.

(** ** The stable sort *)

Module SortFacts.

Section Sorting.
Context {A : Type} (key : A -> R).

Lemma insert_by_perm (x : A) (l : list A) :
  Permutation (insert_by key x l) (x :: l).
Proof.
  induction l as [|y r IH]; cbn [insert_by]; [reflexivity|].
  destruct (Rltb (key y) (key x)); [|reflexivity].
  rewrite IH. apply perm_swap.
Qed.

Lemma sort_by_perm (l : list A) : Permutation (sort_by key l) l.
Proof.
  induction l as [|x r IH]; cbn; [constructor|].
  change (fold_right (insert_by key) [] r) with (sort_by key r).
  rewrite insert_by_perm. constructor. exact IH.
Qed.

Lemma sort_by_length (l : list A) :
  List.length (sort_by key l) = List.length l.
Proof. apply Permutation_length, sort_by_perm. Qed.

(** The output is ascending in the key. *)
Lemma insert_by_sorted (x : A) (l : list A) :
  StronglySorted (fun a c => (key a <= key c)%R) l ->
  StronglySorted (fun a c => (key a <= key c)%R) (insert_by key x l).
Proof.
  induction l as [|y r IH]; intros Hs; cbn [insert_by].
  - repeat constructor.
  - inversion Hs as [|? ? Hr Hy]; subst.
    unfold Rltb. destruct (Rlt_dec (key y) (key x)) as [Hlt|Hge].
    + constructor; [apply IH; assumption|].
      eapply Permutation_Forall; [symmetry; apply insert_by_perm|].
      constructor; [lra | assumption].
    + constructor; [assumption|].
      constructor; [lra|].
      eapply Forall_impl; [|exact Hy]. cbn. intros; lra.
Qed.

Lemma sort_by_sorted (l : list A) :
  StronglySorted (fun a c => (key a <= key c)%R) (sort_by key l).
Proof.
  induction l as [|x r IH]; cbn; [constructor|].
  apply insert_by_sorted. exact IH.
Qed.

End Sorting.

Lemma insert_by_map {A B} (key : B -> R) (g : A -> B) (x : A) (l : list A) :
  insert_by key (g x) (map g l)
  = map g (insert_by (fun a => key (g a)) x l).
Proof.
  induction l as [|y r IH]; cbn [insert_by map]; [reflexivity|].
  destruct (Rltb (key (g y)) (key (g x))); cbn [map]; [|reflexivity].
  rewrite IH. reflexivity.
Qed.

Lemma sort_by_map {A B} (key : B -> R) (g : A -> B) (l : list A) :
  sort_by key (map g l) = map g (sort_by (fun a => key (g a)) l).
Proof.
  induction l as [|x r IH]; cbn; [reflexivity|].
  change (fold_right (insert_by key) [] (map g r))
    with (sort_by key (map g r)).
  rewrite IH. apply insert_by_map.
Qed.

Lemma insert_by_ext {A} (k k' : A -> R) (x : A) (l : list A) :
  k x = k' x -> (forall y, In y l -> k y = k' y) ->
  insert_by k x l = insert_by k' x l.
Proof.
  intros Hx. induction l as [|y t IH]; intros H; cbn [insert_by];
    [reflexivity|].
  rewrite <- Hx, <- (H y) by (left; reflexivity).
  destruct (Rltb (k y) (k x)); [|reflexivity].
  f_equal. apply IH. intros; apply H; right; assumption.
Qed.

Lemma sort_by_ext {A} (k k' : A -> R) (l : list A) :
  (forall x, In x l -> k x = k' x) -> sort_by k l = sort_by k' l.
Proof.
  induction l as [|x r IH]; intros H; cbn; [reflexivity|].
  change (fold_right (insert_by k) [] r) with (sort_by k r).
  change (fold_right (insert_by k') [] r) with (sort_by k' r).
  rewrite <- IH by (intros; apply H; right; assumption).
  apply insert_by_ext; [apply H; left; reflexivity|].
  intros y Hy. apply H. right.
  eapply Permutation_in; [apply sort_by_perm | exact Hy].
Qed.

(** Sorting positions: ties keep the smaller position in front. *)
Section Positions.
Variable key : nat -> R.

Lemma insert_by_lex (x : nat) (l : list nat) :
  StronglySorted (lex key) l -> Forall (lt x) l ->
  StronglySorted (lex key) (insert_by key x l).
Proof.
  induction l as [|y r IH]; intros Hs Hx; cbn [insert_by].
  - repeat constructor.
  - inversion Hs as [|? ? Hr Hy]; subst.
    inversion Hx as [|? ? Hxy Hxr]; subst.
    unfold Rltb. destruct (Rlt_dec (key y) (key x)) as [Hlt|Hge].
    + constructor; [apply IH; assumption|].
      eapply Permutation_Forall; [symmetry; apply insert_by_perm|].
      constructor; [left; assumption | assumption].
    + constructor; [assumption|].
      constructor.
      * destruct (Rlt_dec (key x) (key y)); [left; assumption|].
        right; split; [lra | assumption].
      * rewrite Forall_forall in *. intros z Hz.
        specialize (Hy z Hz). specialize (Hxr z Hz).
        destruct Hy as [Hy | [Hy Hyz]].
        -- left; lra.
        -- destruct (Rlt_dec (key x) (key z)); [left; assumption|].
           right; split; [lra | assumption].
Qed.

Lemma sort_by_lex (l : list nat) :
  StronglySorted lt l -> StronglySorted (lex key) (sort_by key l).
Proof.
  induction l as [|x r IH]; intros Hs; cbn; [constructor|].
  inversion Hs as [|? ? Hr Hx]; subst.
  apply insert_by_lex; [apply IH; assumption|].
  eapply Permutation_Forall; [symmetry; apply sort_by_perm | exact Hx].
Qed.

Lemma lex_asym (i j : nat) : lex key i j -> lex key j i -> False.
Proof. unfold lex. intros [H|[H H']] [G|[G G']]; try lra; lia. Qed.

End Positions.

Lemma seq_sorted (n start : nat) : StronglySorted lt (seq start n).
Proof.
  revert start. induction n as [|n IH]; intros start; cbn; constructor.
  - apply IH.
  - rewrite Forall_forall. intros x Hx. apply in_seq in Hx. lia.
Qed.

(** Facts about [before]. *)

Lemma before_sorted {A} (R : A -> A -> Prop) (x y : A) (l : list A) :
  StronglySorted R l -> before x y l -> R x y.
Proof.
  intros Hs (l1 & l2 & l3 & ->).
  induction l1 as [|a l1 IH]; cbn in Hs.
  - inversion Hs as [|? ? _ Hf]; subst.
    rewrite Forall_forall in Hf. apply Hf.
    apply in_or_app. right. left. reflexivity.
  - inversion Hs; subst. apply IH. assumption.
Qed.

Lemma before_total {A} (x y : A) (l : list A) :
  In x l -> In y l -> x <> y -> before x y l \/ before y x l.
Proof.
  intros Hx Hy Hne.
  apply in_split in Hx. destruct Hx as (l1 & l2 & ->).
  apply in_app_or in Hy. destruct Hy as [Hy | [Hy | Hy]].
  - right. apply in_split in Hy. destruct Hy as (a & c & ->).
    exists a, c, l2. rewrite <- app_assoc. reflexivity.
  - congruence.
  - left. apply in_split in Hy. destruct Hy as (a & c & ->).
    exists l1, a, c. reflexivity.
Qed.

Lemma before_firstn {A} (x y : A) (l : list A) (n : nat) :
  before x y (firstn n l) -> before x y l.
Proof.
  intros (l1 & l2 & l3 & H).
  exists l1, l2, (l3 ++ skipn n l).
  rewrite <- (firstn_skipn n l) at 1. rewrite H.
  rewrite <- !app_assoc. cbn. rewrite <- !app_assoc. reflexivity.
Qed.

Lemma sorted_weaken {A} (P Q : A -> A -> Prop) (l : list A) :
  (forall x y, P x y -> Q x y) -> StronglySorted P l -> StronglySorted Q l.
Proof.
  intros HPQ. induction 1 as [|x r Hs IH Hf]; constructor; [exact IH|].
  eapply Forall_impl; [|exact Hf]. intros y. apply HPQ.
Qed.

(** The ranking of a score list. *)

Lemma ranking_perm (s : list R) :
  Permutation (ranking s) (seq 0 (List.length s)).
Proof. apply sort_by_perm. Qed.

Lemma ranking_length (s : list R) :
  List.length (ranking s) = List.length s.
Proof.
  rewrite (Permutation_length (ranking_perm s)). apply length_seq.
Qed.

Lemma ranking_sorted (s : list R) : StronglySorted (outranks s) (ranking s).
Proof.
  unfold ranking.
  eapply sorted_weaken.
  2: { apply sort_by_lex, seq_sorted. }
  intros i j. unfold lex, outranks. cbn beta. intros [H|[H H']].
  - left; lra.
  - right; split; [lra | assumption].
Qed.

Lemma outranks_asym (s : list R) (i j : nat) :
  outranks s i j -> outranks s j i -> False.
Proof. unfold outranks. intros [H|[H H']] [G|[G G']]; try lra; lia. Qed.

(** In the ranking, [i] is in front of [j] exactly when it outranks
    [j]. *)
Lemma before_ranking (s : list R) (i j : nat) :
  (i < List.length s)%nat -> (j < List.length s)%nat -> i <> j ->
  (before i j (ranking s) <-> outranks s i j).
Proof.
  intros Hi Hj Hne. split.
  - apply before_sorted, ranking_sorted.
  - intros Hout.
    destruct (before_total i j (ranking s)) as [H|H]; auto.
    + eapply Permutation_in; [symmetry; apply ranking_perm|].
      apply in_seq. lia.
    + eapply Permutation_in; [symmetry; apply ranking_perm|].
      apply in_seq. lia.
    + exfalso. eapply outranks_asym; [exact Hout|].
      eapply before_sorted; [apply ranking_sorted | exact H].
Qed.

(** With all scores equal the ranking is the candidate order. *)
Lemma sort_by_const {A} (key : A -> R) (l : list A) (c : R) :
  (forall x, In x l -> key x = c) -> sort_by key l = l.
Proof.
  induction l as [|x r IH]; intros H; cbn; [reflexivity|].
  change (fold_right (insert_by key) [] r) with (sort_by key r).
  rewrite IH by (intros; apply H; right; assumption).
  destruct r as [|y t]; cbn [insert_by]; [reflexivity|].
  unfold Rltb. rewrite (H x), (H y) by (cbn; auto).
  destruct (Rlt_dec c c); [lra | reflexivity].
Qed.

End SortFacts.

(** ** The heap: allocation only extends it *)

Module HeapFacts.

Lemma extends_refl st : extends st st.
Proof.
  split; [exists []; symmetry; apply app_nil_r | split; reflexivity].
Qed.

Lemma extends_trans st1 st2 st3 :
  extends st1 st2 -> extends st2 st3 -> extends st1 st3.
Proof.
  intros ((n1 & H1) & S1 & A1) ((n2 & H2) & S2 & A2).
  split; [|split; congruence].
  exists (n1 ++ n2). rewrite H2, H1, app_assoc. reflexivity.
Qed.

Lemma extends_length st st' :
  extends st st' -> (List.length (heap st) <= List.length (heap st'))%nat.
Proof. intros ((n & H) & _). rewrite H, length_app. lia. Qed.

Lemma extends_deref st st' l :
  extends st st' -> (l < List.length (heap st))%nat ->
  deref (heap st') l = deref (heap st) l.
Proof.
  intros ((n & H) & _) Hl. unfold deref. rewrite H.
  apply app_nth1. exact Hl.
Qed.

Lemma extends_lookup st st' l :
  extends st st' -> (l < List.length (heap st))%nat ->
  nth_error (heap st') l = nth_error (heap st) l.
Proof.
  intros ((n & H) & _) Hl. rewrite H. apply nth_error_app1. exact Hl.
Qed.

Lemma new_Passage_spec p st :
  exists st', new_Passage p st = (Ok (List.length (heap st)), st') /\
              extends st st' /\
              deref (heap st') (List.length (heap st)) = p /\
              List.length (heap st') = S (List.length (heap st)).
Proof.
  eexists. split; [reflexivity|]. cbn. split; [|split].
  - split; [exists [p]; reflexivity | split; reflexivity].
  - unfold deref. rewrite app_nth2 by lia. rewrite Nat.sub_diag. reflexivity.
  - rewrite length_app. cbn. lia.
Qed.

(** A boosting loop never fails; it only allocates. *)
Lemma boost_loop_extends test factor ps :
  forall st, exists ps' st',
    boost_loop test factor ps st = (Ok ps', st') /\ extends st st' /\
    List.length ps' = List.length ps.
Proof.
  unfold boost_loop.
  induction ps as [|l r IH]; intros st; cbn [mapM].
  - exists [], st. split; [reflexivity|]. split; [apply extends_refl|reflexivity].
  - unfold bind at 1. unfold bind at 1. unfold read at 1.
    destruct (test (deref (heap st) l)).
    + destruct (new_Passage_spec (scaled (deref (heap st) l) factor) st)
        as (st1 & -> & Hext & _).
      unfold bind at 1.
      destruct (IH st1) as (ps' & st' & -> & Hext' & Hlen).
      eexists _, st'. split; [reflexivity|]. split.
      * eapply extends_trans; eassumption.
      * cbn. congruence.
    + unfold ret at 1. unfold bind at 1.
      destruct (IH st) as (ps' & st' & -> & Hext' & Hlen).
      eexists _, st'. split; [reflexivity|]. split; [assumption|].
      cbn. congruence.
Qed.

(** On valid references the loop hands on the boosted attributes, in
    candidate order. *)
Lemma boost_loop_values test factor ps :
  forall st,
    Forall (fun l => (l < List.length (heap st))%nat) ps ->
    exists ps' st',
      boost_loop test factor ps st = (Ok ps', st') /\ extends st st' /\
      Forall (fun l => (l < List.length (heap st'))%nat) ps' /\
      map (deref (heap st')) ps'
      = map (fun l => boost test factor (deref (heap st) l)) ps.
Proof.
  unfold boost_loop.
  induction ps as [|l r IH]; intros st Hwf; cbn [mapM].
  - exists [], st. split; [reflexivity|]. split; [apply extends_refl|].
    split; [constructor | reflexivity].
  - inversion Hwf as [|? ? Hl Hr]; subst.
    unfold bind at 1. unfold bind at 1. unfold read at 1.
    destruct (test (deref (heap st) l)) eqn:Ht.
    + destruct (new_Passage_spec (scaled (deref (heap st) l) factor) st)
        as (st1 & -> & Hext & Hval & Hlen1).
      unfold bind at 1.
      destruct (IH st1) as (ps' & st' & -> & Hext' & Hwf' & Hmap).
      { eapply Forall_impl; [|exact Hr]. cbn. intros; lia. }
      eexists _, st'. split; [reflexivity|]. split.
      { eapply extends_trans; eassumption. }
      split.
      * constructor; [|assumption].
        pose proof (extends_length _ _ Hext'). lia.
      * cbn [map]. f_equal.
        -- rewrite (extends_deref st1 st') by (assumption || lia).
           unfold boost. rewrite Ht. exact Hval.
        -- rewrite Hmap. apply map_ext_in. intros a Ha.
           rewrite Forall_forall in Hr.
           rewrite (extends_deref st st1) by auto. reflexivity.
    + unfold ret at 1. unfold bind at 1.
      destruct (IH st) as (ps' & st' & -> & Hext' & Hwf' & Hmap);
        [assumption|].
      eexists _, st'. split; [reflexivity|]. split; [assumption|].
      split.
      * constructor; [|assumption].
        pose proof (extends_length _ _ Hext'). lia.
      * cbn [map]. f_equal; [|exact Hmap].
        unfold boost. rewrite Ht. apply extends_deref; assumption.
Qed.

End HeapFacts.

(** ** Retrieval: the stateful code and its value-level view *)

Module RetrieveFacts.
Import HeapFacts.

Lemma filter_by_alignment_extends ps alignment :
  forall st, exists ps' st',
    _filter_by_alignment ps alignment st = (Ok ps', st') /\ extends st st' /\
    List.length ps' = List.length ps.
Proof.
  intros st. unfold _filter_by_alignment.
  assert (Hret : exists ps' st',
             ret ps st = (Ok ps', st') /\ extends st st' /\
             List.length ps' = List.length ps).
  { exists ps, st. split; [reflexivity|]. split; [apply extends_refl|reflexivity]. }
  destruct alignment as [a|]; [|exact Hret].
  destruct (negb (str_truthy (Some a))); [exact Hret|].
  destruct (str_mem (strip (lower a)) ["t1"; "t2"; "t3"; "t4"]).
  - apply boost_loop_extends.
  - destruct (str_mem _ ["upside"; "downside"; "neutral"]); [|exact Hret].
    apply boost_loop_extends.
Qed.

Lemma filter_by_alignment_values ps alignment :
  forall st,
    Forall (fun l => (l < List.length (heap st))%nat) ps ->
    exists ps' st',
      _filter_by_alignment ps alignment st = (Ok ps', st') /\
      extends st st' /\
      Forall (fun l => (l < List.length (heap st'))%nat) ps' /\
      map (deref (heap st')) ps'
      = map (fun l => align_boost alignment (deref (heap st) l)) ps.
Proof.
  intros st Hwf. unfold _filter_by_alignment, align_boost.
  assert (Hret : exists ps' st',
             ret ps st = (Ok ps', st') /\ extends st st' /\
             Forall (fun l => (l < List.length (heap st'))%nat) ps' /\
             map (deref (heap st')) ps' = map (fun l => deref (heap st) l) ps).
  { exists ps, st. split; [reflexivity|]. split; [apply extends_refl|].
    split; [assumption | reflexivity]. }
  destruct alignment as [a|]; [|exact Hret].
  destruct (negb (str_truthy (Some a))); [exact Hret|].
  destruct (str_mem (strip (lower a)) ["t1"; "t2"; "t3"; "t4"]).
  - exact (boost_loop_values
             (fun p => str_in (strip (lower a)) (tags p)) _ _ _ Hwf).
  - destruct (str_mem _ ["upside"; "downside"; "neutral"]); [|exact Hret].
    exact (boost_loop_values
             (fun p => str_in (dict_get direction_map (strip (lower a))
                                 (strip (lower a))) (tags p)) _ _ _ Hwf).
Qed.

Lemma forallb_In {A} (f : A -> bool) (l : list A) (x : A) :
  forallb f l = true -> In x l -> f x = true.
Proof. rewrite forallb_forall. auto. Qed.

Lemma dict_get_In {V} (d : list (string * V)) (k : string) (default : V) :
  dict_get d k default = default \/
  exists k', In (k', dict_get d k default) d.
Proof.
  induction d as [|[k' v] r IH]; cbn; [left; reflexivity|].
  destruct (String.eqb k k').
  - right. exists k'. left. reflexivity.
  - destruct IH as [IH | (k2 & IH)]; [left; assumption|].
    right. exists k2. right. assumption.
Qed.

(** The candidates of a well-formed state are valid references. *)
Lemma get_passages_valid st ticker :
  store_wf st = true ->
  Forall (fun l => (l < List.length (heap st))%nat) (get_passages st ticker).
Proof.
  unfold store_wf. intros H. apply andb_prop in H. destruct H as [Hs Ha].
  assert (Hall : Forall (fun l => (l < List.length (heap st))%nat)
                        (_all_passages st)).
  { rewrite Forall_forall. intros l Hl.
    apply Nat.ltb_lt. exact (forallb_In _ _ _ Ha Hl). }
  unfold get_passages. destruct ticker as [t|]; [|exact Hall].
  destruct (str_truthy (Some t)); [|exact Hall].
  destruct (dict_get_In (_store st) (upper t) []) as [E | (k & Hin)].
  - rewrite E. constructor.
  - rewrite Forall_forall. intros l Hl. apply Nat.ltb_lt.
    pose proof (forallb_In _ _ _ Hs Hin) as Hk. cbn in Hk.
    exact (forallb_In _ _ _ Hk Hl).
Qed.

Lemma boosted_candidates_extends query ticker alignment st :
  exists ps' st',
    boosted_candidates query ticker alignment st = (Ok ps', st') /\
    extends st st' /\
    List.length ps' = List.length (get_passages st ticker).
Proof.
  unfold boosted_candidates, bind at 1, get_state.
  destruct (get_passages st ticker) as [|c cs] eqn:Hc.
  - exists [], st. split; [reflexivity|].
    split; [apply extends_refl | reflexivity].
  - unfold bind.
    destruct (filter_by_alignment_extends (c :: cs) alignment st)
      as (ps1 & st1 & -> & Hext1 & Hlen1).
    destruct (_detect_section_boost query) as [|s0 ss].
    + exists ps1, st1. split; [reflexivity|]. split; assumption.
    + destruct (boost_loop_extends
                  (fun p => str_mem (section p) (s0 :: ss)) (14 / 10)%R
                  ps1 st1) as (ps2 & st2 & -> & Hext2 & Hlen2).
      exists ps2, st2. split; [reflexivity|]. split.
      * eapply extends_trans; eassumption.
      * congruence.
Qed.

Lemma boosted_candidates_values query ticker alignment st :
  store_wf st = true ->
  exists ps' st',
    boosted_candidates query ticker alignment st = (Ok ps', st') /\
    extends st st' /\
    Forall (fun l => (l < List.length (heap st'))%nat) ps' /\
    map (deref (heap st')) ps'
    = map (fun l => boosted_value query alignment (deref (heap st) l))
          (get_passages st ticker).
Proof.
  intros Hwf. pose proof (get_passages_valid st ticker Hwf) as Hval.
  unfold boosted_candidates, bind at 1, get_state.
  destruct (get_passages st ticker) as [|c cs] eqn:Hc.
  - exists [], st. split; [reflexivity|].
    split; [apply extends_refl|]. split; [constructor | reflexivity].
  - unfold bind.
    destruct (filter_by_alignment_values (c :: cs) alignment st Hval)
      as (ps1 & st1 & -> & Hext1 & Hval1 & Hmap1).
    unfold boosted_value, section_boost.
    destruct (_detect_section_boost query) as [|s0 ss].
    + exists ps1, st1. split; [reflexivity|]. split; [assumption|].
      split; assumption.
    + destruct (boost_loop_values
                  (fun p => str_mem (section p) (s0 :: ss)) (14 / 10)%R
                  ps1 st1 Hval1) as (ps2 & st2 & -> & Hext2 & Hval2 & Hmap2).
      exists ps2, st2. split; [reflexivity|]. split.
      { eapply extends_trans; eassumption. }
      split; [assumption|].
      rewrite Hmap2.
      change (map (fun l => boost (fun p => str_mem (section p) (s0 :: ss))
                              (14 / 10)%R (deref (heap st1) l)) ps1)
        with (map (fun l => (fun p => boost (fun p => str_mem (section p) (s0 :: ss))
                              (14 / 10)%R p) (deref (heap st1) l)) ps1).
      rewrite <- (map_map (deref (heap st1))
                    (fun p => boost (fun p => str_mem (section p) (s0 :: ss))
                                (14 / 10)%R p)).
      rewrite Hmap1, map_map. reflexivity.
Qed.

Lemma mapM_read_results (l : list (R * loc)) (st : State) :
  mapM (fun sp => (p <- read (snd sp) ;; ret (to_result (fst sp) p))%monad)
       l st
  = (Ok (map (fun sp => to_result (fst sp) (deref (heap st) (snd sp))) l),
     st).
Proof.
  induction l as [|x r IH]; cbn [mapM map]; [reflexivity|].
  unfold bind at 1. unfold bind at 1. unfold read at 1. unfold ret at 1.
  unfold bind at 1. rewrite IH. reflexivity.
Qed.

(** [retrieve] unfolded: the state after the boosting passes, and the
    result in terms of [BM25.score] on that state. *)
Lemma retrieve_unfold query ticker alignment max_passages st :
  exists ps' st',
    boosted_candidates query ticker alignment st = (Ok ps', st') /\
    extends st st' /\
    List.length ps' = List.length (get_passages st ticker) /\
    retrieve query ticker alignment max_passages st
    = (match ps' with
       | [] => Ok []
       | _ =>
           rmap (fun scored =>
                   map (fun sp => to_result (fst sp)
                                    (deref (heap st') (snd sp)))
                       (slice_to scored max_passages))
                (score (heap st') (BM25_init (heap st') ps') query)
       end, st').
Proof.
  destruct (boosted_candidates_extends query ticker alignment st)
    as (ps' & st' & Hb & Hext & Hlen).
  exists ps', st'. split; [exact Hb|]. split; [exact Hext|].
  split; [exact Hlen|].
  unfold retrieve, bind at 1. rewrite Hb.
  destruct ps' as [|p0 pr]; [reflexivity|].
  unfold bind at 1, get_state. unfold bind at 1, lift.
  destruct (score (heap st') (BM25_init (heap st') (p0 :: pr)) query)
    as [scored|e]; [|reflexivity].
  rewrite mapM_read_results. reflexivity.
Qed.

End RetrieveFacts.

(** ** The lexical index *)

Module BM25Facts.

(** *** Counters *)

Lemma counter_get_incr (c : Counter) (k t : string) :
  counter_get (counter_incr c k) t
  = if String.eqb t k then S (counter_get c t) else counter_get c t.
Proof.
  unfold counter_get.
  induction c as [|[k' n] r IH]; cbn [counter_incr dict_get].
  - destruct (String.eqb t k); reflexivity.
  - destruct (String.eqb k k') eqn:Hk; cbn [dict_get].
    + apply String.eqb_eq in Hk. subst k'.
      destruct (String.eqb t k); reflexivity.
    + destruct (String.eqb t k') eqn:Ht.
      * apply String.eqb_eq in Ht. subst k'.
        rewrite String.eqb_sym, Hk. reflexivity.
      * exact IH.
Qed.

Lemma counter_get_fold_incr (ks : list string) (c : Counter) (t : string) :
  counter_get (fold_left counter_incr ks c) t
  = (counter_get c t + count_occ string_dec ks t)%nat.
Proof.
  revert c. induction ks as [|k r IH]; intros c; cbn [fold_left count_occ].
  - lia.
  - rewrite IH, counter_get_incr.
    destruct (string_dec k t) as [->|Hne].
    + rewrite String.eqb_refl. lia.
    + destruct (String.eqb t k) eqn:E; [|lia].
      apply String.eqb_eq in E. congruence.
Qed.

(** [Counter(tokens).get(t, 0)] is the number of occurrences of [t]. *)
Lemma counter_of_get (toks : list string) (t : string) :
  counter_get (Counter_of toks) t = count_occ string_dec toks t.
Proof. unfold Counter_of. rewrite counter_get_fold_incr. reflexivity. Qed.

Lemma counter_incr_keys (c : Counter) (k : string) :
  map fst (counter_incr c k)
  = if str_mem k (map fst c) then map fst c else map fst c ++ [k].
Proof.
  induction c as [|[k' n] r IH]; cbn [counter_incr map fst str_mem existsb];
    [reflexivity|].
  destruct (String.eqb k k'); cbn [map fst orb]; [reflexivity|].
  rewrite IH. unfold str_mem.
  destruct (existsb (String.eqb k) (map fst r)); reflexivity.
Qed.

Lemma str_mem_In (k : string) (l : list string) :
  str_mem k l = true <-> In k l.
Proof.
  unfold str_mem. rewrite existsb_exists. split.
  - intros (x & Hx & E). apply String.eqb_eq in E. subst. assumption.
  - intros H. exists k. split; [assumption | apply String.eqb_refl].
Qed.

Lemma counter_incr_nodup (c : Counter) (k : string) :
  NoDup (map fst c) -> NoDup (map fst (counter_incr c k)).
Proof.
  intros H. rewrite counter_incr_keys.
  destruct (str_mem k (map fst c)) eqn:E; [assumption|].
  apply NoDup_app; [assumption | repeat constructor; intros [] |].
  intros x Hx [<-|[]]. apply str_mem_In in Hx. congruence.
Qed.

Lemma counter_of_nodup (toks : list string) :
  NoDup (map fst (Counter_of toks)).
Proof.
  unfold Counter_of.
  assert (G : forall c, NoDup (map fst c) ->
                        NoDup (map fst (fold_left counter_incr toks c))).
  { induction toks as [|k r IH]; intros c Hc; cbn [fold_left]; [assumption|].
    apply IH, counter_incr_nodup, Hc. }
  apply G. constructor.
Qed.

(** The document frequency table: each document adds at most one to the
    count of a term. *)
Lemma df_fold_bound (freqs : list Counter) (d : Counter) (t : string) :
  Forall (fun f => NoDup (map fst f)) freqs ->
  (counter_get
     (fold_left (fun d freq => fold_left counter_incr (map fst freq) d)
                freqs d) t
   <= counter_get d t + List.length freqs)%nat.
Proof.
  revert d. induction freqs as [|f r IH]; intros d Hnd; cbn [fold_left].
  - cbn. lia.
  - inversion Hnd as [|? ? Hf Hr]; subst.
    eapply Nat.le_trans; [apply IH; assumption|].
    rewrite counter_get_fold_incr. cbn [List.length].
    assert (count_occ string_dec (map fst f) t <= 1)%nat.
    { apply NoDup_count_occ. assumption. }
    lia.
Qed.

Lemma df_le_corpus_size (h : Heap) (ps : list loc) (t : string) :
  (counter_get (df (BM25_init h ps)) t <= corpus_size (BM25_init h ps))%nat.
Proof.
  cbn [BM25_init df corpus_size].
  eapply Nat.le_trans; [apply df_fold_bound|].
  - rewrite Forall_forall. intros f Hf.
    apply in_map_iff in Hf. destruct Hf as (toks & <- & _).
    apply counter_of_nodup.
  - cbn. rewrite !length_map. lia.
Qed.

End BM25Facts.

(** *** Scoring arithmetic *)

Module ScoreFacts.
Import BM25Facts.
Local Open Scope R_scope.

Lemma py_div_ok (x y : R) : y <> 0 -> py_div x y = Ok (x / y).
Proof. intros H. unfold py_div. destruct (Req_dec_T y 0); [contradiction | reflexivity]. Qed.

Lemma py_div_zero (x : R) : py_div x 0 = Err ZeroDivisionError.
Proof. unfold py_div. destruct (Req_dec_T 0 0); [reflexivity | contradiction]. Qed.

Lemma py_log_ok (x : R) : 0 < x -> py_log x = Ok (ln x).
Proof. intros H. unfold py_log. destruct (Rle_dec x 0); [lra | reflexivity]. Qed.

Lemma ln_pos (x : R) : 1 < x -> 0 < ln x.
Proof. intros H. rewrite <- ln_1. apply ln_increasing; lra. Qed.

Lemma idf_arg_pos (bm : BM25) (t : string) :
  (counter_get (df bm) t <= corpus_size bm)%nat ->
  0 < (IZR (Z.of_nat (corpus_size bm) - Z.of_nat (counter_get (df bm) t))
       + 5 / 10) / (INR (counter_get (df bm) t) + 5 / 10).
Proof.
  intros Hle.
  assert (0 <= IZR (Z.of_nat (corpus_size bm)
                    - Z.of_nat (counter_get (df bm) t))).
  { apply IZR_le. lia. }
  pose proof (pos_INR (counter_get (df bm) t)).
  apply Rdiv_lt_0_compat; lra.
Qed.

(** The Okapi IDF is defined and strictly positive whenever the document
    frequency does not exceed the corpus size. *)
Lemma idf_ok (bm : BM25) (t : string) :
  (counter_get (df bm) t <= corpus_size bm)%nat ->
  _idf bm t = Ok (idf_val bm t) /\ 0 < idf_val bm t.
Proof.
  intros Hle. pose proof (idf_arg_pos bm t Hle) as Hq.
  pose proof (pos_INR (counter_get (df bm) t)).
  unfold _idf, idf_val. cbv zeta.
  rewrite py_div_ok by lra. cbn [rbind].
  rewrite py_log_ok by lra. split; [reflexivity|].
  apply ln_pos. lra.
Qed.

Lemma denominator_pos (bm : BM25) (tf dl : nat) :
  index_ok bm -> 0 < avg_dl bm ->
  0 < INR tf + k1 bm * (1 - b bm + b bm * INR dl / avg_dl bm).
Proof.
  intros (Hk & Hb & _ & _) Havg. rewrite Hk, Hb.
  pose proof (pos_INR tf). pose proof (pos_INR dl).
  assert (0 <= 75 / 100 * INR dl / avg_dl bm).
  { apply Rmult_le_pos; [lra|]. apply Rlt_le, Rinv_0_lt_compat, Havg. }
  lra.
Qed.

(** With a positive average length a term's contribution is defined. *)
Lemma term_score_ok (bm : BM25) (freq : Counter) (dl : nat) (t : string) :
  index_ok bm -> 0 < avg_dl bm ->
  term_score bm freq dl t = Ok (term_val bm t (counter_get freq t) dl).
Proof.
  intros Hok Havg. pose proof Hok as (Hk & Hb & Hdf & _).
  unfold term_score, term_val.
  destruct (idf_ok bm t (Hdf t)) as [-> _]. cbn [rbind].
  rewrite py_div_ok by lra. cbn [rbind].
  rewrite py_div_ok; [reflexivity|].
  pose proof (denominator_pos bm (counter_get freq t) dl Hok Havg). lra.
Qed.

(** With average length zero the length normalisation divides by zero. *)
Lemma term_score_zero_div (bm : BM25) (freq : Counter) (dl : nat)
      (t : string) :
  index_ok bm -> avg_dl bm = 0 ->
  term_score bm freq dl t = Err ZeroDivisionError.
Proof.
  intros (Hk & Hb & Hdf & _) Havg.
  unfold term_score.
  destruct (idf_ok bm t (Hdf t)) as [-> _]. cbn [rbind].
  rewrite Havg, py_div_zero. reflexivity.
Qed.

Lemma term_val_nonneg (bm : BM25) (t : string) (tf dl : nat) :
  index_ok bm -> 0 < avg_dl bm -> 0 <= term_val bm t tf dl.
Proof.
  intros Hok Havg. pose proof Hok as (Hk & Hb & Hdf & _).
  unfold term_val.
  destruct (idf_ok bm t (Hdf t)) as [_ Hidf].
  pose proof (denominator_pos bm tf dl Hok Havg).
  pose proof (pos_INR tf).
  apply Rmult_le_pos.
  - apply Rmult_le_pos; [lra|]. apply Rmult_le_pos; [assumption|]. lra.
  - apply Rlt_le, Rinv_0_lt_compat. assumption.
Qed.

Lemma sum_terms_ok (bm : BM25) (freq : Counter) (dl : nat)
      (terms : list string) (s0 : R) :
  index_ok bm -> 0 < avg_dl bm ->
  sum_terms bm freq dl terms s0 = Ok (s0 + sum_vals bm freq dl terms).
Proof.
  intros Hok Havg. revert s0.
  induction terms as [|t r IH]; intros s0; cbn [sum_terms sum_vals].
  - f_equal. lra.
  - rewrite term_score_ok by assumption. cbn [rbind].
    rewrite IH. f_equal. lra.
Qed.

Lemma sum_terms_zero_div (bm : BM25) (freq : Counter) (dl : nat)
      (terms : list string) (s0 : R) :
  index_ok bm -> avg_dl bm = 0 -> terms <> [] ->
  sum_terms bm freq dl terms s0 = Err ZeroDivisionError.
Proof.
  intros Hok Havg Hne. destruct terms as [|t r]; [congruence|].
  cbn [sum_terms]. rewrite term_score_zero_div by assumption. reflexivity.
Qed.

Lemma sum_vals_nonneg (bm : BM25) (freq : Counter) (dl : nat)
      (terms : list string) :
  index_ok bm -> 0 < avg_dl bm -> 0 <= sum_vals bm freq dl terms.
Proof.
  intros Hok Havg. induction terms as [|t r IH]; cbn [sum_vals]; [lra|].
  pose proof (term_val_nonneg bm t (counter_get freq t) dl Hok Havg). lra.
Qed.

(** The index [BM25.__init__] builds. *)
Lemma sum_nat_fold (l : list nat) (a : nat) :
  fold_left Nat.add l a = (a + sum_nat l)%nat.
Proof.
  unfold sum_nat. revert a.
  induction l as [|x r IH]; intros a; cbn [fold_left]; [lia|].
  rewrite IH, (IH (0 + x)%nat). lia.
Qed.

Lemma avg_dl_init (h : Heap) (ps : list loc) :
  avg_dl (BM25_init h ps)
  = INR (sum_nat (doc_lens (BM25_init h ps)))
    / INR (Nat.max (List.length ps) 1).
Proof. reflexivity. Qed.

Lemma avg_dl_nonneg (h : Heap) (ps : list loc) :
  0 <= avg_dl (BM25_init h ps).
Proof.
  rewrite avg_dl_init.
  apply Rmult_le_pos; [apply pos_INR|].
  apply Rlt_le, Rinv_0_lt_compat, lt_0_INR. lia.
Qed.

(** The average length is zero exactly when no document has a token. *)
Lemma avg_dl_zero_iff (h : Heap) (ps : list loc) :
  avg_dl (BM25_init h ps) = 0
  <-> sum_nat (doc_lens (BM25_init h ps)) = 0%nat.
Proof.
  rewrite avg_dl_init.
  assert (Hm : 0 < INR (Nat.max (List.length ps) 1)) by (apply lt_0_INR; lia).
  split.
  - intros H.
    destruct (sum_nat (doc_lens (BM25_init h ps))) as [|k] eqn:E;
      [reflexivity|].
    exfalso.
    assert (0 < INR (S k)) by (apply lt_0_INR; lia).
    assert (0 < INR (S k) / INR (Nat.max (List.length ps) 1))
      by (apply Rdiv_lt_0_compat; assumption).
    lra.
  - intros ->. cbn. lra.
Qed.

Lemma init_index_ok (h : Heap) (ps : list loc) : index_ok (BM25_init h ps).
Proof.
  split; [reflexivity|]. split; [reflexivity|]. split.
  - intros t. apply df_le_corpus_size.
  - apply avg_dl_nonneg.
Qed.

End ScoreFacts.

(** *** [BM25.score] *)

Module ScoreLoopFacts.
Import BM25Facts ScoreFacts SortFacts.
Local Open Scope R_scope.

Lemma map_seq_nth {A B} (f : A -> B) (l : list A) (d : A) :
  map (fun i => f (nth i l d)) (seq 0 (List.length l)) = map f l.
Proof.
  apply nth_ext with (d := f d) (d' := f d).
  - rewrite !length_map, length_seq. reflexivity.
  - intros n Hn. rewrite length_map, length_seq in Hn.
    rewrite (map_nth f l d).
    rewrite (nth_indep _ (f d) ((fun i => f (nth i l d)) 0%nat))
      by (rewrite length_map, length_seq; assumption).
    rewrite (map_nth (fun i => f (nth i l d))).
    rewrite seq_nth by assumption. reflexivity.
Qed.

Lemma map_combine_seq {A B} (f : nat -> A -> B) (l : list A) (d : A)
      (i : nat) :
  map (fun kp => f (fst kp) (snd kp)) (combine (seq i (List.length l)) l)
  = map (fun k => f (i + k)%nat (nth k l d)) (seq 0 (List.length l)).
Proof.
  revert i. induction l as [|x r IH]; intros i; cbn [List.length seq combine map];
    [reflexivity|].
  rewrite Nat.add_0_r. f_equal.
  rewrite IH, <- seq_shift, map_map.
  apply map_ext. intros k. cbn [nth]. f_equal. lia.
Qed.

(** The scoring loop with a positive average length. *)
Lemma score_loop_ok h bm toks :
  index_ok bm -> 0 < avg_dl bm ->
  forall ps i,
    score_loop h bm toks i ps
    = Ok (map (fun kp => (doc_val bm toks (fst kp)
                          * weight (deref h (snd kp)), snd kp))
              (combine (seq i (List.length ps)) ps)).
Proof.
  intros Hok Havg.
  induction ps as [|p r IH]; intros i; cbn [score_loop]; [reflexivity|].
  unfold score_doc. cbv zeta.
  rewrite sum_terms_ok by assumption. cbn [rbind].
  rewrite IH. cbn [rbind List.length seq combine map fst snd].
  unfold doc_val. do 3 f_equal. lra.
Qed.

(** The scoring loop with average length zero. *)
Lemma score_loop_zero_div h bm toks :
  index_ok bm -> avg_dl bm = 0 -> toks <> [] ->
  forall ps i, ps <> [] -> score_loop h bm toks i ps = Err ZeroDivisionError.
Proof.
  intros Hok Havg Htoks ps i Hps.
  destruct ps as [|p r]; [congruence|]. cbn [score_loop].
  unfold score_doc. cbv zeta.
  rewrite sum_terms_zero_div by assumption. reflexivity.
Qed.

Lemma sum_vals_index bm bm' freq dl toks :
  same_index bm bm' -> sum_vals bm freq dl toks = sum_vals bm' freq dl toks.
Proof.
  intros (Hk & Hb & Hn & _ & _ & Ha & Hd).
  induction toks as [|t r IH]; cbn [sum_vals]; [reflexivity|].
  rewrite IH. f_equal.
  unfold term_val, idf_val. rewrite Hk, Hb, Hn, Ha, Hd. reflexivity.
Qed.

Lemma doc_val_index bm bm' toks i :
  same_index bm bm' -> doc_val bm toks i = doc_val bm' toks i.
Proof.
  intros H. unfold doc_val.
  pose proof H as (_ & _ & _ & Hf & Hl & _). rewrite Hf, Hl.
  apply sum_vals_index. exact H.
Qed.

(** The index depends on the contents of the documents only. *)
Lemma init_same_index h ps h' ps' :
  map (fun p => content (deref h p)) ps
  = map (fun p => content (deref h' p)) ps' ->
  same_index (BM25_init h ps) (BM25_init h' ps').
Proof.
  intros H.
  assert (Ht : map (fun p => _tokenize (content (deref h p))) ps
               = map (fun p => _tokenize (content (deref h' p))) ps').
  { rewrite <- (map_map (fun p => content (deref h p)) _tokenize).
    rewrite <- (map_map (fun p => content (deref h' p)) _tokenize).
    rewrite H. reflexivity. }
  assert (Hn : List.length ps = List.length ps').
  { apply (f_equal (@List.length _)) in H.
    rewrite !length_map in H. exact H. }
  unfold same_index, BM25_init. cbn [k1 b corpus_size doc_freqs doc_lens avg_dl df].
  rewrite Ht, Hn. repeat split; reflexivity.
Qed.

Lemma deref_values h ps :
  map (fun i => deref (map (deref h) ps) i)
      (seq 0 (List.length (map (deref h) ps)))
  = map (deref h) ps.
Proof.
  pose proof (map_seq_nth (fun p : Passage => p) (map (deref h) ps) unbound)
    as H.
  cbn beta in H. rewrite map_id in H. exact H.
Qed.

Lemma init_values_index h ps :
  same_index (BM25_init h ps)
    (BM25_init (map (deref h) ps) (seq 0 (List.length (map (deref h) ps)))).
Proof.
  apply init_same_index.
  rewrite <- (map_map (deref h) content).
  rewrite <- (map_map (deref (map (deref h) ps)) content).
  rewrite deref_values. reflexivity.
Qed.

End ScoreLoopFacts.

Module ScoreSpec.
Import BM25Facts ScoreFacts SortFacts ScoreLoopFacts.
Local Open Scope R_scope.

Lemma nth_map_seq {B} (f : nat -> B) (n i : nat) (d : B) :
  (i < n)%nat -> nth i (map f (seq 0 n)) d = f i.
Proof.
  intros Hi.
  rewrite (nth_indep _ d (f 0%nat)) by (rewrite length_map, length_seq; exact Hi).
  rewrite (map_nth f). rewrite seq_nth by exact Hi. reflexivity.
Qed.

Lemma nth_map_in {A B} (f : A -> B) (l : list A) (i : nat) (d : A) (d' : B) :
  (i < List.length l)%nat -> nth i (map f l) d' = f (nth i l d).
Proof.
  intros Hi. rewrite (nth_indep _ d' (f d)) by (rewrite length_map; exact Hi).
  apply map_nth.
Qed.

(** The scores in candidate order, by cases. *)

Lemma bm25_scores_empty docs q :
  _tokenize q = [] -> bm25_scores docs q = Ok (map (fun _ => 0) docs).
Proof. intros H. unfold bm25_scores. rewrite H. reflexivity. Qed.

Lemma bm25_scores_ok docs q :
  let bm := BM25_init docs (seq 0 (List.length docs)) in
  _tokenize q <> [] -> 0 < avg_dl bm ->
  bm25_scores docs q
  = Ok (map (fun i => doc_val bm (_tokenize q) i * weight (nth i docs unbound))
            (seq 0 (List.length docs))).
Proof.
  intros bm Htok Havg. unfold bm25_scores.
  destruct (_tokenize q) as [|t r] eqn:E; [congruence|].
  fold bm.
  rewrite (score_loop_ok docs bm (t :: r) (init_index_ok _ _) Havg).
  unfold rmap. cbn [rbind]. f_equal.
  rewrite map_map. cbn [fst snd].
  rewrite length_seq.
  pose proof (map_combine_seq
                (fun k p => doc_val bm (t :: r) k * weight (deref docs p))
                (seq 0 (List.length docs)) 0%nat 0%nat) as H.
  rewrite length_seq in H. cbn beta in H. rewrite H.
  apply map_ext_in. intros i Hi. apply in_seq in Hi.
  cbn [Nat.add]. rewrite seq_nth by lia. reflexivity.
Qed.

Lemma bm25_scores_zero_div docs q :
  _tokenize q <> [] -> docs <> [] ->
  avg_dl (BM25_init docs (seq 0 (List.length docs))) = 0 ->
  bm25_scores docs q = Err ZeroDivisionError.
Proof.
  intros Htok Hdocs Havg. unfold bm25_scores.
  destruct (_tokenize q) as [|t r] eqn:E; [congruence|].
  rewrite score_loop_zero_div; try assumption.
  - reflexivity.
  - apply init_index_ok.
  - destruct docs; [congruence | cbn; congruence].
Qed.

Lemma bm25_scores_length docs q s :
  bm25_scores docs q = Ok s -> List.length s = List.length docs.
Proof.
  intros H. destruct (_tokenize q) as [|t r] eqn:E.
  - rewrite bm25_scores_empty in H by assumption.
    injection H as <-. apply length_map.
  - pose proof (avg_dl_nonneg docs (seq 0 (List.length docs))) as Hnn.
    destruct (Req_dec_T (avg_dl (BM25_init docs (seq 0 (List.length docs)))) 0)
      as [Hz|Hnz].
    + destruct docs as [|d ds].
      * unfold bm25_scores in H. rewrite E in H. cbn in H.
        injection H as <-. reflexivity.
      * rewrite bm25_scores_zero_div in H; try congruence.
    + rewrite bm25_scores_ok in H by (rewrite ?E; try congruence; lra).
      injection H as <-. rewrite length_map, length_seq. reflexivity.
Qed.

(** [BM25.score] lists the candidates in ranking order, each with its
    score. *)
Theorem score_spec h ps q :
  score h (BM25_init h ps) q
  = rbind (bm25_scores (map (deref h) ps) q)
          (fun s => Ok (map (fun i => (nth i s 0, nth i ps 0%nat))
                            (ranking s))).
Proof.
  set (docs := map (deref h) ps).
  assert (Hlen : List.length docs = List.length ps) by apply length_map.
  pose proof (init_values_index h ps) as Hsame. fold docs in Hsame.
  set (bm := BM25_init h ps) in *.
  set (bm2 := BM25_init docs (seq 0 (List.length docs))) in *.
  destruct (_tokenize q) as [|t r] eqn:E.
  - (* no query token *)
    rewrite bm25_scores_empty by assumption. cbn [rbind].
    unfold score. rewrite E. change (passages bm) with ps. f_equal.
    unfold ranking. rewrite length_map.
    rewrite (sort_by_const _ _ (- 0)).
    + rewrite Hlen. rewrite <- (map_seq_nth (fun p => (0, p)) ps 0%nat).
      apply map_ext_in. intros i Hi. apply in_seq in Hi. f_equal.
      rewrite (nth_map_in _ docs i unbound) by lia. reflexivity.
    + intros i Hi. apply in_seq in Hi. f_equal.
      rewrite (nth_map_in _ docs i unbound) by lia. reflexivity.
  - assert (Htok : _tokenize q <> []) by congruence.
    assert (Hcase : ps = [] \/ ps <> []).
    { destruct ps; [left; reflexivity | right; congruence]. }
    destruct Hcase as [Hnil|Hps].
    { subst docs bm bm2. subst ps.
      unfold score, bm25_scores. rewrite E. reflexivity. }
    pose proof (avg_dl_nonneg h ps) as Hnn. fold bm in Hnn.
    pose proof Hsame as (_ & _ & _ & _ & _ & Havg & _).
    destruct (Req_dec_T (avg_dl bm) 0) as [Hz|Hnz].
    + (* every candidate is empty *)
      rewrite bm25_scores_zero_div; try assumption.
      * unfold score. rewrite E. change (passages bm) with ps.
        rewrite score_loop_zero_div; try assumption; try congruence.
        -- reflexivity.
        -- apply init_index_ok.
      * subst docs. destruct ps; [congruence | cbn; congruence].
      * fold bm2. congruence.
    + assert (Hpos : 0 < avg_dl bm) by lra.
      rewrite bm25_scores_ok by (try assumption; fold bm2; lra).
      fold bm2. cbn [rbind].
      unfold score. rewrite E. change (passages bm) with ps.
      rewrite (score_loop_ok h bm (t :: r) (init_index_ok _ _) Hpos).
      cbn [rbind]. f_equal.
      rewrite (map_combine_seq
                 (fun k p => (doc_val bm (t :: r) k * weight (deref h p), p))
                 ps 0%nat 0%nat).
      cbn [Nat.add].
      rewrite sort_by_map. cbn [fst].
      set (s := map (fun i => doc_val bm2 (t :: r) i
                              * weight (nth i docs unbound))
                    (seq 0 (List.length docs))).
      assert (Hs : forall i, (i < List.length ps)%nat ->
                   nth i s 0 = doc_val bm (t :: r) i
                               * weight (deref h (nth i ps 0%nat))).
      { intros i Hi. unfold s. rewrite nth_map_seq by lia.
        rewrite <- (doc_val_index bm bm2) by assumption. f_equal. f_equal.
        unfold docs. apply nth_map_in. assumption. }
      unfold ranking.
      assert (Hls : List.length s = List.length ps).
      { unfold s. rewrite length_map, length_seq. exact Hlen. }
      rewrite Hls.
      rewrite (sort_by_ext
                 (fun a => - (doc_val bm (t :: r) a
                              * weight (deref h (nth a ps 0%nat))))
                 (fun i => - nth i s 0)).
      2: { intros i Hi. apply in_seq in Hi. rewrite Hs by lia. reflexivity. }
      apply map_ext_in. intros i Hi.
      apply (Permutation_in _ (sort_by_perm _ _)) in Hi.
      apply in_seq in Hi. rewrite Hs by lia. reflexivity.
Qed.

End ScoreSpec.

(** ** [retrieve] in terms of scores and ranking *)

Module RetrieveSpec.
Import HeapFacts RetrieveFacts SortFacts ScoreSpec.

Lemma slice_to_map {A B} (g : A -> B) (l : list A) (m : Z) :
  slice_to (map g l) m = map g (slice_to l m).
Proof.
  unfold slice_to. rewrite length_map.
  destruct (0 <=? m)%Z; apply firstn_map.
Qed.

Lemma firstn_In {A} (n : nat) (l : list A) (x : A) :
  In x (firstn n l) -> In x l.
Proof.
  intros H. rewrite <- (firstn_skipn n l). apply in_or_app. left. exact H.
Qed.

Lemma slice_to_In {A} (l : list A) (m : Z) (x : A) :
  In x (slice_to l m) -> In x l.
Proof.
  unfold slice_to. destruct (0 <=? m)%Z; apply firstn_In.
Qed.

Lemma slice_to_length {A} (l : list A) (m : Z) :
  (0 < m)%Z ->
  List.length (slice_to l m) = Nat.min (Z.to_nat m) (List.length l).
Proof.
  intros Hm. unfold slice_to.
  destruct (0 <=? m)%Z eqn:E; [|apply Z.leb_gt in E; lia].
  apply length_firstn.
Qed.

Lemma ranking_In (s : list R) (i : nat) :
  In i (ranking s) -> (i < List.length s)%nat.
Proof.
  intros H. apply (Permutation_in _ (ranking_perm s)) in H.
  apply in_seq in H. lia.
Qed.

(** The result of [retrieve]: the candidates in ranking order, cut to
    [max_passages], each with its boosted attributes and rounded score. *)
Theorem retrieve_spec query ticker alignment max_passages st :
  store_wf st = true ->
  let docs := boosted_docs st query ticker alignment in
  exists st',
    extends st st' /\
    retrieve query ticker alignment max_passages st
    = (rmap (fun s =>
               map (fun i => to_result (nth i s 0%R) (nth i docs unbound))
                   (slice_to (ranking s) max_passages))
            (bm25_scores docs query),
       st').
Proof.
  intros Hwf docs.
  destruct (boosted_candidates_values query ticker alignment st Hwf)
    as (ps' & st' & Hb & Hext & Hval & Hmap).
  fold (boosted_docs st query ticker alignment) in Hmap. fold docs in Hmap.
  destruct (retrieve_unfold query ticker alignment max_passages st)
    as (ps2 & st2 & Hb2 & _ & _ & Hret).
  rewrite Hb in Hb2. injection Hb2 as <- <-.
  exists st'. split; [exact Hext|]. rewrite Hret. f_equal.
  destruct ps' as [|p0 pr] eqn:Eps.
  - cbn in Hmap. rewrite <- Hmap.
    assert (Hnil : slice_to (@nil nat) max_passages = []).
    { unfold slice_to. destruct (0 <=? max_passages)%Z; apply firstn_nil. }
    unfold bm25_scores.
    destruct (_tokenize query); cbn [map List.length seq score_loop rmap rbind];
      change (ranking []) with (@nil nat); rewrite Hnil; reflexivity.
  - rewrite <- Eps in *. clear Eps.
    rewrite score_spec, Hmap.
    destruct (bm25_scores docs query) as [s|e] eqn:Es; [|reflexivity].
    cbn [rbind rmap]. f_equal.
    rewrite slice_to_map, map_map. cbn [fst snd].
    apply map_ext_in. intros i Hi.
    apply slice_to_In, ranking_In in Hi.
    rewrite (bm25_scores_length _ _ _ Es) in Hi.
    f_equal. rewrite <- Hmap.
    rewrite <- Hmap, length_map in Hi.
    symmetry. apply nth_map_in. exact Hi.
Qed.

End RetrieveSpec.

(** ** Rounding *)

Module RoundFacts.
Local Open Scope R_scope.

Lemma Int_part_bounds (x : R) :
  IZR (Int_part x) <= x < IZR (Int_part x) + 1.
Proof. destruct (base_Int_part x) as [H1 H2]. lra. Qed.

Lemma Int_part_mono (x y : R) : x <= y -> (Int_part x <= Int_part y)%Z.
Proof.
  intros H. pose proof (Int_part_bounds x). pose proof (Int_part_bounds y).
  assert (IZR (Int_part x) < IZR (Int_part y + 1)) by (rewrite plus_IZR; lra).
  apply lt_IZR in H2. lia.
Qed.

Lemma Int_part_0 : Int_part 0 = 0%Z.
Proof.
  pose proof (Int_part_bounds 0) as [H1 H2].
  assert (IZR (Int_part 0) < IZR 1) by lra.
  assert (IZR (-1) < IZR (Int_part 0)) by lra.
  apply lt_IZR in H, H0. lia.
Qed.

Lemma round_half_even_bounds (x : R) :
  (Int_part x <= round_half_even x <= Int_part x + 1)%Z.
Proof.
  unfold round_half_even. cbv zeta.
  destruct (Rlt_dec _ _); [lia|].
  destruct (Rlt_dec _ _); [lia|].
  destruct (Z.even _); lia.
Qed.

Lemma round_half_even_mono (x y : R) :
  x <= y -> (round_half_even x <= round_half_even y)%Z.
Proof.
  intros H. pose proof (Int_part_mono x y H) as Hf.
  destruct (Z.eq_dec (Int_part x) (Int_part y)) as [E|NE].
  - unfold round_half_even. cbv zeta. rewrite E.
    repeat match goal with
           | |- context [Rlt_dec ?u ?v] => destruct (Rlt_dec u v)
           end;
      try lia; try (exfalso; lra);
      destruct (Z.even (Int_part y)); try lia; exfalso; lra.
  - pose proof (round_half_even_bounds x). pose proof (round_half_even_bounds y).
    lia.
Qed.

(** Rounding to three decimals is monotone. *)
Lemma round3_mono (x y : R) : x <= y -> round3 x <= round3 y.
Proof.
  intros H. unfold round3.
  apply Rmult_le_compat_r; [lra|].
  apply IZR_le, round_half_even_mono. lra.
Qed.

Lemma round3_0 : round3 0 = 0.
Proof.
  unfold round3, round_half_even. cbv zeta.
  rewrite Rmult_0_l, Int_part_0.
  destruct (Rlt_dec (0 - 0) (1 / 2)); [|lra]. lra.
Qed.

Lemma round3_nonneg (x : R) : 0 <= x -> 0 <= round3 x.
Proof. intros H. rewrite <- round3_0. apply round3_mono. exact H. Qed.

End RoundFacts.

(** ** The retrieval claims *)

Module RetrievalClaims.
Import HeapFacts RetrieveFacts SortFacts BM25Facts ScoreFacts ScoreLoopFacts.
Import ScoreSpec RetrieveSpec RoundFacts.

Lemma sorted_map {A B} (P : A -> A -> Prop) (Q : B -> B -> Prop)
      (g : A -> B) (l : list A) :
  (forall x y, P x y -> Q (g x) (g y)) ->
  StronglySorted P l -> StronglySorted Q (map g l).
Proof.
  intros H. induction 1 as [|x r Hs IH Hf]; cbn [map]; constructor;
    [exact IH|].
  rewrite Forall_forall in *. intros y Hy.
  apply in_map_iff in Hy. destruct Hy as (z & <- & Hz). apply H, Hf, Hz.
Qed.

Lemma sorted_firstn {A} (P : A -> A -> Prop) (n : nat) (l : list A) :
  StronglySorted P l -> StronglySorted P (firstn n l).
Proof.
  intros H. revert n.
  induction H as [|x r Hs IH Hf]; intros [|n]; cbn [firstn];
    try constructor.
  - apply IH.
  - rewrite Forall_forall in *. intros y Hy. apply Hf.
    eapply firstn_In. exact Hy.
Qed.

Lemma sum_nat_zero (l : list nat) :
  sum_nat l = 0%nat -> Forall (fun n => n = 0%nat) l.
Proof.
  induction l as [|x r IH]; intros H; constructor.
  - unfold sum_nat in H. cbn [fold_left] in H.
    rewrite sum_nat_fold in H. lia.
  - apply IH. unfold sum_nat in H. cbn [fold_left] in H.
    rewrite sum_nat_fold in H. lia.
Qed.

(** A document is tokenless when the tokeniser finds nothing in its
    content. *)
Lemma zero_avg_tokenless (docs : list Passage) :
  avg_dl (BM25_init docs (seq 0 (List.length docs))) = 0%R ->
  Forall (fun p => _tokenize (content p) = []) docs.
Proof.
  intros H. apply avg_dl_zero_iff in H.
  apply sum_nat_zero in H. cbn [BM25_init doc_lens] in H.
  rewrite map_map in H. rewrite Forall_forall in *.
  intros p Hp. apply (In_nth _ _ unbound) in Hp.
  destruct Hp as (i & Hi & <-).
  apply length_zero_iff_nil.
  apply (H (List.length (_tokenize (content (nth i docs unbound))))).
  apply in_map_iff. exists i. split; [reflexivity|].
  apply in_seq. lia.
Qed.

(** [BM25.score] either succeeds, or divides by the zero average length
    of tokenless candidates. *)
Lemma bm25_scores_cases (docs : list Passage) (q : string) :
  (exists s, bm25_scores docs q = Ok s) \/
  (bm25_scores docs q = Err ZeroDivisionError /\
   _tokenize q <> [] /\ docs <> [] /\
   Forall (fun p => _tokenize (content p) = []) docs).
Proof.
  destruct (_tokenize q) as [|t r] eqn:E.
  - left. eexists. apply bm25_scores_empty. exact E.
  - assert (Htok : _tokenize q <> []) by congruence.
    destruct docs as [|d ds] eqn:Ed.
    { left. unfold bm25_scores. rewrite E. eexists. reflexivity. }
    rewrite <- Ed in *.
    assert (Hd : docs <> []) by congruence.
    pose proof (avg_dl_nonneg docs (seq 0 (List.length docs))) as Hnn.
    destruct (Req_dec_T (avg_dl (BM25_init docs (seq 0 (List.length docs)))) 0)
      as [Hz|Hnz].
    + right. split; [apply bm25_scores_zero_div; assumption|].
      split; [rewrite <- E; assumption|]. split; [assumption|].
      apply zero_avg_tokenless. exact Hz.
    + left. eexists. apply bm25_scores_ok; [assumption | lra].
Qed.

(** C3.  [retrieve] leaves the store as it was: the globals [_store] and
    [_all_passages] are not reassigned, and every Passage object that
    existed before the call has the same attributes after it.  The
    boosting passes only allocate: the heap after the call is the heap
    before it followed by the copies. *)
Theorem retrieve_leaves_store_unchanged
        (query : string) (ticker alignment : option string)
        (max_passages : Z) (st : State) :
  let st' := snd (retrieve query ticker alignment max_passages st) in
  _store st' = _store st /\
  _all_passages st' = _all_passages st /\
  (exists copies, heap st' = heap st ++ copies) /\
  (forall l p, nth_error (heap st) l = Some p ->
               nth_error (heap st') l = Some p).
Proof.
  destruct (retrieve_unfold query ticker alignment max_passages st)
    as (ps' & st1 & _ & Hext & _ & Hret).
  rewrite Hret. cbn [snd].
  pose proof Hext as (Hh & Hs & Ha).
  repeat split; try assumption.
  intros l p Hl. rewrite (extends_lookup st st1); [exact Hl | exact Hext|].
  apply nth_error_Some. congruence.
Qed.

(** Upper-casing is idempotent. *)
Lemma upper_char_idem (c : ascii) : upper_char (upper_char c) = upper_char c.
Proof.
  destruct c as [[] [] [] [] [] [] [] []]; reflexivity.
Qed.

Lemma upper_idem (s : string) : upper (upper s) = upper s.
Proof.
  unfold upper. induction s as [|c r IH]; cbn [str_map]; [reflexivity|].
  rewrite upper_char_idem, IH. reflexivity.
Qed.

Lemma str_truthy_upper (t : string) :
  str_truthy (Some (upper t)) = str_truthy (Some t).
Proof. destruct t; reflexivity. Qed.

(** C9.  Ticker lookup is case-insensitive: [get_passages(t)] is
    [get_passages(t.upper())] for every stored corpus and every ticker
    string, and [retrieve] with ticker "wow" does the same as with
    "WOW". *)
Theorem get_passages_case_insensitive (st : State) (t : string) :
  get_passages st (Some t) = get_passages st (Some (upper t)) /\
  forall query alignment max_passages,
    retrieve query (Some "wow") alignment max_passages st
    = retrieve query (Some "WOW") alignment max_passages st.
Proof.
  assert (G : forall u, get_passages st (Some u)
                        = get_passages st (Some (upper u))).
  { intros u. unfold get_passages.
    rewrite str_truthy_upper, upper_idem. reflexivity. }
  split; [apply G|].
  intros query alignment max_passages.
  unfold retrieve, boosted_candidates, bind, get_state.
  rewrite (G "wow"). reflexivity.
Qed.

(** C1 (as amended).  For a positive [max_passages], [retrieve] returns
    at most [max_passages] entries, sorted by non-increasing relevance
    score.  The entries are the first candidates of the ranking, in which
    a candidate with a higher score before rounding comes first and
    candidates whose scores before rounding are equal keep their
    candidate order.  (The only other outcome is the [ZeroDivisionError]
    raised when no candidate has a token and the query has one.)  The
    order among entries whose relevance scores agree only after rounding
    is that of the scores before rounding. *)
Theorem retrieve_bounded_sorted_stable
        (query : string) (ticker alignment : option string)
        (max_passages : Z) (st : State) :
  store_wf st = true -> (0 < max_passages)%Z ->
  let docs := boosted_docs st query ticker alignment in
  let res := fst (retrieve query ticker alignment max_passages st) in
  (exists r s,
      res = Ok r /\ bm25_scores docs query = Ok s /\
      (List.length r <= Z.to_nat max_passages)%nat /\
      StronglySorted
        (fun x y => (relevance_score x >= relevance_score y)%R) r /\
      r = map (fun i => to_result (nth i s 0%R) (nth i docs unbound))
              (firstn (Z.to_nat max_passages) (ranking s)) /\
      Permutation (ranking s) (seq 0 (List.length docs)) /\
      StronglySorted (outranks s) (ranking s))
  \/
  (res = Err ZeroDivisionError /\ _tokenize query <> [] /\ docs <> [] /\
   Forall (fun p => _tokenize (content p) = []) docs).
Proof.
  intros Hwf Hm docs res.
  destruct (retrieve_spec query ticker alignment max_passages st Hwf)
    as (st' & _ & Hret).
  fold docs in Hret. subst res. rewrite Hret. cbn [fst].
  destruct (bm25_scores_cases docs query) as [(s & Hs) | (He & Hq & Hd & Ht)].
  - left. rewrite Hs. cbn [rmap rbind].
    assert (Hslice : slice_to (ranking s) max_passages
                     = firstn (Z.to_nat max_passages) (ranking s)).
    { unfold slice_to. destruct (0 <=? max_passages)%Z eqn:E;
        [reflexivity | apply Z.leb_gt in E; lia]. }
    rewrite Hslice.
    eexists _, s. split; [reflexivity|]. split; [reflexivity|].
    split; [|split; [|split; [reflexivity|split]]].
    + rewrite length_map, length_firstn. lia.
    + apply (sorted_map (outranks s)).
      * intros i j Hout. cbn [relevance_score to_result].
        apply Rle_ge, round3_mono.
        destruct Hout as [H|[H _]]; lra.
      * apply sorted_firstn, ranking_sorted.
    + rewrite <- (bm25_scores_length _ _ _ Hs). apply ranking_perm.
    + apply ranking_sorted.
  - right. rewrite He. cbn [rmap rbind]. auto.
Qed.

(** The theorem applied to the example corpus. *)
Lemma retrieve_bounded_sorted_stable_witness :
  let docs := boosted_docs example_state "margin risk" (Some "wow") (Some "t2") in
  let res := fst (retrieve "margin risk" (Some "wow") (Some "t2") 2
                           example_state) in
  (exists r s,
      res = Ok r /\ bm25_scores docs "margin risk" = Ok s /\
      (List.length r <= Z.to_nat 2)%nat /\
      StronglySorted
        (fun x y => (relevance_score x >= relevance_score y)%R) r /\
      r = map (fun i => to_result (nth i s 0%R) (nth i docs unbound))
              (firstn (Z.to_nat 2) (ranking s)) /\
      Permutation (ranking s) (seq 0 (List.length docs)) /\
      StronglySorted (outranks s) (ranking s))
  \/
  (res = Err ZeroDivisionError /\ _tokenize "margin risk" <> [] /\
   docs <> [] /\ Forall (fun p => _tokenize (content p) = []) docs).
Proof.
  apply (retrieve_bounded_sorted_stable
           "margin risk" (Some "wow") (Some "t2") 2 example_state).
  - reflexivity.
  - lia.
Defined.

Lemma ranking_const (s : list R) (c : R) :
  (forall i, nth i s 0%R = c) -> ranking s = seq 0 (List.length s).
Proof.
  intros H. unfold ranking. apply (sort_by_const _ _ (- c)%R).
  intros i _. rewrite H. reflexivity.
Qed.

Lemma nth_zeros {A} (l : list A) (i : nat) :
  nth i (map (fun _ => 0%R) l) 0%R = 0%R.
Proof.
  revert i. induction l as [|x r IH]; intros [|i]; cbn [map nth]; auto.
Qed.

(** C5 (as amended).  For a query without tokens, [retrieve] returns the
    first [max_passages] candidates, or all of them if there are fewer, in
    candidate order and whatever their weights, each with relevance score
    zero. *)
Theorem empty_query_returns_candidates_in_order
        (query : string) (ticker alignment : option string)
        (max_passages : Z) (st : State) :
  store_wf st = true -> (0 < max_passages)%Z -> _tokenize query = [] ->
  let docs := boosted_docs st query ticker alignment in
  fst (retrieve query ticker alignment max_passages st)
  = Ok (map (to_result 0%R) (firstn (Z.to_nat max_passages) docs)) /\
  forall x, In x (map (to_result 0%R) (firstn (Z.to_nat max_passages) docs)) ->
            relevance_score x = 0%R.
Proof.
  intros Hwf Hm Hq docs. split.
  - destruct (retrieve_spec query ticker alignment max_passages st Hwf)
      as (st' & _ & Hret).
    fold docs in Hret. rewrite Hret. cbn [fst].
    rewrite bm25_scores_empty by exact Hq. cbn [rmap rbind]. f_equal.
    rewrite (ranking_const _ 0%R) by apply nth_zeros.
    rewrite length_map.
    unfold slice_to. destruct (0 <=? max_passages)%Z eqn:E;
      [|apply Z.leb_gt in E; lia].
    rewrite <- firstn_map, <- firstn_map. f_equal.
    rewrite <- (map_seq_nth (to_result 0%R) docs unbound).
    apply map_ext. intros i. rewrite nth_zeros. reflexivity.
  - intros x Hx. apply in_map_iff in Hx. destruct Hx as (p & <- & _).
    cbn [relevance_score to_result]. apply round3_0.
Qed.

Lemma empty_query_returns_candidates_in_order_witness :
  fst (retrieve "the" (Some "WOW") None 12 example_state)
  = Ok (map (to_result 0%R)
            (firstn (Z.to_nat 12)
                    (boosted_docs example_state "the" (Some "WOW") None))) /\
  forall x,
    In x (map (to_result 0%R)
              (firstn (Z.to_nat 12)
                      (boosted_docs example_state "the" (Some "WOW") None))) ->
    relevance_score x = 0%R.
Proof.
  apply (empty_query_returns_candidates_in_order
           "the" (Some "WOW") None 12 example_state).
  - reflexivity.
  - lia.
  - reflexivity.
Defined.

(** C5 as stated fails: for the query "the", which has no token, the
    example corpus is returned in candidate order, and the second entry
    (weight 0.8) is in front of the third (weight 1.3), so the result is
    not ordered by weight. *)
Lemma empty_query_not_ordered_by_weight :
  store_wf example_state = true /\ _tokenize "the" = [] /\
  exists r,
    fst (retrieve "the" (Some "WOW") None 12 example_state) = Ok r /\
    ~ StronglySorted (fun x y => (r_weight x >= r_weight y)%R) r.
Proof.
  split; [reflexivity|]. split; [reflexivity|].
  eexists. split.
  - apply (empty_query_returns_candidates_in_order
             "the" (Some "WOW") None 12 example_state);
      [reflexivity | lia | reflexivity].
  - assert (E : boosted_docs example_state "the" (Some "WOW") None
                = [example_overview; example_metrics; example_hypothesis])
      by reflexivity.
    rewrite E. cbn [Z.to_nat Pos.to_nat Pos.iter_op Nat.add firstn map].
    intros H. inversion H as [|? ? H1 _]; subst.
    inversion H1 as [|? ? _ H2]; subst.
    inversion H2 as [|? ? H3 _]; subst.
    cbn in H3. lra.
Qed.

(** *** Boosting *)

Local Open Scope R_scope.

Lemma tier_match_boost a p :
  tier_match a p = true -> align_boost (Some a) p = scaled p (15 / 10).
Proof.
  unfold tier_match, align_boost. intros H.
  apply andb_prop in H. destruct H as [H H3].
  apply andb_prop in H. destruct H as [H1 H2].
  rewrite H1, H2, H3. reflexivity.
Qed.

Lemma direction_match_boost a p :
  direction_match a p = true -> align_boost (Some a) p = scaled p (13 / 10).
Proof.
  unfold direction_match, align_boost. cbv zeta. intros H.
  apply andb_prop in H. destruct H as [H H4].
  apply andb_prop in H. destruct H as [H H3].
  apply andb_prop in H. destruct H as [H1 H2].
  apply negb_true_iff in H2.
  rewrite H1, H2, H3, H4. reflexivity.
Qed.

Lemma section_match_boost q p :
  section_match q p = true -> section_boost q p = scaled p (14 / 10).
Proof.
  unfold section_match, section_boost.
  generalize (_detect_section_boost q). intros bs H.
  destruct bs as [|s0 ss]; [discriminate|].
  rewrite H. reflexivity.
Qed.

Lemma no_align_boost a p :
  tier_match a p = false -> direction_match a p = false ->
  align_boost (Some a) p = p.
Proof.
  intros Ht Hd. unfold align_boost.
  destruct (str_truthy (Some a)) eqn:E1; [|reflexivity].
  cbn [negb].
  destruct (str_mem (strip (lower a)) ["t1"; "t2"; "t3"; "t4"]) eqn:E2.
  - destruct (str_in (strip (lower a)) (tags p)) eqn:E3; [|reflexivity].
    exfalso. unfold tier_match in Ht. rewrite E1, E2, E3 in Ht.
    discriminate Ht.
  - cbv zeta.
    destruct (str_mem (dict_get direction_map (strip (lower a))
                         (strip (lower a)))
                      ["upside"; "downside"; "neutral"]) eqn:E4;
      [|reflexivity].
    destruct (str_in (dict_get direction_map (strip (lower a))
                        (strip (lower a))) (tags p)) eqn:E5;
      [|reflexivity].
    exfalso. unfold direction_match in Hd. cbv zeta in Hd.
    rewrite E1, E2, E4, E5 in Hd. discriminate Hd.
Qed.

Lemma no_section_boost q p :
  section_match q p = false -> section_boost q p = p.
Proof.
  unfold section_boost, section_match.
  generalize (_detect_section_boost q). intros bs Hs.
  destruct bs as [|s0 ss]; [reflexivity|].
  rewrite Hs. reflexivity.
Qed.

Lemma no_boost_value q a p :
  no_boost q a p = true -> boosted_value q a p = p.
Proof.
  intros H. unfold no_boost in H.
  apply andb_prop in H. destruct H as [Hs Ha].
  apply negb_true_iff in Hs.
  unfold boosted_value.
  assert (Hal : align_boost a p = p).
  { destruct a as [a|]; [|reflexivity].
    apply andb_prop in Ha. destruct Ha as [Ht Hd].
    apply negb_true_iff in Ht. apply negb_true_iff in Hd.
    apply no_align_boost; assumption. }
  rewrite Hal. apply no_section_boost. exact Hs.
Qed.

(** A boost changes the weight only, by a factor of at least one. *)
Lemma align_boost_scaled a p :
  exists f, 1 <= f /\ align_boost a p = scaled p f.
Proof.
  assert (Hid : exists f, 1 <= f /\ p = scaled p f).
  { exists 1. split; [lra|]. destruct p. unfold scaled. cbn. f_equal. lra. }
  unfold align_boost. destruct a as [a|]; [|exact Hid].
  destruct (negb (str_truthy (Some a))); [exact Hid|].
  destruct (str_mem _ ["t1"; "t2"; "t3"; "t4"]).
  - destruct (str_in _ _); [|exact Hid]. exists (15 / 10). split; [lra|reflexivity].
  - destruct (str_mem _ ["upside"; "downside"; "neutral"]); [|exact Hid].
    destruct (str_in _ _); [|exact Hid]. exists (13 / 10). split; [lra|reflexivity].
Qed.

Lemma section_boost_scaled q p :
  exists f, 1 <= f /\ section_boost q p = scaled p f.
Proof.
  assert (Hid : exists f, 1 <= f /\ p = scaled p f).
  { exists 1. split; [lra|]. destruct p. unfold scaled. cbn. f_equal. lra. }
  unfold section_boost. generalize (_detect_section_boost q). intros bs.
  destruct bs; [exact Hid|].
  destruct (str_mem _ _); [|exact Hid].
  exists (14 / 10). split; [lra|reflexivity].
Qed.

Lemma boosted_value_scaled q a p :
  exists f, 1 <= f /\ boosted_value q a p = scaled p f.
Proof.
  unfold boosted_value.
  destruct (align_boost_scaled a p) as (f1 & H1 & ->).
  destruct (section_boost_scaled q (scaled p f1)) as (f2 & H2 & ->).
  exists (f1 * f2). split; [nra|].
  unfold scaled. cbn. f_equal. lra.
Qed.

Lemma boosted_value_content q a p :
  content (boosted_value q a p) = content p.
Proof. destruct (boosted_value_scaled q a p) as (f & _ & ->). reflexivity. Qed.

Lemma values_index_content (docs docs' : list Passage) :
  map content docs' = map content docs ->
  same_index (BM25_init docs (seq 0 (List.length docs)))
             (BM25_init docs' (seq 0 (List.length docs'))).
Proof.
  intros H. apply init_same_index.
  pose proof (map_seq_nth content docs unbound) as E1.
  pose proof (map_seq_nth content docs' unbound) as E2.
  transitivity (map content docs); [exact E1|].
  rewrite <- H. symmetry. exact E2.
Qed.

(** Scores of a candidate list and of a reweighted copy of it: both are
    defined or both divide by zero, and each score is the same
    non-negative sum times the document's weight. *)
Lemma bm25_scores_reweighted (docs docs' : list Passage) (q : string) :
  map content docs' = map content docs ->
  (exists (v : nat -> R),
      (forall i, 0 <= v i) /\
      bm25_scores docs q
      = Ok (map (fun i => v i * weight (nth i docs unbound))
                (seq 0 (List.length docs))) /\
      bm25_scores docs' q
      = Ok (map (fun i => v i * weight (nth i docs' unbound))
                (seq 0 (List.length docs'))))
  \/ (bm25_scores docs q = Err ZeroDivisionError /\
      bm25_scores docs' q = Err ZeroDivisionError).
Proof.
  intros Hc.
  assert (Hlen : List.length docs' = List.length docs).
  { apply (f_equal (@List.length _)) in Hc. rewrite !length_map in Hc.
    exact Hc. }
  pose proof (values_index_content docs docs' Hc) as Hsame.
  set (bm := BM25_init docs (seq 0 (List.length docs))) in *.
  set (bm' := BM25_init docs' (seq 0 (List.length docs'))) in *.
  destruct (_tokenize q) as [|t r] eqn:E.
  - left. exists (fun _ => 0). split; [intros; lra|].
    rewrite !bm25_scores_empty by exact E.
    split; f_equal.
    + rewrite <- (map_seq_nth (fun _ => 0) docs unbound).
      apply map_ext. intros; lra.
    + rewrite <- (map_seq_nth (fun _ => 0) docs' unbound).
      apply map_ext. intros; lra.
  - assert (Htok : _tokenize q <> []) by congruence.
    assert (Hcase : docs = [] \/ docs <> []).
    { destruct docs; [left; reflexivity | right; congruence]. }
    destruct Hcase as [Hnil|Hd].
    { left. exists (fun _ => 0). split; [intros; lra|].
      subst docs. destruct docs'; [|discriminate].
      unfold bm25_scores. rewrite E. split; reflexivity. }
    assert (Hd' : docs' <> []).
    { destruct docs'; [|congruence]. destruct docs; [congruence|discriminate]. }
    pose proof (avg_dl_nonneg docs (seq 0 (List.length docs))) as Hnn.
    fold bm in Hnn.
    pose proof Hsame as (_ & _ & _ & _ & _ & Havg & _).
    destruct (Req_dec_T (avg_dl bm) 0) as [Hz|Hnz].
    + right. split; apply bm25_scores_zero_div; try assumption.
      fold bm'. congruence.
    + left. exists (doc_val bm (_tokenize q)). split.
      * intros i. unfold doc_val. apply sum_vals_nonneg.
        -- apply init_index_ok.
        -- lra.
      * split.
        -- apply bm25_scores_ok; [assumption | fold bm; lra].
        -- rewrite bm25_scores_ok by (try assumption; fold bm'; lra).
           fold bm'. f_equal. apply map_ext. intros i.
           rewrite (doc_val_index bm bm') by assumption. reflexivity.
Qed.

(** C7.  Boost composition.  A candidate that carries the supplied tier
    tag (or the tag of the supplied direction) and whose section is in the
    query's keyword-matched union is handed to the index with weight
    [baseWeight * 1.5 * 1.4] (respectively [baseWeight * 1.3 * 1.4]); and
    whenever it is ranked in front of a candidate that receives neither
    boost when the unboosted candidates are scored, it is ranked in front
    of it when the boosted candidates are scored.  (Weights are
    non-negative, as the data model requires.) *)
Theorem boost_composition
        (query : string) (ticker : option string) (alignment : string)
        (st : State) (i j : nat) :
  store_wf st = true ->
  let cands := get_passages st ticker in
  let p := deref (heap st) (nth i cands 0%nat) in
  let pj := deref (heap st) (nth j cands 0%nat) in
  (i < List.length cands)%nat -> (j < List.length cands)%nat ->
  tier_match alignment p = true \/ direction_match alignment p = true ->
  section_match query p = true ->
  no_boost query (Some alignment) pj = true ->
  0 <= weight p ->
  (exists ps' st',
      boosted_candidates query ticker (Some alignment) st = (Ok ps', st') /\
      weight (deref (heap st') (nth i ps' 0%nat))
      = if tier_match alignment p
        then weight p * (15 / 10) * (14 / 10)
        else weight p * (13 / 10) * (14 / 10))
  /\
  ((exists sb sB,
       bm25_scores (map (deref (heap st)) cands) query = Ok sb /\
       bm25_scores (boosted_docs st query ticker (Some alignment)) query
       = Ok sB /\
       (before i j (ranking sb) -> before i j (ranking sB)))
   \/
   (bm25_scores (map (deref (heap st)) cands) query = Err ZeroDivisionError /\
    bm25_scores (boosted_docs st query ticker (Some alignment)) query
    = Err ZeroDivisionError)).
Proof.
  intros Hwf cands p pj Hi Hj Hmatch Hsec Hno Hw.
  assert (Hbv : weight (boosted_value query (Some alignment) p)
                = if tier_match alignment p
                  then weight p * (15 / 10) * (14 / 10)
                  else weight p * (13 / 10) * (14 / 10)).
  { unfold boosted_value.
    destruct (tier_match alignment p) eqn:Ht.
    - rewrite (tier_match_boost _ _ Ht).
      rewrite section_match_boost by exact Hsec. reflexivity.
    - destruct Hmatch as [Hm|Hm]; [discriminate|].
      rewrite (direction_match_boost _ _ Hm).
      rewrite section_match_boost by exact Hsec. reflexivity. }
  set (base := map (deref (heap st)) cands).
  set (docs := boosted_docs st query ticker (Some alignment)).
  assert (Hdocs : docs = map (boosted_value query (Some alignment)) base).
  { unfold docs, boosted_docs, base. rewrite map_map. reflexivity. }
  assert (Hlb : List.length base = List.length cands) by apply length_map.
  assert (Hld : List.length docs = List.length cands).
  { rewrite Hdocs, length_map. exact Hlb. }
  assert (Hpi : nth i docs unbound = boosted_value query (Some alignment) p).
  { exact (nth_map_in
             (fun l => boosted_value query (Some alignment)
                         (deref (heap st) l)) cands i 0%nat unbound Hi). }
  assert (Hpj : nth j docs unbound = pj).
  { transitivity (boosted_value query (Some alignment) pj).
    - exact (nth_map_in
               (fun l => boosted_value query (Some alignment)
                           (deref (heap st) l)) cands j 0%nat unbound Hj).
    - apply no_boost_value. exact Hno. }
  assert (Hbi : nth i base unbound = p).
  { exact (nth_map_in (deref (heap st)) cands i 0%nat unbound Hi). }
  assert (Hbj : nth j base unbound = pj).
  { exact (nth_map_in (deref (heap st)) cands j 0%nat unbound Hj). }
  split.
  - destruct (boosted_candidates_values query ticker (Some alignment) st Hwf)
      as (ps' & st' & Hb & _ & _ & Hmap).
    exists ps', st'. split; [exact Hb|].
    fold cands in Hmap.
    assert (Hlp : List.length ps' = List.length cands).
    { apply (f_equal (@List.length _)) in Hmap. rewrite !length_map in Hmap.
      exact Hmap. }
    rewrite <- Hbv.
    rewrite <- (nth_map_in (deref (heap st')) ps' i 0%nat unbound) by lia.
    rewrite Hmap.
    exact (f_equal weight Hpi).
  - assert (Hne : i <> j).
    { intros E. unfold no_boost in Hno.
      apply andb_prop in Hno. destruct Hno as [Hno _].
      apply negb_true_iff in Hno.
      assert (Hpp : p = pj) by (unfold p, pj; rewrite E; reflexivity).
      rewrite Hpp in Hsec. congruence. }
    assert (Hc : map content docs = map content base).
    { rewrite Hdocs, map_map. apply map_ext. intros x.
      apply boosted_value_content. }
    destruct (bm25_scores_reweighted base docs query Hc)
      as [(v & Hv & Hsb & HsB) | [E1 E2]]; [|right; split; assumption].
    left. eexists _, _. split; [exact Hsb|]. split; [exact HsB|].
    intros Hbefore.
    apply before_ranking in Hbefore;
      [|rewrite length_map, length_seq; lia ..| exact Hne].
    apply before_ranking;
      [rewrite length_map, length_seq; lia ..| exact Hne |].
    unfold outranks in *.
    rewrite !nth_map_seq in Hbefore by lia.
    rewrite !nth_map_seq by lia.
    rewrite Hbi, Hbj in Hbefore. rewrite Hpi, Hpj.
    destruct (boosted_value_scaled query (Some alignment) p) as (f & Hf & ->).
    cbn [weight scaled].
    pose proof (Hv i) as Hvi.
    assert (Hvw : 0 <= v i * weight p) by (apply Rmult_le_pos; assumption).
    assert (H : v i * weight p <= v i * (weight p * f)).
    { replace (v i * (weight p * f)) with (v i * weight p * f) by ring.
      rewrite <- (Rmult_1_r (v i * weight p)) at 1.
      apply Rmult_le_compat_l; assumption. }
    destruct Hbefore as [H1 | [H1 H2]].
    + left. lra.
    + destruct (Rle_lt_or_eq_dec _ _ H) as [Hlt | Heq].
      * left. lra.
      * right. split; [lra | exact H2].
Qed.

(** The theorem applied to the example corpus: the hypothesis passage
    (tagged t2, section hypothesis) against the overview passage, for the
    query "margin risk" and the alignment "t2". *)
Lemma boost_composition_witness :
  (exists ps' st',
      boosted_candidates "margin risk" (Some "WOW") (Some "t2") example_state
      = (Ok ps', st') /\
      weight (deref (heap st') (nth 2 ps' 0%nat))
      = if tier_match "t2" example_hypothesis
        then weight example_hypothesis * (15 / 10) * (14 / 10)
        else weight example_hypothesis * (13 / 10) * (14 / 10))
  /\
  ((exists sb sB,
       bm25_scores (map (deref (heap example_state))
                        (get_passages example_state (Some "WOW")))
                   "margin risk" = Ok sb /\
       bm25_scores (boosted_docs example_state "margin risk" (Some "WOW")
                                 (Some "t2")) "margin risk"
       = Ok sB /\
       (before 2%nat 0%nat (ranking sb) -> before 2%nat 0%nat (ranking sB)))
   \/
   (bm25_scores (map (deref (heap example_state))
                     (get_passages example_state (Some "WOW")))
                "margin risk" = Err ZeroDivisionError /\
    bm25_scores (boosted_docs example_state "margin risk" (Some "WOW")
                              (Some "t2")) "margin risk"
    = Err ZeroDivisionError)).
Proof.
  apply (boost_composition "margin risk" (Some "WOW") "t2" example_state 2 0).
  - reflexivity.
  - apply Nat.ltb_lt. reflexivity.
  - apply Nat.ltb_lt. reflexivity.
  - left. reflexivity.
  - reflexivity.
  - reflexivity.
  - change (0 <= 13 / 10). lra.
Defined.

End RetrievalClaims.

(** ** Term frequency and score *)

Module TfFacts.
Import BM25Facts ScoreFacts SortFacts ScoreLoopFacts ScoreSpec.
Local Open Scope R_scope.

(** *** Monotonicity in the term frequency *)

Lemma frac_mono (x K : R) : 0 <= x -> 0 < K -> x / (x + K) <= (x + 1) / (x + 1 + K).
Proof.
  intros Hx HK.
  assert (H1 : x / (x + K) = x * (x + 1 + K) / ((x + K) * (x + 1 + K)))
    by (field; lra).
  assert (H2 : (x + 1) / (x + 1 + K)
               = (x + 1) * (x + K) / ((x + K) * (x + 1 + K)))
    by (field; lra).
  rewrite H1, H2.
  apply Rmult_le_compat_r.
  - apply Rlt_le, Rinv_0_lt_compat. nra.
  - nra.
Qed.

(** With the statistics of the index and the document length fixed, one
    more occurrence of the term does not lower its contribution. *)
Lemma term_val_mono (bm : BM25) (t : string) (tf dl : nat) :
  index_ok bm -> 0 < avg_dl bm ->
  term_val bm t tf dl <= term_val bm t (S tf) dl.
Proof.
  intros Hok Havg. pose proof Hok as (Hk & Hb & Hdf & _).
  destruct (idf_ok bm t (Hdf t)) as [_ Hidf].
  unfold term_val. rewrite S_INR.
  set (K := k1 bm * (1 - b bm + b bm * INR dl / avg_dl bm)).
  assert (HK : 0 < K).
  { pose proof (denominator_pos bm 0 dl Hok Havg) as H.
    cbn [INR] in H. unfold K. lra. }
  pose proof (pos_INR tf) as Htf.
  pose proof (frac_mono (INR tf) K Htf HK) as Hf.
  replace (idf_val bm t * (INR tf * (k1 bm + 1)) / (INR tf + K))
    with (idf_val bm t * (k1 bm + 1) * (INR tf / (INR tf + K)))
    by (field; lra).
  replace (idf_val bm t * ((INR tf + 1) * (k1 bm + 1)) / (INR tf + 1 + K))
    with (idf_val bm t * (k1 bm + 1) * ((INR tf + 1) / (INR tf + 1 + K)))
    by (field; lra).
  apply Rmult_le_compat_l; [|exact Hf].
  rewrite Hk. apply Rmult_le_pos; lra.
Qed.

Lemma term_val_zero (bm : BM25) (t : string) (dl : nat) :
  term_val bm t 0 dl = 0.
Proof.
  unfold term_val, Rdiv. cbn [INR]. ring.
Qed.

End TfFacts.

Module IndexFacts.
Import BM25Facts ScoreFacts SortFacts ScoreLoopFacts ScoreSpec.

Lemma keys_fold_In (toks : list string) (c : Counter) (x : string) :
  In x (map fst (fold_left counter_incr toks c))
  <-> In x (map fst c) \/ In x toks.
Proof.
  revert c. induction toks as [|k r IH]; intros c; cbn [fold_left].
  - cbn. tauto.
  - rewrite IH, counter_incr_keys.
    destruct (str_mem k (map fst c)) eqn:E.
    + apply str_mem_In in E. cbn. split; [tauto|].
      intros [H | [<- | H]]; auto.
    + rewrite in_app_iff. cbn. tauto.
Qed.

Lemma count_occ_keys (toks : list string) (x : string) :
  count_occ string_dec (map fst (Counter_of toks)) x
  = if str_mem x toks then 1%nat else 0%nat.
Proof.
  pose proof (counter_of_nodup toks) as Hnd.
  rewrite (NoDup_count_occ string_dec) in Hnd. specialize (Hnd x).
  destruct (str_mem x toks) eqn:E.
  - apply str_mem_In in E.
    assert (In x (map fst (Counter_of toks))).
    { unfold Counter_of. apply keys_fold_In. right. exact E. }
    apply (count_occ_In string_dec) in H. lia.
  - destruct (count_occ string_dec (map fst (Counter_of toks)) x) eqn:C;
      [reflexivity|].
    exfalso.
    assert (In x (map fst (Counter_of toks))).
    { apply (count_occ_In string_dec). lia. }
    unfold Counter_of in H. apply keys_fold_In in H.
    destruct H as [[]|H]. apply str_mem_In in H. congruence.
Qed.

Lemma df_fold_count (TL : list (list string)) (d : Counter) (x : string) :
  counter_get
    (fold_left (fun d freq => fold_left counter_incr (map fst freq) d)
               (map Counter_of TL) d) x
  = (counter_get d x + df_count x TL)%nat.
Proof.
  revert d. induction TL as [|toks r IH]; intros d; cbn [map fold_left].
  - unfold df_count. cbn. lia.
  - rewrite IH, counter_get_fold_incr, count_occ_keys.
    unfold df_count. cbn [filter].
    destruct (str_mem x toks); cbn [List.length]; lia.
Qed.

Lemma init_tokens (docs : list Passage) :
  map (fun p => _tokenize (content (deref docs p)))
      (seq 0 (List.length docs))
  = map tokens_of docs.
Proof. exact (map_seq_nth tokens_of docs unbound). Qed.

(** The fields of the index of [docs] in terms of the token lists. *)
Lemma init_fields (docs : list Passage) :
  let bm := BM25_init docs (seq 0 (List.length docs)) in
  let TL := map tokens_of docs in
  doc_freqs bm = map Counter_of TL /\
  doc_lens bm = map (@List.length string) TL /\
  corpus_size bm = List.length TL /\
  avg_dl bm = (INR (sum_nat (map (@List.length string) TL))
               / INR (Nat.max (List.length TL) 1))%R /\
  (forall x, counter_get (df bm) x = df_count x TL).
Proof.
  cbv zeta. unfold BM25_init.
  cbn [doc_freqs doc_lens corpus_size avg_dl df].
  rewrite init_tokens, !length_seq, !length_map.
  repeat split.
  intros x. rewrite df_fold_count. reflexivity.
Qed.

End IndexFacts.

Module TfClaim.
Import BM25Facts ScoreFacts SortFacts ScoreLoopFacts ScoreSpec.
Import TfFacts IndexFacts.
Local Open Scope R_scope.

Lemma term_val_ext (bm bm' : BM25) (x : string) (tf dl : nat) :
  k1 bm = k1 bm' -> b bm = b bm' -> avg_dl bm = avg_dl bm' ->
  corpus_size bm = corpus_size bm' ->
  counter_get (df bm) x = counter_get (df bm') x ->
  term_val bm x tf dl = term_val bm' x tf dl.
Proof.
  intros Hk Hb Ha Hn Hd. unfold term_val, idf_val.
  rewrite Hk, Hb, Ha, Hn, Hd. reflexivity.
Qed.

Lemma str_mem_middle (x y : string) (l1 l2 : list string) :
  str_mem x (l1 ++ y :: l2)
  = str_mem x l1 || (String.eqb x y || str_mem x l2).
Proof. unfold str_mem. rewrite existsb_app. reflexivity. Qed.

Lemma count_occ_middle (x y : string) (l1 l2 : list string) :
  count_occ string_dec (l1 ++ y :: l2) x
  = (count_occ string_dec l1 x
     + (if String.eqb x y then 1 else 0)
     + count_occ string_dec l2 x)%nat.
Proof.
  rewrite count_occ_app. cbn [count_occ].
  destruct (string_dec y x) as [->|Hne].
  - rewrite String.eqb_refl. lia.
  - destruct (String.eqb x y) eqn:E; [|lia].
    apply String.eqb_eq in E. congruence.
Qed.

Lemma df_count_middle (x : string) (A B : list (list string))
      (X : list string) :
  df_count x (A ++ X :: B)
  = (df_count x A + (if str_mem x X then 1 else 0) + df_count x B)%nat.
Proof.
  unfold df_count. rewrite filter_app, length_app. cbn [filter].
  destruct (str_mem x X); cbn [List.length]; lia.
Qed.

Lemma nth_map_middle {A B} (f : A -> B) (l1 l2 : list A) (x : A) (d : B) :
  nth (List.length l1) (map f (l1 ++ x :: l2)) d = f x.
Proof.
  rewrite map_app. cbn [map].
  rewrite <- (length_map f l1). apply nth_middle.
Qed.

Lemma count_pos_mem (x : string) (l : list string) :
  (0 < count_occ string_dec l x)%nat -> str_mem x l = true.
Proof. intros H. apply str_mem_In, (count_occ_In string_dec). lia. Qed.

Section Replace.

Variables (docs docs' : list Passage) (query : string).
Variables (A B : list (list string)) (l1 l2 : list string) (u t : string).

Hypothesis Htoks :
  map tokens_of docs = A ++ (l1 ++ u :: l2) :: B.
Hypothesis Htoks' :
  map tokens_of docs' = A ++ (l1 ++ t :: l2) :: B.
Hypothesis Hweights : map weight docs' = map weight docs.

Let bm := BM25_init docs (seq 0 (List.length docs)).
Let bm' := BM25_init docs' (seq 0 (List.length docs')).
Let i := List.length A.

Lemma replace_lengths : List.length docs' = List.length docs.
Proof.
  apply (f_equal (@List.length _)) in Hweights.
  rewrite !length_map in Hweights. exact Hweights.
Qed.

Lemma replace_stats :
  k1 bm = k1 bm' /\ b bm = b bm' /\ avg_dl bm = avg_dl bm' /\
  corpus_size bm = corpus_size bm' /\ doc_lens bm = doc_lens bm'.
Proof.
  destruct (init_fields docs) as (_ & Hl & Hn & Ha & _).
  destruct (init_fields docs') as (_ & Hl' & Hn' & Ha' & _).
  fold bm in Hl, Hn, Ha. fold bm' in Hl', Hn', Ha'.
  assert (HL : map (@List.length string) (map tokens_of docs')
               = map (@List.length string) (map tokens_of docs)).
  { rewrite Htoks, Htoks', !map_app. cbn [map].
    rewrite !length_app. reflexivity. }
  split; [reflexivity|]. split; [reflexivity|].
  split; [|split].
  - rewrite Ha, Ha', HL, !length_map, replace_lengths. reflexivity.
  - rewrite Hn, Hn', !length_map, replace_lengths. reflexivity.
  - rewrite Hl, Hl', HL. reflexivity.
Qed.

Lemma replace_doc :
  nth i (doc_freqs bm) [] = Counter_of (l1 ++ u :: l2) /\
  nth i (doc_freqs bm') [] = Counter_of (l1 ++ t :: l2) /\
  nth i (doc_lens bm') 0%nat = nth i (doc_lens bm) 0%nat.
Proof.
  destruct (init_fields docs) as (Hf & _).
  destruct (init_fields docs') as (Hf' & _).
  fold bm in Hf. fold bm' in Hf'.
  destruct replace_stats as (_ & _ & _ & _ & Hl).
  rewrite Hf, Hf', Htoks, Htoks', Hl. unfold i.
  rewrite !nth_map_middle. auto.
Qed.

(** The contribution of a query term other than the replaced token. *)
Lemma replace_term (x : string) (dl : nat) :
  x <> u -> 0 < avg_dl bm ->
  term_val bm x (counter_get (Counter_of (l1 ++ u :: l2)) x) dl
  <= term_val bm' x (counter_get (Counter_of (l1 ++ t :: l2)) x) dl.
Proof.
  intros Hxu Havg.
  destruct replace_stats as (Hk & Hb & Ha & Hn & _).
  destruct (init_fields docs) as (_ & _ & _ & _ & Hdf).
  destruct (init_fields docs') as (_ & _ & _ & _ & Hdf').
  fold bm in Hdf. fold bm' in Hdf'.
  assert (Hok : index_ok bm) by apply init_index_ok.
  assert (Hok' : index_ok bm') by apply init_index_ok.
  assert (Havg' : 0 < avg_dl bm') by (rewrite <- Ha; exact Havg).
  assert (Exu : String.eqb x u = false).
  { destruct (String.eqb x u) eqn:E; [|reflexivity].
    apply String.eqb_eq in E. contradiction. }
  rewrite !counter_of_get, !count_occ_middle, Exu.
  destruct (String.eqb x t) eqn:Ext.
  - apply String.eqb_eq in Ext. subst x.
    set (c := (count_occ string_dec l1 t + 0
               + count_occ string_dec l2 t)%nat).
    replace (count_occ string_dec l1 t + 1 + count_occ string_dec l2 t)%nat
      with (S c) by (unfold c; lia).
    destruct c as [|c'] eqn:Ec.
    + rewrite term_val_zero. apply term_val_nonneg; assumption.
    + (* the term already occurs in the document: same document
         frequency *)
      assert (Hmem : str_mem t (l1 ++ u :: l2) = true).
      { apply count_pos_mem. rewrite count_occ_middle, Exu. lia. }
      assert (Hmem' : str_mem t (l1 ++ t :: l2) = true).
      { rewrite str_mem_middle, String.eqb_refl.
        destruct (str_mem t l1); reflexivity. }
      rewrite <- (term_val_ext bm bm' t (S (S c')) dl Hk Hb Ha Hn).
      * apply term_val_mono; assumption.
      * rewrite Hdf, Hdf', Htoks, Htoks', !df_count_middle, Hmem, Hmem'.
        reflexivity.
  - assert (Hmem : str_mem x (l1 ++ t :: l2) = str_mem x (l1 ++ u :: l2)).
    { rewrite !str_mem_middle, Exu, Ext. reflexivity. }
    rewrite <- (term_val_ext bm bm' x _ dl Hk Hb Ha Hn).
    + apply Rle_refl.
    + rewrite Hdf, Hdf', Htoks, Htoks', !df_count_middle, Hmem.
      reflexivity.
Qed.

Lemma replace_sum (toks : list string) (dl : nat) :
  ~ In u toks -> 0 < avg_dl bm ->
  sum_vals bm (Counter_of (l1 ++ u :: l2)) dl toks
  <= sum_vals bm' (Counter_of (l1 ++ t :: l2)) dl toks.
Proof.
  intros Hu Havg. induction toks as [|x r IH]; cbn [sum_vals]; [lra|].
  assert (x <> u) by (intros ->; apply Hu; left; reflexivity).
  assert (~ In u r) by (intros H'; apply Hu; right; exact H').
  pose proof (replace_term x dl H Havg). specialize (IH H0). lra.
Qed.

End Replace.

End TfClaim.

Module TfTheorems.
Import BM25Facts ScoreFacts SortFacts ScoreLoopFacts ScoreSpec.
Import TfFacts IndexFacts TfClaim RetrievalClaims.
Local Open Scope R_scope.

(** Monotonicity in the term frequency at equal length.  For a fixed
    query, replacing in one candidate
    document an occurrence of a token that is not a query term by another
    token (so that this token's frequency increases by one and the
    document keeps its length), all other documents and all weights being
    equal, never decreases that document's BM25 score, provided its weight
    is not negative.  Both scorings succeed, or both divide by a zero
    average length. *)
Theorem tf_increase_same_length
        (docs docs' : list Passage) (query : string)
        (A B : list (list string)) (l1 l2 : list string) (u t : string) :
  map tokens_of docs = A ++ (l1 ++ u :: l2) :: B ->
  map tokens_of docs' = A ++ (l1 ++ t :: l2) :: B ->
  map weight docs' = map weight docs ->
  ~ In u (_tokenize query) ->
  0 <= weight (nth (List.length A) docs unbound) ->
  (exists s s',
      bm25_scores docs query = Ok s /\ bm25_scores docs' query = Ok s' /\
      nth (List.length A) s 0 <= nth (List.length A) s' 0)
  \/ (bm25_scores docs query = Err ZeroDivisionError /\
      bm25_scores docs' query = Err ZeroDivisionError).
Proof.
  intros Htoks Htoks' Hweights Hu Hw.
  set (i := List.length A) in *.
  pose proof (replace_lengths docs docs' Hweights) as Hlen.
  assert (Hi : (i < List.length docs)%nat).
  { apply (f_equal (@List.length _)) in Htoks.
    rewrite length_map, length_app in Htoks. cbn in Htoks. unfold i. lia. }
  assert (Hwi : weight (nth i docs' unbound) = weight (nth i docs unbound)).
  { rewrite <- (nth_map_in weight docs' i unbound 0) by lia.
    rewrite <- (nth_map_in weight docs i unbound 0) by lia.
    rewrite Hweights. reflexivity. }
  destruct (_tokenize query) as [|x r] eqn:E.
  - left. rewrite !bm25_scores_empty by exact E.
    eexists _, _. split; [reflexivity|]. split; [reflexivity|].
    rewrite !nth_zeros. lra.
  - assert (Htok : _tokenize query <> []) by congruence.
    assert (Hd : docs <> []) by (destruct docs; [cbn in Hi; lia | congruence]).
    assert (Hd' : docs' <> []).
    { destruct docs'; [cbn in Hlen; destruct docs; [congruence|discriminate]
                      | congruence]. }
    destruct (replace_stats docs docs' A B l1 l2 u t Htoks Htoks' Hweights)
      as (_ & _ & Ha & _ & _).
    destruct (replace_doc docs docs' A B l1 l2 u t Htoks Htoks' Hweights)
      as (Hf & Hf' & Hl).
    fold i in Hf, Hf', Hl.
    pose proof (avg_dl_nonneg docs (seq 0 (List.length docs))) as Hnn.
    destruct (Req_dec_T (avg_dl (BM25_init docs (seq 0 (List.length docs)))) 0)
      as [Hz|Hnz].
    + right. split; apply bm25_scores_zero_div; try assumption.
      rewrite <- Ha. exact Hz.
    + left.
      assert (Hpos : 0 < avg_dl (BM25_init docs (seq 0 (List.length docs))))
        by lra.
      rewrite (bm25_scores_ok docs query Htok Hpos).
      rewrite (bm25_scores_ok docs' query Htok) by (rewrite <- Ha; exact Hpos).
      eexists _, _. split; [reflexivity|]. split; [reflexivity|].
      rewrite !nth_map_seq by lia.
      rewrite Hwi. apply Rmult_le_compat_r; [exact Hw|].
      unfold doc_val. rewrite Hf, Hf', Hl, E.
      apply (replace_sum docs docs' A B l1 l2 u t Htoks Htoks' Hweights).
      * exact Hu.
      * exact Hpos.
Qed.

End TfTheorems.

Module TfExamples.
Import BM25Facts ScoreFacts SortFacts ScoreLoopFacts ScoreSpec.
Import TfFacts IndexFacts TfClaim RetrievalClaims TfTheorems.
Local Open Scope R_scope.

Lemma tf_increase_same_length_witness :
  (exists s s',
      bm25_scores tf_docs_swap "alpha beta" = Ok s /\
      bm25_scores tf_docs_swapped "alpha beta" = Ok s' /\
      nth 0 s 0 <= nth 0 s' 0)
  \/ (bm25_scores tf_docs_swap "alpha beta" = Err ZeroDivisionError /\
      bm25_scores tf_docs_swapped "alpha beta" = Err ZeroDivisionError).
Proof.
  apply (tf_increase_same_length
           tf_docs_swap tf_docs_swapped "alpha beta"
           [] [["alpha"; "gamma"]; ["alpha"; "gamma"]]
           ["alpha"; "beta"] [] "zeta" "alpha").
  - reflexivity.
  - reflexivity.
  - reflexivity.
  - intros H. vm_compute in H. intuition discriminate.
  - change (0 <= 1). lra.
Defined.

Lemma ln_upper (x : R) : 0 < x -> ln x <= x - 1.
Proof.
  intros Hx. pose proof (exp_ineq1_le (x - 1)) as H.
  replace (1 + (x - 1)) with x in H by ring.
  destruct H as [H|H].
  - left. rewrite <- (ln_exp (x - 1)). apply ln_increasing; assumption.
  - right. rewrite H at 1. apply ln_exp.
Qed.

Lemma ln_lower (x : R) : 0 < x -> 1 - / x <= ln x.
Proof.
  intros Hx.
  assert (Hi : 0 < / x) by (apply Rinv_0_lt_compat; exact Hx).
  pose proof (ln_upper (/ x) Hi) as H.
  rewrite ln_Rinv in H by exact Hx. lra.
Qed.

(** The score of the first document of a corpus for a query of two
    tokens. *)
Lemma first_score_two_terms (docs : list Passage) (q x y : string)
      (d : Passage) (rest : list Passage) :
  docs = d :: rest ->
  _tokenize q = [x; y] ->
  let bm := BM25_init docs (seq 0 (List.length docs)) in
  0 < avg_dl bm ->
  exists s,
    bm25_scores docs q = Ok s /\
    nth 0 s 0
    = (term_val bm x (count_occ string_dec (tokens_of d) x)
                (List.length (tokens_of d))
       + (term_val bm y (count_occ string_dec (tokens_of d) y)
                   (List.length (tokens_of d)) + 0))
      * weight d.
Proof.
  intros Hdocs Hq bm Havg.
  assert (Htok : _tokenize q <> []) by (rewrite Hq; discriminate).
  eexists. split; [apply bm25_scores_ok; assumption|].
  rewrite nth_map_seq by (rewrite Hdocs; cbn; lia).
  fold bm. rewrite Hq.
  destruct (init_fields docs) as (Hf & Hl & _). fold bm in Hf, Hl.
  unfold doc_val. rewrite Hf, Hl, Hdocs. cbn [map nth sum_vals].
  rewrite !counter_of_get. reflexivity.
Qed.

End TfExamples.

Module TfCounterexample.
Import BM25Facts ScoreFacts SortFacts ScoreLoopFacts ScoreSpec.
Import TfFacts IndexFacts TfClaim RetrievalClaims TfTheorems TfExamples.
Local Open Scope R_scope.

Lemma term_val_formula (bm : BM25) (x : string) (tf dl N n : nat) (a : R) :
  k1 bm = 15 / 10 -> b bm = 75 / 100 ->
  corpus_size bm = N -> counter_get (df bm) x = n -> avg_dl bm = a ->
  term_val bm x tf dl
  = ln ((IZR (Z.of_nat N - Z.of_nat n) + 5 / 10) / (INR n + 5 / 10) + 1)
    * (INR tf * (15 / 10 + 1))
    / (INR tf + 15 / 10 * (1 - 75 / 100 + 75 / 100 * INR dl / a)).
Proof.
  intros Hk Hb HN Hn Ha. unfold term_val, idf_val.
  rewrite Hk, Hb, HN, Hn, Ha. reflexivity.
Qed.

Lemma avg_dl_value (docs : list Passage) (total n : nat) :
  sum_nat (map (@List.length string) (map tokens_of docs)) = total ->
  Nat.max (List.length (map tokens_of docs)) 1 = n ->
  avg_dl (BM25_init docs (seq 0 (List.length docs))) = INR total / INR n.
Proof.
  intros Ht Hn. destruct (init_fields docs) as (_ & _ & _ & Ha & _).
  rewrite Ha, Ht, Hn. reflexivity.
Qed.

Lemma df_value (docs : list Passage) (x : string) (n : nat) :
  df_count x (map tokens_of docs) = n ->
  counter_get (df (BM25_init docs (seq 0 (List.length docs)))) x = n.
Proof.
  intros H. destruct (init_fields docs) as (_ & _ & _ & _ & Hdf).
  rewrite Hdf. exact H.
Qed.

Lemma before_score :
  exists s, bm25_scores tf_docs "alpha beta" = Ok s /\
            nth 0 s 0 = ln (8 / 7) + ln (8 / 3).
Proof.
  set (bm := BM25_init tf_docs (seq 0 (List.length tf_docs))).
  assert (Ha : avg_dl bm = INR 6 / INR 3)
    by (apply avg_dl_value; reflexivity).
  assert (Ha' : avg_dl bm = 2) by (rewrite Ha; cbn [INR]; field).
  destruct (first_score_two_terms tf_docs "alpha beta" "alpha" "beta"
              (tf_doc "alpha beta")
              [tf_doc "alpha gamma"; tf_doc "alpha gamma"]
              eq_refl eq_refl) as (s & Hs & Hv).
  { fold bm. rewrite Ha'. lra. }
  exists s. split; [exact Hs|]. rewrite Hv. fold bm.
  change (count_occ string_dec (tokens_of (tf_doc "alpha beta")) "alpha")
    with 1%nat.
  change (count_occ string_dec (tokens_of (tf_doc "alpha beta")) "beta")
    with 1%nat.
  change (List.length (tokens_of (tf_doc "alpha beta"))) with 2%nat.
  rewrite (term_val_formula bm "alpha" 1 2 3 3 2 eq_refl eq_refl eq_refl)
    by (try apply df_value; try reflexivity; exact Ha').
  rewrite (term_val_formula bm "beta" 1 2 3 1 2 eq_refl eq_refl eq_refl)
    by (try apply df_value; try reflexivity; exact Ha').
  change (weight (tf_doc "alpha beta")) with 1.
  cbn [INR Z.of_nat Pos.of_succ_nat Pos.succ Z.sub Z.add Z.opp Z.pos_sub
       Pos.pred_double Z.succ_double Z.pred_double Z.double].
  replace ((0 + 5 / 10) / (1 + 1 + 1 + 5 / 10) + 1) with (8 / 7) by field.
  replace ((2 + 5 / 10) / (1 + 5 / 10) + 1) with (8 / 3) by field.
  field.
Qed.

Lemma after_score :
  exists s, bm25_scores tf_docs_more "alpha beta" = Ok s /\
            nth 0 s 0 = ln (8 / 7) * (140 / 107) + ln (8 / 3) * (70 / 79).
Proof.
  set (bm := BM25_init tf_docs_more (seq 0 (List.length tf_docs_more))).
  assert (Ha : avg_dl bm = INR 7 / INR 3)
    by (apply avg_dl_value; reflexivity).
  assert (Ha' : avg_dl bm = 7 / 3) by (rewrite Ha; cbn [INR]; field).
  destruct (first_score_two_terms tf_docs_more "alpha beta" "alpha" "beta"
              (tf_doc "alpha alpha beta")
              [tf_doc "alpha gamma"; tf_doc "alpha gamma"]
              eq_refl eq_refl) as (s & Hs & Hv).
  { fold bm. rewrite Ha'. lra. }
  exists s. split; [exact Hs|]. rewrite Hv. fold bm.
  change (count_occ string_dec (tokens_of (tf_doc "alpha alpha beta"))
                    "alpha") with 2%nat.
  change (count_occ string_dec (tokens_of (tf_doc "alpha alpha beta"))
                    "beta") with 1%nat.
  change (List.length (tokens_of (tf_doc "alpha alpha beta"))) with 3%nat.
  rewrite (term_val_formula bm "alpha" 2 3 3 3 (7 / 3)
             eq_refl eq_refl eq_refl)
    by (try apply df_value; try reflexivity; exact Ha').
  rewrite (term_val_formula bm "beta" 1 3 3 1 (7 / 3)
             eq_refl eq_refl eq_refl)
    by (try apply df_value; try reflexivity; exact Ha').
  change (weight (tf_doc "alpha alpha beta")) with 1.
  cbn [INR Z.of_nat Pos.of_succ_nat Pos.succ Z.sub Z.add Z.opp Z.pos_sub
       Pos.pred_double Z.succ_double Z.pred_double Z.double].
  replace ((0 + 5 / 10) / (1 + 1 + 1 + 5 / 10) + 1) with (8 / 7) by field.
  replace ((2 + 5 / 10) / (1 + 5 / 10) + 1) with (8 / 3) by field.
  field.
Qed.

(** An example of two corpora.  The second corpus is the first with one more
    occurrence of the query term "alpha" in the first document and nothing
    else changed; the first document's score for the query "alpha beta"
    is lower in the second corpus, because the longer document is
    normalised harder. *)
Lemma more_occurrences_can_lower_score :
  tokens_of (nth 0 tf_docs_more unbound)
  = "alpha" :: tokens_of (nth 0 tf_docs unbound) /\
  tl tf_docs_more = tl tf_docs /\
  exists s s',
    bm25_scores tf_docs "alpha beta" = Ok s /\
    bm25_scores tf_docs_more "alpha beta" = Ok s' /\
    nth 0 s' 0 < nth 0 s 0.
Proof.
  split; [reflexivity|]. split; [reflexivity|].
  destruct before_score as (s & Hs & Hv).
  destruct after_score as (s' & Hs' & Hv').
  exists s, s'. split; [exact Hs|]. split; [exact Hs'|].
  rewrite Hv, Hv'.
  assert (Hup : ln (8 / 7) <= 8 / 7 - 1) by (apply ln_upper; lra).
  assert (Hlo : 1 - / (8 / 3) <= ln (8 / 3)) by (apply ln_lower; lra).
  assert (Hinv : / (8 / 3) = 3 / 8) by field.
  rewrite Hinv in Hlo. lra.
Qed.

End TfCounterexample.

(* ------------------------------------------------------------------ *)
(** * Further properties of the retrieval code *)
(* ------------------------------------------------------------------ *)

(** ** The tokeniser *)

Module TokenFacts.

Lemma lower_upper_char (c : ascii) : lower_char (upper_char c) = lower_char c.
Proof. destruct c as [[] [] [] [] [] [] [] []]; reflexivity. Qed.

Lemma lower_upper (s : string) : lower (upper s) = lower s.
Proof.
  unfold lower, upper. induction s as [|c r IH]; cbn [str_map]; [reflexivity|].
  rewrite lower_upper_char, IH. reflexivity.
Qed.

Lemma lower_idem_char (c : ascii) : lower_char (lower_char c) = lower_char c.
Proof. destruct c as [[] [] [] [] [] [] [] []]; reflexivity. Qed.

Lemma lower_idem (s : string) : lower (lower s) = lower s.
Proof.
  unfold lower. induction s as [|c r IH]; cbn [str_map]; [reflexivity|].
  rewrite lower_idem_char, IH. reflexivity.
Qed.

(** The tokeniser does not distinguish upper and lower case: a text, its
    upper-case form and its lower-case form have the same tokens. *)
Theorem tokenize_case_insensitive (text : string) :
  _tokenize (upper text) = _tokenize text /\
  _tokenize (lower text) = _tokenize text.
Proof.
  unfold _tokenize. rewrite lower_upper, lower_idem. split; reflexivity.
Qed.

Lemma str_forall_app P (s t : string) :
  str_forall P (s ++ t)%string = str_forall P s && str_forall P t.
Proof.
  induction s as [|c r IH]; cbn [append str_forall]; [reflexivity|].
  rewrite IH. apply andb_assoc.
Qed.

Lemma str_last_snoc (s : string) (c : ascii) : str_last (s ++ str1 c)%string = Some c.
Proof.
  induction s as [|d r IH]; [reflexivity|].
  cbn [append]. cbn [str_last]. rewrite IH.
  destruct (r ++ str1 c)%string eqn:E; [|reflexivity].
  destruct r; discriminate.
Qed.

Lemma head_tok_snoc (s : string) (c : ascii) :
  head_tok (s ++ str1 c)%string = match s with
                           | EmptyString => is_tok_char c
                           | _ => head_tok s
                           end.
Proof. destruct s; reflexivity. Qed.

Lemma findall_tokens_shape (s cur : string) :
  cur_ok cur s ->
  forall t, In t (findall_tokens s cur) -> token_shape t = true.
Proof.
  revert cur. induction s as [|c r IH]; intros cur Hok t Ht.
  - cbn [findall_tokens] in Ht. destruct cur as [|c0 cur0]; [contradiction|].
    destruct Ht as [<-|[]].
    destruct Hok as [Hok|(Ha & Hh & [Hl|Hl])]; try discriminate.
    unfold token_shape. rewrite Ha, Hh, Hl. reflexivity.
  - cbn [findall_tokens] in Ht.
    destruct (is_tok_char c) eqn:Ec.
    + apply (IH (cur ++ str1 c)%string); [|exact Ht].
      right. rewrite str_forall_app, head_tok_snoc.
      unfold last_tok. rewrite str_last_snoc, Ec.
      cbn [str_forall str1]. rewrite Ec. cbn [orb andb].
      destruct Hok as [->|(Ha & Hh & _)].
      * auto.
      * rewrite Ha. destruct cur; [discriminate|]. auto.
    + assert (Hr : match r with
                   | String c' _ => is_tok_char c'
                   | EmptyString => false
                   end = head_tok r) by (destruct r; reflexivity).
      rewrite Hr in Ht. clear Hr.
      destruct (Ascii.eqb c "."%char && negb (String.eqb cur EmptyString)
                && head_tok r) eqn:Ek.
      * apply andb_true_iff in Ek. destruct Ek as [Ek Er].
        apply andb_true_iff in Ek. destruct Ek as [Ed Ee].
        apply negb_true_iff in Ee.
        destruct Hok as [->|(Ha & Hh & _)]; [discriminate|].
        apply (IH (cur ++ str1 c)%string); [|exact Ht].
        right. rewrite str_forall_app, head_tok_snoc, Ha.
        cbn [str_forall str1]. rewrite Ed, orb_true_r. cbn [andb].
        destruct cur; [discriminate|]. auto.
      * apply in_app_or in Ht. destruct Ht as [Ht|Ht].
        -- destruct cur as [|c0 cur0]; [contradiction|].
           destruct Ht as [<-|[]].
           destruct Hok as [Hok|(Ha & Hh & [Hl|Hl])]; try discriminate.
           ++ unfold token_shape. rewrite Ha, Hh, Hl. reflexivity.
           ++ unfold head_tok in Hl. cbn [str_head] in Hl. congruence.
        -- apply (IH EmptyString); [left; reflexivity | exact Ht].
Qed.

(** Every token the tokeniser returns has at least two characters, is not
    a stop word, consists of lower-case letters, digits and dots, and
    begins and ends with a letter or a digit. *)
Theorem tokenize_tokens (text t : string) :
  In t (_tokenize text) ->
  (2 <= String.length t)%nat /\
  str_mem t _STOP_WORDS = false /\
  token_shape t = true.
Proof.
  unfold _tokenize. intros H. apply filter_In in H. destruct H as [Hin Hf].
  apply andb_true_iff in Hf. destruct Hf as [Hs Hl].
  apply negb_true_iff in Hs. apply Nat.ltb_lt in Hl.
  split; [lia|]. split; [exact Hs|].
  apply (findall_tokens_shape (lower text) EmptyString);
    [left; reflexivity | exact Hin].
Qed.

(** The theorem applied to a token of a sample text. *)
Lemma tokenize_tokens_witness :
  (2 <= String.length "v2.1")%nat /\
  str_mem "v2.1" _STOP_WORDS = false /\
  token_shape "v2.1" = true.
Proof.
  apply (tokenize_tokens "The V2.1 margin."). cbv. left. reflexivity.
Defined.

End TokenFacts.

(** ** The index and the scores *)

Module IndexClaims.
Import BM25Facts ScoreFacts SortFacts ScoreLoopFacts ScoreSpec.
Import RetrieveSpec RoundFacts IndexFacts.
Local Open Scope R_scope.

Lemma nth_map_default {A B} (f : A -> B) (l : list A) (i : nat) (a : A) (b : B) :
  f a = b -> nth i (map f l) b = f (nth i l a).
Proof.
  intros H. revert i. induction l as [|x r IH]; intros [|i]; cbn;
    auto.
Qed.

(** The statistics the constructor records: the corpus size is the number
    of candidates; a term's document frequency is the number of candidates
    whose tokens include it; for the candidate at position [i], the term
    count is the number of occurrences of the term among its tokens and
    the document length is the number of its tokens. *)
Theorem index_statistics (h : Heap) (ps : list loc) (t : string) (i : nat) :
  let bm := BM25_init h ps in
  let TL := map (fun p => _tokenize (content (deref h p))) ps in
  corpus_size bm = List.length ps /\
  counter_get (df bm) t = df_count t TL /\
  counter_get (nth i (doc_freqs bm) []) t
  = count_occ string_dec (nth i TL []) t /\
  nth i (doc_lens bm) 0%nat = List.length (nth i TL []).
Proof.
  cbv zeta. unfold BM25_init. cbn [corpus_size df doc_freqs doc_lens].
  split; [reflexivity|]. split; [|split].
  - rewrite df_fold_count. reflexivity.
  - rewrite (nth_map_default Counter_of _ i [] []) by reflexivity.
    apply counter_of_get.
  - apply (nth_map_default (@List.length string) _ i [] 0%nat). reflexivity.
Qed.

(** On an index built by the constructor [_idf] never raises, and the
    inverse document frequency of every term is strictly positive. *)
Theorem idf_positive (h : Heap) (ps : list loc) (t : string) :
  exists v, _idf (BM25_init h ps) t = Ok v /\ 0 < v.
Proof.
  exists (idf_val (BM25_init h ps) t).
  apply idf_ok, df_le_corpus_size.
Qed.

(** A term found in fewer candidates has the larger inverse document
    frequency. *)
Theorem idf_antitone (h : Heap) (ps : list loc) (t1 t2 : string) :
  let bm := BM25_init h ps in
  (counter_get (df bm) t1 <= counter_get (df bm) t2)%nat ->
  exists v1 v2, _idf bm t1 = Ok v1 /\ _idf bm t2 = Ok v2 /\ v2 <= v1.
Proof.
  intros bm Hle.
  pose proof (df_le_corpus_size h ps t1) as H1.
  pose proof (df_le_corpus_size h ps t2) as H2.
  fold bm in H1, H2.
  destruct (idf_ok bm t1 H1) as [E1 _]. destruct (idf_ok bm t2 H2) as [E2 _].
  exists (idf_val bm t1), (idf_val bm t2).
  split; [exact E1|]. split; [exact E2|].
  unfold idf_val. cbv zeta.
  pose proof (idf_arg_pos bm t1 H1) as P1.
  pose proof (idf_arg_pos bm t2 H2) as P2.
  set (n1 := counter_get (df bm) t1) in *.
  set (n2 := counter_get (df bm) t2) in *.
  set (N := corpus_size bm) in *.
  assert (Hq : (IZR (Z.of_nat N - Z.of_nat n2) + 5 / 10) / (INR n2 + 5 / 10)
               <= (IZR (Z.of_nat N - Z.of_nat n1) + 5 / 10) / (INR n1 + 5 / 10)).
  { rewrite !minus_IZR, <- !INR_IZR_INZ.
    pose proof (pos_INR n1). pose proof (pos_INR n2).
    assert (INR n1 <= INR n2) by (apply le_INR; exact Hle).
    assert (INR n2 <= INR N) by (apply le_INR; exact H2).
    apply Rle_trans with ((INR N - INR n2 + 5 / 10) / (INR n1 + 5 / 10)).
    - unfold Rdiv. apply Rmult_le_compat_l; [lra|].
      apply Rinv_le_contravar; lra.
    - unfold Rdiv. apply Rmult_le_compat_r; [|lra].
      apply Rlt_le, Rinv_0_lt_compat. lra. }
  destruct (Req_dec_T
              ((IZR (Z.of_nat N - Z.of_nat n2) + 5 / 10) / (INR n2 + 5 / 10))
              ((IZR (Z.of_nat N - Z.of_nat n1) + 5 / 10) / (INR n1 + 5 / 10)))
    as [->|Hne]; [lra|].
  apply Rlt_le, ln_increasing; lra.
Qed.

(** The theorem applied to two terms of the example corpus: [margin]
    occurs in one passage, [wow] in two. *)
Lemma idf_antitone_witness :
  exists v1 v2,
    _idf (BM25_init (heap example_state) [0; 1; 2]%nat) "margin" = Ok v1 /\
    _idf (BM25_init (heap example_state) [0; 1; 2]%nat) "wow" = Ok v2 /\
    v2 <= v1.
Proof.
  apply (idf_antitone (heap example_state) [0; 1; 2]%nat "margin" "wow").
  apply Nat.leb_le. reflexivity.
Defined.

End IndexClaims.

Module ScoreClaims.
Import BM25Facts ScoreFacts SortFacts ScoreLoopFacts ScoreSpec.
Import RetrieveSpec RoundFacts IndexFacts RetrievalClaims.
Local Open Scope R_scope.

Lemma sum_nat_all_zero (l : list nat) :
  Forall (fun n => n = 0%nat) l -> sum_nat l = 0%nat.
Proof.
  induction 1 as [|n r Hn _ IH]; [reflexivity|].
  unfold sum_nat. cbn [fold_left]. rewrite sum_nat_fold, IH, Hn. reflexivity.
Qed.

(** Candidates without a token give an index of average length zero. *)
Lemma tokenless_zero_avg (docs : list Passage) :
  Forall (fun p => _tokenize (content p) = []) docs ->
  avg_dl (BM25_init docs (seq 0 (List.length docs))) = 0.
Proof.
  intros H. apply avg_dl_zero_iff, sum_nat_all_zero.
  destruct (init_fields docs) as (_ & -> & _).
  apply Forall_map, Forall_map.
  revert H. apply Forall_impl. intros p Hp.
  unfold tokens_of. rewrite Hp. reflexivity.
Qed.

Lemma bm25_scores_zero_div_iff (docs : list Passage) (q : string) :
  bm25_scores docs q = Err ZeroDivisionError
  <-> (_tokenize q <> [] /\ docs <> [] /\
       Forall (fun p => _tokenize (content p) = []) docs).
Proof.
  split.
  - intros H. destruct (bm25_scores_cases docs q) as [(s & Hs)|(_ & H1)];
      [congruence | exact H1].
  - intros (Hq & Hd & Ht). apply bm25_scores_zero_div; try assumption.
    apply tokenless_zero_avg. exact Ht.
Qed.

Lemma bm25_scores_nonneg (docs : list Passage) (q : string) (s : list R) :
  Forall (fun p => 0 <= weight p) docs ->
  bm25_scores docs q = Ok s -> Forall (fun x => 0 <= x) s.
Proof.
  intros Hw Hs.
  destruct (_tokenize q) as [|t r] eqn:E.
  - rewrite bm25_scores_empty in Hs by exact E. injection Hs as <-.
    apply Forall_map. apply Forall_forall. intros; lra.
  - assert (Htok : _tokenize q <> []) by congruence.
    destruct docs as [|d ds] eqn:Ed.
    { unfold bm25_scores in Hs. rewrite E in Hs. cbn in Hs.
      injection Hs as <-. constructor. }
    rewrite <- Ed in *.
    pose proof (avg_dl_nonneg docs (seq 0 (List.length docs))) as Hnn.
    destruct (Req_dec_T (avg_dl (BM25_init docs (seq 0 (List.length docs)))) 0)
      as [Hz|Hnz].
    + rewrite bm25_scores_zero_div in Hs; try assumption; [discriminate|].
      rewrite Ed. discriminate.
    + assert (Hpos : 0 < avg_dl (BM25_init docs (seq 0 (List.length docs))))
        by lra.
      rewrite (bm25_scores_ok docs q Htok Hpos) in Hs. injection Hs as <-.
      apply Forall_map. apply Forall_forall. intros i Hi.
      apply in_seq in Hi.
      apply Rmult_le_pos.
      * apply sum_vals_nonneg; [apply init_index_ok | exact Hpos].
      * rewrite Forall_forall in Hw. apply Hw, nth_In. lia.
Qed.

(** [BM25.score] on an index built by the constructor returns every
    candidate exactly once, or raises [ZeroDivisionError]; it raises
    nothing else. *)
Theorem score_permutation (h : Heap) (ps : list loc) (q : string) :
  (exists res, score h (BM25_init h ps) q = Ok res /\
               Permutation (map snd res) ps)
  \/ score h (BM25_init h ps) q = Err ZeroDivisionError.
Proof.
  rewrite score_spec.
  destruct (bm25_scores_cases (map (deref h) ps) q)
    as [(s & Hs)|(He & _)].
  - left. rewrite Hs. cbn [rbind]. eexists. split; [reflexivity|].
    rewrite map_map. cbn [snd].
    apply bm25_scores_length in Hs. rewrite length_map in Hs.
    apply Permutation_trans
      with (map (fun i => nth i ps 0%nat) (seq 0 (List.length ps))).
    + apply Permutation_map. rewrite <- Hs. apply ranking_perm.
    + rewrite (map_seq_nth (fun x => x) ps 0%nat), map_id. reflexivity.
  - right. rewrite He. reflexivity.
Qed.

(** [BM25.score] raises [ZeroDivisionError] exactly when the query has a
    token, there is a candidate, and no candidate has a token. *)
Theorem score_zero_division_iff (h : Heap) (ps : list loc) (q : string) :
  score h (BM25_init h ps) q = Err ZeroDivisionError
  <-> (_tokenize q <> [] /\ ps <> [] /\
       Forall (fun p => _tokenize (content (deref h p)) = []) ps).
Proof.
  rewrite score_spec.
  assert (Hiff : rbind (bm25_scores (map (deref h) ps) q)
                   (fun s => Ok (map (fun i => (nth i s 0, nth i ps 0%nat))
                                     (ranking s)))
                 = Err ZeroDivisionError
                 <-> bm25_scores (map (deref h) ps) q = Err ZeroDivisionError).
  { destruct (bm25_scores (map (deref h) ps) q); cbn [rbind];
      split; intros H; congruence. }
  rewrite Hiff, bm25_scores_zero_div_iff, Forall_map.
  split; intros (H1 & H2 & H3); (split; [exact H1|split; [|exact H3]]).
  - intros ->. apply H2. reflexivity.
  - destruct ps; [congruence | discriminate].
Qed.

End ScoreClaims.

(** ** The public retrieval function *)

Module RetrieveClaims.
Import HeapFacts RetrieveFacts BM25Facts ScoreFacts SortFacts ScoreLoopFacts.
Import ScoreSpec RetrieveSpec RoundFacts IndexFacts RetrievalClaims.
Import TokenFacts ScoreClaims.
Local Open Scope R_scope.

(** The two outcomes of [retrieve]. *)
Lemma retrieve_cases query ticker alignment max_passages st :
  store_wf st = true ->
  let docs := boosted_docs st query ticker alignment in
  (exists s,
      bm25_scores docs query = Ok s /\
      fst (retrieve query ticker alignment max_passages st)
      = Ok (map (fun i => to_result (nth i s 0) (nth i docs unbound))
                (slice_to (ranking s) max_passages)))
  \/ fst (retrieve query ticker alignment max_passages st)
     = Err ZeroDivisionError.
Proof.
  intros Hwf docs.
  destruct (retrieve_spec query ticker alignment max_passages st Hwf)
    as (st' & _ & Hret).
  fold docs in Hret. rewrite Hret. cbn [fst].
  destruct (bm25_scores_cases docs query) as [(s & Hs)|(He & _)].
  - left. exists s. rewrite Hs. split; reflexivity.
  - right. rewrite He. reflexivity.
Qed.

Lemma slice_to_length_any {A} (l : list A) (m : Z) :
  List.length (slice_to l m)
  = if (0 <=? m)%Z then Nat.min (Z.to_nat m) (List.length l)
    else (List.length l - Z.to_nat (- m))%nat.
Proof.
  unfold slice_to. destruct (0 <=? m)%Z eqn:E; rewrite length_firstn.
  - reflexivity.
  - apply Z.leb_gt in E. lia.
Qed.

(** The number of results, for every [max_passages]: a positive bound
    caps the number of candidates; zero gives no result; a negative bound
    is a slice from the end, which drops that many of the lowest-ranked
    candidates. *)
Theorem retrieve_length query ticker alignment max_passages st :
  store_wf st = true ->
  match fst (retrieve query ticker alignment max_passages st) with
  | Ok r =>
      let n := List.length (get_passages st ticker) in
      List.length r
      = if (0 <=? max_passages)%Z then Nat.min (Z.to_nat max_passages) n
        else (n - Z.to_nat (- max_passages))%nat
  | Err e => e = ZeroDivisionError
  end.
Proof.
  intros Hwf.
  destruct (retrieve_cases query ticker alignment max_passages st Hwf)
    as [(s & Hs & ->)| ->]; [|reflexivity].
  cbv zeta. rewrite length_map, slice_to_length_any, ranking_length.
  apply bm25_scores_length in Hs. rewrite Hs.
  unfold boosted_docs. rewrite length_map. reflexivity.
Qed.

(** The theorem applied to the example corpus with a negative bound. *)
Lemma retrieve_length_witness :
  match fst (retrieve "margin" (Some "WOW") None (-1) example_state) with
  | Ok r =>
      let n := List.length (get_passages example_state (Some "WOW")) in
      List.length r
      = if (0 <=? -1)%Z then Nat.min (Z.to_nat (-1)) n
        else (n - Z.to_nat (- (-1)))%nat
  | Err e => e = ZeroDivisionError
  end.
Proof.
  apply (retrieve_length "margin" (Some "WOW") None (-1) example_state).
  reflexivity.
Defined.

(** A ticker without stored passages gives the empty result: nothing is
    scored, nothing is raised and nothing is allocated. *)
Theorem retrieve_no_candidates query ticker alignment max_passages st :
  get_passages st ticker = [] ->
  retrieve query ticker alignment max_passages st = (Ok [], st).
Proof.
  intros H. unfold retrieve, boosted_candidates, bind, get_state.
  rewrite H. reflexivity.
Qed.

Lemma retrieve_no_candidates_witness :
  retrieve "margin" (Some "ZZZ") (Some "t1") 5 example_state
  = (Ok [], example_state).
Proof.
  apply (retrieve_no_candidates "margin" (Some "ZZZ") (Some "t1") 5
                                example_state).
  reflexivity.
Defined.

Lemma scaled_one (p : Passage) : p = scaled p 1.
Proof. destruct p. unfold scaled. cbn. f_equal. lra. Qed.

Lemma align_boost_factor a p :
  exists f, In f [1; 13 / 10; 15 / 10] /\ align_boost a p = scaled p f.
Proof.
  assert (Hid : exists f, In f [1; 13 / 10; 15 / 10] /\ p = scaled p f).
  { exists 1. split; [left; reflexivity | apply scaled_one]. }
  unfold align_boost. destruct a as [a|]; [|exact Hid].
  destruct (negb (str_truthy (Some a))); [exact Hid|].
  destruct (str_mem _ ["t1"; "t2"; "t3"; "t4"]).
  - destruct (str_in _ _); [|exact Hid].
    exists (15 / 10). split; [right; right; left; reflexivity | reflexivity].
  - destruct (str_mem _ ["upside"; "downside"; "neutral"]); [|exact Hid].
    destruct (str_in _ _); [|exact Hid].
    exists (13 / 10). split; [right; left; reflexivity | reflexivity].
Qed.

Lemma section_boost_factor q p :
  exists f, In f [1; 14 / 10] /\ section_boost q p = scaled p f.
Proof.
  assert (Hid : exists f, In f [1; 14 / 10] /\ p = scaled p f).
  { exists 1. split; [left; reflexivity | apply scaled_one]. }
  unfold section_boost. generalize (_detect_section_boost q). intros bs.
  destruct bs; [exact Hid|].
  destruct (str_mem _ _); [|exact Hid].
  exists (14 / 10). split; [right; left; reflexivity | reflexivity].
Qed.

(** Every result of [retrieve] is a stored candidate of the ticker: it
    has that passage's ticker, section, subsection, content and tags, and
    its weight is the stored weight times an alignment factor (1, 1.3 or
    1.5) times a section factor (1 or 1.4). *)
Theorem retrieve_results_are_candidates
        query tk alignment max_passages st :
  store_wf st = true ->
  match fst (retrieve query tk alignment max_passages st) with
  | Ok r =>
      Forall
        (fun x =>
           exists l fa fs,
             In l (get_passages st tk) /\
             In fa [1; 13 / 10; 15 / 10] /\ In fs [1; 14 / 10] /\
             let p := deref (heap st) l in
             r_ticker x = ticker p /\ r_section x = section p /\
             r_subsection x = subsection p /\ r_content x = content p /\
             r_tags x = tags p /\ r_weight x = weight p * fa * fs) r
  | Err e => e = ZeroDivisionError
  end.
Proof.
  intros Hwf.
  destruct (retrieve_cases query tk alignment max_passages st Hwf)
    as [(s & Hs & ->)| ->]; [|reflexivity].
  apply Forall_map, Forall_forall. intros i Hi.
  apply slice_to_In, ranking_In in Hi.
  apply bm25_scores_length in Hs. rewrite Hs in Hi.
  unfold boosted_docs in *. rewrite length_map in Hi.
  set (cands := get_passages st tk) in *.
  rewrite (nth_map_in _ cands i 0%nat unbound) by exact Hi.
  exists (nth i cands 0%nat).
  unfold boosted_value.
  destruct (align_boost_factor alignment (deref (heap st) (nth i cands 0%nat)))
    as (fa & Hfa & ->).
  destruct (section_boost_factor query
              (scaled (deref (heap st) (nth i cands 0%nat)) fa))
    as (fs & Hfs & ->).
  exists fa, fs. split; [apply nth_In; exact Hi|].
  split; [exact Hfa|]. split; [exact Hfs|].
  cbn. repeat split; reflexivity.
Qed.

Lemma retrieve_results_are_candidates_witness :
  match fst (retrieve "margin risk" (Some "wow") (Some "t2") 2
                      example_state) with
  | Ok r =>
      Forall
        (fun x =>
           exists l fa fs,
             In l (get_passages example_state (Some "wow")) /\
             In fa [1; 13 / 10; 15 / 10] /\ In fs [1; 14 / 10] /\
             let p := deref (heap example_state) l in
             r_ticker x = ticker p /\ r_section x = section p /\
             r_subsection x = subsection p /\ r_content x = content p /\
             r_tags x = tags p /\ r_weight x = weight p * fa * fs) r
  | Err e => e = ZeroDivisionError
  end.
Proof.
  apply (retrieve_results_are_candidates
           "margin risk" (Some "wow") (Some "t2") 2 example_state).
  reflexivity.
Defined.

(** With no negative weight among the candidates, no relevance score
    and no returned weight is negative. *)
Lemma retrieve_nonneg_candidates query tk alignment max_passages st :
  store_wf st = true ->
  Forall (fun l => 0 <= weight (deref (heap st) l)) (get_passages st tk) ->
  match fst (retrieve query tk alignment max_passages st) with
  | Ok r => Forall (fun x => 0 <= relevance_score x /\ 0 <= r_weight x) r
  | Err e => e = ZeroDivisionError
  end.
Proof.
  intros Hwf Hw.
  destruct (retrieve_cases query tk alignment max_passages st Hwf)
    as [(s & Hs & ->)| ->]; [|reflexivity].
  assert (Hdocs : Forall (fun p => 0 <= weight p)
                         (boosted_docs st query tk alignment)).
  { unfold boosted_docs. apply Forall_map.
    revert Hw. apply Forall_impl. intros l Hl.
    destruct (boosted_value_scaled query alignment (deref (heap st) l))
      as (f & Hf & ->).
    cbn [weight scaled]. apply Rmult_le_pos; lra. }
  pose proof (bm25_scores_nonneg _ _ _ Hdocs Hs) as Hnn.
  apply Forall_map, Forall_forall. intros i Hi.
  apply slice_to_In, ranking_In in Hi.
  cbn [relevance_score r_weight to_result]. split.
  - apply round3_nonneg. rewrite Forall_forall in Hnn. apply Hnn, nth_In, Hi.
  - apply bm25_scores_length in Hs. rewrite Hs in Hi.
    rewrite Forall_forall in Hdocs. apply Hdocs, nth_In, Hi.
Qed.

(** With no negative stored weight, no relevance score and no returned
    weight is negative. *)
Theorem retrieve_scores_nonneg query ticker alignment max_passages st :
  store_wf st = true ->
  Forall (fun p => 0 <= weight p) (heap st) ->
  match fst (retrieve query ticker alignment max_passages st) with
  | Ok r => Forall (fun x => 0 <= relevance_score x /\ 0 <= r_weight x) r
  | Err e => e = ZeroDivisionError
  end.
Proof.
  intros Hwf Hw. apply retrieve_nonneg_candidates; [exact Hwf|].
  pose proof (get_passages_valid st ticker Hwf) as Hv.
  revert Hv. apply Forall_impl. intros l Hl.
  rewrite Forall_forall in Hw. apply Hw, nth_In, Hl.
Qed.

Lemma retrieve_scores_nonneg_witness :
  match fst (retrieve "margin risk" (Some "wow") (Some "t2") 2
                      example_state) with
  | Ok r => Forall (fun x => 0 <= relevance_score x /\ 0 <= r_weight x) r
  | Err e => e = ZeroDivisionError
  end.
Proof.
  apply (retrieve_scores_nonneg
           "margin risk" (Some "wow") (Some "t2") 2 example_state).
  - reflexivity.
  - repeat constructor; cbn; lra.
Defined.

End RetrieveClaims.

(** ** Letter case and the section keywords *)

Module CaseClaims.
Import RetrievalClaims TokenFacts BM25Facts.

Lemma get_passages_upper st tk :
  get_passages st (option_map upper tk) = get_passages st tk.
Proof.
  destruct tk as [t|]; [|reflexivity]. cbn [option_map].
  unfold get_passages. rewrite str_truthy_upper, upper_idem. reflexivity.
Qed.

Lemma detect_section_boost_upper q :
  _detect_section_boost (upper q) = _detect_section_boost q.
Proof. unfold _detect_section_boost. rewrite lower_upper. reflexivity. Qed.

Lemma filter_by_alignment_upper ps a :
  _filter_by_alignment ps (option_map upper a) = _filter_by_alignment ps a.
Proof.
  destruct a as [a|]; [|reflexivity]. cbn [option_map].
  unfold _filter_by_alignment.
  rewrite str_truthy_upper, lower_upper. reflexivity.
Qed.

Lemma score_upper h bm q : score h bm (upper q) = score h bm q.
Proof. unfold score, _tokenize. rewrite lower_upper. reflexivity. Qed.

Lemma boosted_candidates_upper q tk a st :
  boosted_candidates (upper q) (option_map upper tk) (option_map upper a) st
  = boosted_candidates q tk a st.
Proof.
  unfold boosted_candidates, bind, get_state.
  rewrite get_passages_upper, filter_by_alignment_upper,
    detect_section_boost_upper.
  reflexivity.
Qed.

(** [retrieve] does not distinguish upper and lower case in the query,
    the ticker or the thesis alignment. *)
Theorem retrieve_case_insensitive query tk alignment max_passages st :
  retrieve (upper query) (option_map upper tk) (option_map upper alignment)
           max_passages st
  = retrieve query tk alignment max_passages st.
Proof.
  unfold retrieve, bind.
  rewrite boosted_candidates_upper.
  destruct (boosted_candidates query tk alignment st) as [[adj|e] st1];
    [|reflexivity].
  destruct adj as [|l adj]; [reflexivity|].
  unfold get_state, lift. rewrite score_upper. reflexivity.
Qed.

End CaseClaims.

Module SectionHintFacts.
Import BM25Facts.

Lemma set_add_In x y s : In x (set_add y s) <-> In x s \/ x = y.
Proof.
  unfold set_add. destruct (str_mem y s) eqn:E.
  - split; [auto|]. intros [H| ->]; [exact H|].
    apply str_mem_In. exact E.
  - rewrite in_app_iff. cbn [In]. split.
    + intros [H|[H|[]]]; auto.
    + intros [H|H]; auto.
Qed.

Lemma set_update_In x xs s : In x (set_update s xs) <-> In x s \/ In x xs.
Proof.
  unfold set_update. revert s. induction xs as [|y r IH]; intros s;
    cbn [fold_left In].
  - tauto.
  - rewrite IH, set_add_In. split.
    + intros [[H|H]|H]; auto.
    + intros [H|[H|H]]; auto.
Qed.

Lemma set_add_NoDup y s : NoDup s -> NoDup (set_add y s).
Proof.
  intros H. unfold set_add. destruct (str_mem y s) eqn:E; [exact H|].
  apply NoDup_app; [exact H | repeat constructor; intros [] |].
  intros x Hx [<-|[]].
  apply str_mem_In in Hx. congruence.
Qed.

Lemma set_update_NoDup xs s : NoDup s -> NoDup (set_update s xs).
Proof.
  unfold set_update. revert s. induction xs as [|y r IH]; intros s H;
    cbn [fold_left]; [exact H|].
  apply IH, set_add_NoDup, H.
Qed.

Section Hints.
Variable hints : list (string * list string).
Variable hit : string -> bool.

Lemma detect_fold_In x acc :
  In x (fold_left
          (fun boosted kv =>
             set_update boosted (if hit (fst kv) then snd kv else []))
          hints acc)
  <-> In x acc \/
      exists kw secs, In (kw, secs) hints /\ hit kw = true /\ In x secs.
Proof.
  revert acc. induction hints as [|[kw secs] r IH]; intros acc;
    cbn [fold_left].
  - split; [auto|]. intros [H|(kw & secs & [] & _)]. exact H.
  - rewrite IH, set_update_In. cbn [fst snd]. split.
    + intros [[H|H]|(kw' & secs' & Hin & Hh & Hx)].
      * auto.
      * destruct (hit kw) eqn:E; [|contradiction].
        right. exists kw, secs. cbn [In]. auto.
      * right. exists kw', secs'. cbn [In]. auto.
    + intros [H|(kw' & secs' & [Heq|Hin] & Hh & Hx)].
      * auto.
      * injection Heq as <- <-. rewrite Hh. auto.
      * right. exists kw', secs'. auto.
Qed.

Lemma detect_fold_NoDup acc :
  NoDup acc ->
  NoDup (fold_left
           (fun boosted kv =>
              set_update boosted (if hit (fst kv) then snd kv else []))
           hints acc).
Proof.
  revert acc. induction hints as [|kv r IH]; intros acc H; cbn [fold_left];
    [exact H|].
  apply IH, set_update_NoDup, H.
Qed.

End Hints.

(** The sections [_detect_section_boost] selects are exactly the sections
    listed for the keywords that occur in the lower-cased query as
    substrings; no section is listed twice. *)
Theorem detect_section_boost_spec (query s : string) :
  (In s (_detect_section_boost query)
   <-> exists kw secs,
        In (kw, secs) _SECTION_HINTS /\
        contains kw (lower query) = true /\ In s secs)
  /\ NoDup (_detect_section_boost query).
Proof.
  unfold _detect_section_boost. cbv zeta.
  generalize _SECTION_HINTS. intros hints. split.
  - rewrite (detect_fold_In hints (fun kw => contains kw (lower query))).
    cbn [In]. tauto.
  - apply (detect_fold_NoDup hints (fun kw => contains kw (lower query))).
    constructor.
Qed.

End SectionHintFacts.

(** ** The object extractor *)

Module ExtractorClaims.
Import Extractor ExtractorFacts.

Lemma option_map_some {A B} (f : A -> B) (o : option A) (y : B) :
  option_map f o = Some y -> exists x, o = Some x /\ y = f x.
Proof. destruct o as [x|]; [|discriminate]. intros [= <-]. eauto. Qed.

Lemma take_drop (n : nat) (s : string) :
  s = (str_take n s ++ str_drop n s)%string.
Proof.
  revert s. induction n as [|n IH]; intros [|c r]; cbn; try reflexivity.
  f_equal. apply IH.
Qed.

(** The scanning loop reads the text up to the closing brace only: its
    result is the same on the block it delimits and on every text that
    begins with this block. *)
Lemma scan_stable (fuel : nat) :
  forall s depth b q n,
    (String.length s <= fuel)%nat ->
    scan s depth b q = Some n ->
    (n <= String.length s)%nat /\
    scan (str_take n s) depth b q = Some n /\
    forall t, scan (s ++ t)%string depth b q = Some n.
Proof.
  induction fuel as [|fuel IH]; intros s depth b q n Hlen Hs.
  { destruct s; [discriminate | cbn in Hlen; lia]. }
  destruct s as [|ch rest]; [discriminate|].
  cbn [String.length] in Hlen.
  destruct b.
  - (* inside a string literal *)
    destruct (Ascii.eqb ch ch_bslash) eqn:Hb.
    + destruct rest as [|c2 rest'].
      * rewrite scan_in_string in Hs by (right; reflexivity).
        cbn [scan option_map] in Hs. discriminate.
      * rewrite scan_escape in Hs by exact Hb.
        apply option_map_some in Hs. destruct Hs as (n' & Hs & ->).
        cbn [String.length] in Hlen.
        destruct (IH rest' depth true q n' ltac:(lia) Hs) as (H0 & H1 & H2).
        cbn [str_take append]. split; [cbn [String.length]; lia|]. split.
        -- rewrite scan_escape by exact Hb. rewrite H1. reflexivity.
        -- intros t. rewrite scan_escape by exact Hb. rewrite H2. reflexivity.
    + rewrite scan_in_string in Hs by (left; exact Hb).
      apply option_map_some in Hs. destruct Hs as (n' & Hs & ->).
      destruct (IH rest depth _ q n' ltac:(lia) Hs) as (H0 & H1 & H2).
      cbn [str_take append]. split; [cbn [String.length]; lia|]. split.
      * rewrite scan_in_string by (left; exact Hb). rewrite H1. reflexivity.
      * intros t. rewrite scan_in_string by (left; exact Hb).
        rewrite H2. reflexivity.
  - (* outside string literals *)
    cbn [scan] in Hs.
    destruct (Ascii.eqb ch ch_squote || Ascii.eqb ch ch_dquote) eqn:Hq.
    { apply option_map_some in Hs. destruct Hs as (n' & Hs & ->).
      destruct (IH rest depth true (str1 ch) n' ltac:(lia) Hs) as (H0 & H1 & H2).
      cbn [str_take append scan]. rewrite Hq. split; [cbn [String.length]; lia|]. split.
      - rewrite H1. reflexivity.
      - intros t. rewrite H2. reflexivity. }
    destruct (Ascii.eqb ch ch_lbrace) eqn:Hl.
    { apply option_map_some in Hs. destruct Hs as (n' & Hs & ->).
      destruct (IH rest (depth + 1)%Z false q n' ltac:(lia) Hs) as (H0 & H1 & H2).
      cbn [str_take append scan]. rewrite Hq, Hl. split; [cbn [String.length]; lia|]. split.
      - rewrite H1. reflexivity.
      - intros t. rewrite H2. reflexivity. }
    destruct (Ascii.eqb ch ch_rbrace) eqn:Hr.
    { destruct (Z.eqb (depth - 1) 0) eqn:Hz.
      - injection Hs as <-.
        cbn [str_take append scan]. rewrite Hq, Hl, Hr, Hz.
        split; [cbn [String.length]; lia|]. split; reflexivity.
      - apply option_map_some in Hs. destruct Hs as (n' & Hs & ->).
        destruct (IH rest (depth - 1)%Z false q n' ltac:(lia) Hs) as (H0 & H1 & H2).
        cbn [str_take append scan]. rewrite Hq, Hl, Hr, Hz. split; [cbn [String.length]; lia|]. split.
        + rewrite H1. reflexivity.
        + intros t. rewrite H2. reflexivity. }
    apply option_map_some in Hs. destruct Hs as (n' & Hs & ->).
    destruct (IH rest depth false q n' ltac:(lia) Hs) as (H0 & H1 & H2).
    cbn [str_take append scan]. rewrite Hq, Hl, Hr. split; [cbn [String.length]; lia|]. split.
    + rewrite H1. reflexivity.
    + intros t. rewrite H2. reflexivity.
Qed.

Lemma str_drop_app (n : nat) (s t : string) :
  (n < String.length s)%nat ->
  str_drop n (s ++ t)%string = (str_drop n s ++ t)%string.
Proof.
  revert s. induction n as [|n IH]; intros [|c r] H; cbn in *;
    try reflexivity; try lia.
  apply IH. lia.
Qed.

Lemma str_drop_nonempty (n : nat) (s : string) :
  str_drop n s <> EmptyString -> (n < String.length s)%nat.
Proof.
  revert s. induction n as [|n IH]; intros [|c r] H; cbn in *;
    try congruence; try lia.
  apply IH in H. lia.
Qed.

(** The extracted block is a piece of the text that begins at [start]. *)
Theorem extract_is_prefix (text : string) (start : nat) :
  exists rest,
    str_drop start text
    = (_extract_balanced_braces text start ++ rest)%string.
Proof.
  unfold _extract_balanced_braces.
  destruct (str_drop start text) as [|c suffix] eqn:Hd.
  { exists EmptyString. reflexivity. }
  destruct (negb (Ascii.eqb c ch_lbrace)).
  { exists (String c suffix). reflexivity. }
  destruct (scan (String c suffix) 0 false EmptyString) as [n|].
  - exists (str_drop n (String c suffix)). apply take_drop.
  - exists (String c suffix). reflexivity.
Qed.

(** Extracting from an extracted block, at offset 0, gives the block
    itself. *)
Theorem extract_idempotent (text : string) (start : nat) :
  _extract_balanced_braces (_extract_balanced_braces text start) 0
  = _extract_balanced_braces text start.
Proof.
  unfold _extract_balanced_braces at 2 3.
  destruct (str_drop start text) as [|c suffix] eqn:Hd; [reflexivity|].
  destruct (Ascii.eqb c ch_lbrace) eqn:Hc; cbn [negb]; [|reflexivity].
  destruct (scan (String c suffix) 0 false EmptyString) as [n|] eqn:Hs;
    [|reflexivity].
  destruct (scan_stable _ _ _ _ _ _ (le_n _) Hs) as (_ & H1 & _).
  unfold _extract_balanced_braces. cbn [str_drop].
  destruct n as [|n]; [reflexivity|].
  cbn [str_take] in *. rewrite Hc. cbn [negb]. rewrite H1.
  cbn [str_take]. f_equal.
  clear. revert suffix. induction n as [|n IH]; intros [|d r]; cbn;
    try reflexivity.
  f_equal. apply IH.
Qed.

(** A block that was found does not depend on what follows it in the
    text. *)
Theorem extract_ignores_following_text (text more : string) (start : nat) :
  _extract_balanced_braces text start <> EmptyString ->
  _extract_balanced_braces (text ++ more)%string start
  = _extract_balanced_braces text start.
Proof.
  unfold _extract_balanced_braces. intros H.
  destruct (str_drop start text) as [|c suffix] eqn:Hd; [congruence|].
  assert (Hlt : (start < String.length text)%nat).
  { apply str_drop_nonempty. rewrite Hd. discriminate. }
  rewrite (str_drop_app start text more Hlt), Hd. cbn [append].
  destruct (Ascii.eqb c ch_lbrace) eqn:Hc; cbn [negb] in *; [|congruence].
  destruct (scan (String c suffix) 0 false EmptyString) as [n|] eqn:Hs;
    [|congruence].
  destruct (scan_stable _ _ _ _ _ _ (le_n _) Hs) as (Hn & _ & H2).
  specialize (H2 more). cbn [append] in H2. rewrite H2.
  change (String c (suffix ++ more)%string)
    with (String c suffix ++ more)%string.
  revert Hn. generalize (String c suffix). clear.
  intros s. revert s. induction n as [|n IH]; intros [|d r] Hn; cbn in *;
    try reflexivity; try lia.
  f_equal. apply IH. lia.
Qed.

(** The theorem applied to a block followed by further text. *)
Lemma extract_ignores_following_text_witness :
  _extract_balanced_braces ("x = {a:{b:'}'}, c:1}" ++ "; y = {")%string 4
  = _extract_balanced_braces "x = {a:{b:'}'}, c:1}" 4.
Proof.
  apply (extract_ignores_following_text "x = {a:{b:'}'}, c:1}" "; y = {" 4).
  vm_compute. discriminate.
Defined.

End ExtractorClaims.

(** ** The literal normalizer *)

Module NormalizerClaims.
Import Normalizer.

Lemma contains_cons (sub : string) (c : ascii) (r : string) :
  contains sub (String c r) = String.prefix sub (String c r) || contains sub r.
Proof. reflexivity. Qed.

Lemma prefix_slashes (c : ascii) (r : string) :
  String.prefix "//" (String c r)
  = Ascii.eqb c "/"%char
    && match str_head r with
       | Some d => Ascii.eqb d "/"%char
       | None => false
       end.
Proof.
  cbn [String.prefix].
  destruct (ascii_dec "/" c) as [<-|Hc].
  - rewrite Ascii.eqb_refl. cbn [andb].
    destruct r as [|d r']; cbn [str_head String.prefix]; [reflexivity|].
    destruct (ascii_dec "/" d) as [<-|Hd].
    + rewrite Ascii.eqb_refl. destruct r'; reflexivity.
    + symmetry. apply Ascii.eqb_neq. congruence.
  - assert (E : Ascii.eqb c "/"%char = false)
      by (apply Ascii.eqb_neq; congruence).
    rewrite E. reflexivity.
Qed.

Lemma sub_scan_step m prev (c : ascii) (r : string) :
  sub_scan m prev O (String c r)
  = match m prev (String c r) with
    | Some (n, replacement) =>
        (replacement ++ sub_scan m (Some c) (Nat.pred n) r)%string
    | None => String c (sub_scan m (Some c) O r)
    end.
Proof. reflexivity. Qed.

Lemma sub_scan_skip m prev (k : nat) (c : ascii) (r : string) :
  sub_scan m prev (S k) (String c r) = sub_scan m (Some c) k r.
Proof. reflexivity. Qed.

(** What the removal of line comments leaves: no two adjacent slashes;
    and the result begins with a slash only if the text does. *)
Lemma line_comment_scan (s : string) :
  forall prev skip,
    contains "//" (sub_scan m_line_comment prev skip s) = false /\
    (skip = O ->
     str_head (sub_scan m_line_comment prev skip s) = Some "/"%char ->
     str_head s = Some "/"%char).
Proof.
  induction s as [|c r IH]; intros prev skip.
  - cbn. split; [reflexivity | auto].
  - destruct skip as [|k].
    + rewrite sub_scan_step.
      destruct (m_line_comment prev (String c r)) as [[n rep]|] eqn:Em.
      * unfold m_line_comment in Em.
        destruct (String.prefix "//" (String c r)) eqn:Ep; [|discriminate].
        injection Em as _ <-. cbn [append]. split; [apply IH|].
        intros _ _. rewrite prefix_slashes in Ep.
        apply andb_true_iff in Ep. destruct Ep as [Ec _].
        apply Ascii.eqb_eq in Ec. subst c. reflexivity.
      * unfold m_line_comment in Em.
        destruct (String.prefix "//" (String c r)) eqn:Ep; [discriminate|].
        destruct (IH (Some c) O) as [Hn Hh]. split.
        -- rewrite contains_cons, Hn, orb_false_r.
           rewrite prefix_slashes.
           destruct (Ascii.eqb c "/"%char) eqn:Ec; [|reflexivity].
           cbn [andb].
           destruct (str_head (sub_scan m_line_comment (Some c) 0 r))
             as [d|] eqn:Ed; [|reflexivity].
           destruct (Ascii.eqb d "/"%char) eqn:Edd; [|reflexivity].
           apply Ascii.eqb_eq in Edd. subst d.
           specialize (Hh eq_refl eq_refl).
           rewrite prefix_slashes, Ec, Hh in Ep. cbn in Ep. discriminate.
        -- intros _ H. exact H.
    + rewrite sub_scan_skip. split; [apply IH | discriminate].
Qed.

(** After the removal of line comments no two adjacent slashes are left
    in the text, whether they stood in a comment or inside a string
    literal. *)
Theorem line_comments_leave_no_double_slash (s : string) :
  contains "//" (re_sub m_line_comment s) = false.
Proof. apply line_comment_scan. Qed.

(** Outside single-quoted strings the quote converter copies its
    input. *)
Lemma single_to_double_copy (fuel : nat) :
  forall s mode,
    (String.length s <= fuel)%nat ->
    mode <> InSingle ->
    str_forall (fun c => negb (Ascii.eqb c ch_squote)) s = true ->
    single_to_double mode s = s.
Proof.
  induction fuel as [|fuel IH]; intros s mode Hlen Hm Hs.
  { destruct s; [|cbn in Hlen; lia]. destruct mode; try reflexivity.
    congruence. }
  destruct s as [|c r]; [destruct mode; try reflexivity; congruence|].
  cbn [String.length] in Hlen. cbn [str_forall] in Hs.
  apply andb_true_iff in Hs. destruct Hs as [Hc Hr].
  apply negb_true_iff in Hc.
  destruct mode; [| |congruence]; cbn [single_to_double].
  - rewrite Hc. destruct (Ascii.eqb c ch_dquote);
      f_equal; apply IH; try assumption; try lia; discriminate.
  - destruct (Ascii.eqb c ch_dquote).
    { f_equal; apply IH; try assumption; try lia; discriminate. }
    destruct (Ascii.eqb c ch_bslash).
    + destruct r as [|c2 r']; [reflexivity|].
      cbn [str_forall] in Hr. apply andb_true_iff in Hr.
      destruct Hr as [_ Hr']. cbn [String.length] in Hlen.
      do 2 f_equal. apply IH; try assumption; try lia; discriminate.
    + f_equal; apply IH; try assumption; try lia; discriminate.
Qed.

(** A text without a single quote passes [_single_to_double_quotes]
    unchanged. *)
Theorem single_to_double_quotes_identity (s : string) :
  str_forall (fun c => negb (Ascii.eqb c ch_squote)) s = true ->
  _single_to_double_quotes s = s.
Proof.
  intros H. apply (single_to_double_copy (String.length s));
    [lia | discriminate | exact H].
Qed.

(** The theorem applied to a text with a double-quoted string that
    holds an escaped double quote. *)
Lemma single_to_double_quotes_identity_witness :
  let q := str1 ch_dquote in
  let text := ("{ k: " ++ q ++ "x\" ++ q ++ "y" ++ q ++ ", b: [1, 2] }")%string in
  _single_to_double_quotes text = text.
Proof.
  apply (single_to_double_quotes_identity
           ("{ k: " ++ str1 ch_dquote ++ "x\" ++ str1 ch_dquote ++ "y"
            ++ str1 ch_dquote ++ ", b: [1, 2] }")%string).
  reflexivity.
Defined.

(** The token undefined is mapped to null only where it stands behind a
    colon and exactly one space.  The normalizer quotes the bare key and
    keeps what follows the colon: with one space the value becomes null;
    with no space, or with two, the token is left in the text handed to
    [json.loads]. *)
Theorem undefined_needs_colon_space :
  let q := str1 ch_dquote in
  normalize "{a: undefined}" = ("{ " ++ q ++ "a" ++ q ++ ": null}")%string /\
  normalize "{a:undefined}" = ("{ " ++ q ++ "a" ++ q ++ ":undefined}")%string /\
  normalize "{a:  undefined}"
  = ("{ " ++ q ++ "a" ++ q ++ ":  undefined}")%string.
Proof. cbv zeta. repeat split; vm_compute; reflexivity. Qed.

End NormalizerClaims.

(** ** HTML cleanup *)

Module StringFacts.
Import TokenFacts.

Lemma app_nil_r_s (s : string) : (s ++ EmptyString)%string = s.
Proof. induction s as [|c r IH]; cbn; [reflexivity | f_equal; exact IH]. Qed.

Lemma app_assoc_s (a b c : string) :
  ((a ++ b) ++ c)%string = (a ++ (b ++ c))%string.
Proof. induction a as [|x r IH]; cbn; [reflexivity | f_equal; exact IH]. Qed.

Lemma rev_onto_app (s acc : string) :
  str_rev_onto s acc = (str_rev s ++ acc)%string.
Proof.
  unfold str_rev. revert acc. induction s as [|c r IH]; intros acc;
    cbn [str_rev_onto]; [reflexivity|].
  rewrite (IH (String c acc)), (IH (String c EmptyString)), app_assoc_s.
  reflexivity.
Qed.

Lemma rev_cons (c : ascii) (r : string) :
  str_rev (String c r) = (str_rev r ++ str1 c)%string.
Proof. unfold str_rev at 1. cbn [str_rev_onto]. apply rev_onto_app. Qed.

Lemma rev_app (a b : string) :
  str_rev (a ++ b) = (str_rev b ++ str_rev a)%string.
Proof.
  induction a as [|c r IH]; cbn [append].
  - cbn. rewrite app_nil_r_s. reflexivity.
  - rewrite !rev_cons, IH, app_assoc_s. reflexivity.
Qed.

Lemma rev_involutive (s : string) : str_rev (str_rev s) = s.
Proof.
  induction s as [|c r IH]; [reflexivity|].
  rewrite rev_cons, rev_app, IH. reflexivity.
Qed.

Lemma last_rev (s : string) : str_last (str_rev s) = str_head s.
Proof.
  destruct s as [|c r]; [reflexivity|].
  rewrite rev_cons. apply str_last_snoc.
Qed.

Lemma lstrip_suffix (s : string) : exists p, s = (p ++ lstrip s)%string.
Proof.
  induction s as [|c r IH]; [exists EmptyString; reflexivity|].
  cbn [lstrip]. destruct (is_space c).
  - destruct IH as (p & Hp). exists (String c p). cbn. f_equal. exact Hp.
  - exists EmptyString. reflexivity.
Qed.

Lemma lstrip_head (s : string) : head_is is_space (lstrip s) = false.
Proof.
  induction s as [|c r IH]; [reflexivity|].
  cbn [lstrip]. destruct (is_space c) eqn:E; [exact IH|].
  unfold head_is. cbn. exact E.
Qed.

Lemma rstrip_prefix (s : string) : exists q, s = (rstrip s ++ q)%string.
Proof.
  unfold rstrip. destruct (lstrip_suffix (str_rev s)) as (p & Hp).
  exists (str_rev p).
  rewrite <- rev_app, <- Hp, rev_involutive. reflexivity.
Qed.

Lemma rstrip_last (s : string) : last_is is_space (rstrip s) = false.
Proof.
  unfold rstrip, last_is. rewrite last_rev.
  apply (lstrip_head (str_rev s)).
Qed.

Lemma contains_cons_s (sub : string) (c : ascii) (r : string) :
  contains sub (String c r) = String.prefix sub (String c r) || contains sub r.
Proof. reflexivity. Qed.

Lemma prefix_app (x a b : string) :
  String.prefix x a = true -> String.prefix x (a ++ b) = true.
Proof.
  revert a. induction x as [|c r IH]; intros a H.
  { destruct a; cbn; [destruct b|]; reflexivity. }
  destruct a as [|d a']; cbn in *; [discriminate|].
  destruct (ascii_dec c d); [|discriminate]. apply IH. exact H.
Qed.

Lemma contains_app_l (x a b : string) :
  contains x a = true -> contains x (a ++ b) = true.
Proof.
  induction a as [|c r IH]; intros H.
  - cbn in H. rewrite orb_false_r in H.
    destruct x; [|discriminate]. destruct b; reflexivity.
  - cbn [append]. rewrite contains_cons_s in *.
    apply orb_true_iff in H. apply orb_true_iff. destruct H as [H|H].
    + left. apply (prefix_app x (String c r) b H).
    + right. apply IH. exact H.
Qed.

Lemma contains_app_r (x a b : string) :
  contains x b = true -> contains x (a ++ b) = true.
Proof.
  intros H. induction a as [|c r IH]; [exact H|].
  cbn [append]. rewrite contains_cons_s, IH. apply orb_true_r.
Qed.

End StringFacts.

Module CleanHtmlClaims.
Import TokenFacts NormalizerClaims StringFacts.

Lemma prefix_two_spaces (c : ascii) (r : string) :
  String.prefix "  " (String c r) = true ->
  Ascii.eqb c " "%char = true /\ head_is is_space r = true.
Proof.
  cbn [String.prefix].
  destruct (ascii_dec " " c) as [<-|]; [|discriminate].
  destruct r as [|d r']; cbn [String.prefix]; [discriminate|].
  destruct (ascii_dec " " d) as [<-|]; [|discriminate].
  intros _. split; reflexivity.
Qed.

Lemma span_len_cons (P : ascii -> bool) (c : ascii) (r : string) :
  span_len P (String c r) = if P c then S (span_len P r) else O.
Proof. reflexivity. Qed.

(** Behind a run of white space that has been skipped the scan does not
    begin with white space. *)
Lemma spaces_after_skip (s : string) :
  forall prev skip,
    span_len is_space s = skip ->
    head_is is_space (sub_scan m_spaces prev skip s) = false.
Proof.
  induction s as [|c r IH]; intros prev skip Hs; subst skip.
  - reflexivity.
  - rewrite span_len_cons. destruct (is_space c) eqn:Ec.
    + rewrite sub_scan_skip. apply IH. reflexivity.
    + rewrite sub_scan_step. unfold m_spaces.
      rewrite span_len_cons, Ec. unfold head_is. cbn. exact Ec.
Qed.

Lemma spaces_scan (s : string) :
  forall prev skip,
    str_forall ws_char (sub_scan m_spaces prev skip s) = true /\
    contains "  " (sub_scan m_spaces prev skip s) = false.
Proof.
  induction s as [|c r IH]; intros prev skip.
  - split; reflexivity.
  - destruct skip as [|k]; [|rewrite sub_scan_skip; apply IH].
    rewrite sub_scan_step.
    destruct (m_spaces prev (String c r)) as [[n rep]|] eqn:Em;
      unfold m_spaces in Em; rewrite span_len_cons in Em;
      destruct (is_space c) eqn:Ec; try discriminate.
    + injection Em as <- <-. cbn [Nat.pred append].
      destruct (IH (Some c) (span_len is_space r)) as [Ha Hn].
      pose proof (spaces_after_skip r (Some c) _ eq_refl) as Hh.
      split.
      * cbn [str_forall]. rewrite Ha. reflexivity.
      * rewrite contains_cons_s, Hn, orb_false_r.
        destruct (String.prefix "  "
                    (String " " (sub_scan m_spaces (Some c)
                                   (span_len is_space r) r))) eqn:Ep;
          [|reflexivity].
        apply prefix_two_spaces in Ep. destruct Ep as [_ Ep]. congruence.
    + destruct (IH (Some c) O) as [Ha Hn]. split.
      * cbn [str_forall]. rewrite Ha. unfold ws_char. rewrite Ec. reflexivity.
      * rewrite contains_cons_s, Hn, orb_false_r.
        destruct (String.prefix "  "
                    (String c (sub_scan m_spaces (Some c) 0 r))) eqn:Ep;
          [|reflexivity].
        apply prefix_two_spaces in Ep. destruct Ep as [Ep _].
        apply Ascii.eqb_eq in Ep. subst c. discriminate.
Qed.

Lemma head_is_app (P : ascii -> bool) (t q : string) :
  head_is P (t ++ q) = false -> head_is P t = false.
Proof. destruct t as [|c r]; [reflexivity|]. intros H. exact H. Qed.

(** Stripping a text in which white space has been collapsed gives a
    text with normalised white space. *)
Lemma strip_normal (u : string) :
  str_forall ws_char u = true -> contains "  " u = false ->
  ws_normal (strip u) = true.
Proof.
  intros Ha Hn. unfold strip.
  destruct (lstrip_suffix u) as (p & Hp).
  pose proof (lstrip_head u) as Hh.
  set (v := lstrip u) in *.
  destruct (rstrip_prefix v) as (q & Hq).
  pose proof (rstrip_last v) as Hl.
  set (t := rstrip v) in *.
  rewrite Hq in Hp, Hh.
  assert (Hat : str_forall ws_char t = true).
  { rewrite Hp, !str_forall_app in Ha.
    apply andb_true_iff in Ha. destruct Ha as [_ Ha].
    apply andb_true_iff in Ha. tauto. }
  assert (Hnt : contains "  " t = false).
  { destruct (contains "  " t) eqn:E; [|reflexivity].
    rewrite Hp, (contains_app_r _ p _ (contains_app_l _ t q E)) in Hn.
    discriminate. }
  unfold ws_normal. fold ws_char.
  rewrite Hat, Hnt, Hl, (head_is_app _ t q Hh). reflexivity.
Qed.

(** The text [_clean_html] returns has normalised white space: every
    white-space character in it is a single space between two other
    characters. *)
Theorem clean_html_whitespace_normal (text : string) :
  ws_normal (_clean_html text) = true.
Proof.
  unfold _clean_html. destruct text as [|c r]; [reflexivity|].
  cbv zeta. apply strip_normal; apply spaces_scan.
Qed.

End CleanHtmlClaims.

(** ** Term frequency and document length *)

Module LengthClaims.
Import TfCounterexample.
Local Open Scope R_scope.

(** One more occurrence of a query term can lower a document's score:
    the occurrence lengthens the document, and the length normalisation
    can outweigh the gain in term frequency.  There are a corpus, a query
    and a query term such that adding one occurrence of the term to the
    first document, nothing else changed, gives this document a strictly
    lower score. *)
Theorem score_not_monotone_in_occurrences :
  exists (docs docs' : list Passage) (query term : string) (s s' : list R),
    In term (_tokenize query) /\
    tokens_of (nth 0 docs' unbound) = term :: tokens_of (nth 0 docs unbound) /\
    tl docs' = tl docs /\
    map weight docs' = map weight docs /\
    bm25_scores docs query = Ok s /\
    bm25_scores docs' query = Ok s' /\
    nth 0 s' 0 < nth 0 s 0.
Proof.
  destruct more_occurrences_can_lower_score
    as (Ht & Htl & s & s' & Hs & Hs' & Hlt).
  exists tf_docs, tf_docs_more, "alpha beta", "alpha", s, s'.
  split; [left; reflexivity|]. split; [exact Ht|]. split; [exact Htl|].
  split; [reflexivity|]. split; [exact Hs|]. split; [exact Hs'|]. exact Hlt.
Qed.

End LengthClaims.

(** ** The chunker *)

Module ChunkFacts.

Lemma wp_ok {A} (a : A) (Q : A -> Prop) : Q a -> wp (Ok a) Q.
Proof. intros H. exact H. Qed.

Lemma wp_bind {A B} (r : Result A) (k : A -> Result B) (Q : B -> Prop) :
  wp r (fun _ => True) -> (forall a, wp (k a) Q) -> wp (rbind r k) Q.
Proof. destruct r as [a|e]; cbn; auto. Qed.

Lemma wp_bind_eq {A B} (r : Result A) (k : A -> Result B) (Q : B -> Prop) :
  wp r (fun _ => True) -> (forall a, r = Ok a -> wp (k a) Q) ->
  wp (rbind r k) Q.
Proof. destruct r as [a|e]; cbn; auto. Qed.

Lemma wp_bind_post {A B} (r : Result A) (k : A -> Result B)
      (P : A -> Prop) (Q : B -> Prop) :
  wp r P -> (forall a, P a -> wp (k a) Q) -> wp (rbind r k) Q.
Proof. destruct r as [a|e]; cbn; auto. Qed.

Lemma wp_weaken {A} (r : Result A) (P Q : A -> Prop) :
  wp r P -> (forall a, P a -> Q a) -> wp r Q.
Proof. destruct r as [a|e]; cbn; auto. Qed.

Lemma wp_mapR {A B} (f : A -> Result B) (l : list A) (Q : B -> Prop) :
  (forall x, wp (f x) Q) -> wp (mapR f l) (Forall Q).
Proof.
  intros H. induction l as [|x r IH]; cbn [mapR]; [constructor|].
  apply (wp_bind_post _ _ Q); [apply H|]. intros y Hy.
  apply (wp_bind_post _ _ (Forall Q)); [exact IH|]. intros ys Hys.
  constructor; assumption.
Qed.

Lemma wp_mapR_any {A B} (f : A -> Result B) (l : list A) :
  (forall x, wp (f x) (fun _ => True)) -> wp (mapR f l) (fun _ => True).
Proof.
  intros H. apply (wp_weaken _ (Forall (fun _ => True))); [|auto].
  apply wp_mapR. exact H.
Qed.

Lemma Forall_concat {A} (Q : A -> Prop) (ls : list (list A)) :
  Forall (Forall Q) ls -> Forall Q (List.concat ls).
Proof.
  induction 1 as [|l r Hl _ IH]; cbn [List.concat]; [constructor|].
  apply Forall_app. split; assumption.
Qed.

Section Library.
Variable py_str : json -> string.
Variable float_truthy : string -> bool.

Lemma wp_get d k default :
  wp (py_get d k default) (fun _ => True).
Proof. destruct d; cbn; unfold chunk_exn; auto. Qed.

Lemma wp_getitem d k : wp (py_getitem d k) (fun _ => True).
Proof.
  destruct d; cbn; unfold chunk_exn; auto.
  destruct (dict_has members k); cbn; unfold chunk_exn; auto.
Qed.

Lemma wp_iter v : wp (py_iter v) (fun _ => True).
Proof. destruct v; cbn; unfold chunk_exn; auto. Qed.

Lemma wp_len v : wp (py_len v) (fun _ => True).
Proof. destruct v; cbn; unfold chunk_exn; auto. Qed.

Lemma wp_lower v : wp (py_lower v) (fun _ => True).
Proof. destruct v; cbn; unfold chunk_exn; auto. Qed.

Lemma wp_join sep v : wp (py_join sep v) (fun _ => True).
Proof.
  unfold py_join. apply wp_bind; [apply wp_iter|]. intros items.
  apply wp_bind; [|intros; exact I].
  apply wp_mapR_any. intros [] ; cbn; unfold chunk_exn; auto.
Qed.

Lemma str_chars_length (s : string) :
  List.length (str_chars s) = String.length s.
Proof. induction s as [|c r IH]; cbn; [reflexivity | f_equal; exact IH]. Qed.

(** Behind the length test of the identity table an index is in
    range. *)
Lemma wp_index v n i :
  py_len v = Ok n -> (i < n)%nat -> wp (py_index v i) (fun _ => True).
Proof.
  intros Hn Hi. destruct v; cbn in *; unfold chunk_exn; auto;
    injection Hn as <-.
  - destruct (nth_error (str_chars s) i) eqn:E; cbn; [exact I|].
    apply nth_error_None in E. rewrite str_chars_length in E. lia.
  - destruct (nth_error items i) eqn:E; cbn; [exact I|].
    apply nth_error_None in E. lia.
Qed.

Lemma wp_part_if d k f :
  wp (part_if float_truthy d k f) (fun _ => True).
Proof.
  unfold part_if. apply wp_bind; [apply wp_get|]. intros v.
  destruct (py_truthy float_truthy v); [|exact I].
  apply wp_bind; [apply wp_getitem|]. intros; exact I.
Qed.

Lemma wp_joined_part d k label sep :
  wp (joined_part py_str float_truthy d k label sep) (fun _ => True).
Proof.
  unfold joined_part. apply wp_bind; [apply wp_get|]. intros v.
  destruct (py_truthy float_truthy _); [|exact I].
  apply wp_bind; [apply wp_iter|]. intros; exact I.
Qed.

Lemma wp_sub_part d k f :
  (forall x, wp (f x) (fun _ => True)) ->
  wp (sub_part float_truthy d k f) (fun _ => True).
Proof.
  intros Hf. unfold sub_part. apply wp_bind; [apply wp_get|]. intros x.
  destruct (py_truthy float_truthy x); [|exact I].
  apply wp_bind; [apply Hf|]. intros; exact I.
Qed.


Ltac wp_base :=
  first [ apply wp_get | apply wp_getitem | apply wp_iter | apply wp_len
        | apply wp_lower | apply wp_join | apply wp_part_if
        | apply wp_joined_part ].

Ltac wp_go :=
  repeat lazymatch goal with
         | |- wp (rbind _ _) _ => apply wp_bind; [wp_side | intros ?]
         | |- wp (if ?c then _ else _) _ => destruct c
         | |- wp (Ok _) _ => apply wp_ok
         end
with wp_side :=
  first [ wp_base
        | apply wp_mapR_any; intros ?; wp_go; exact I
        | apply wp_sub_part; intros ?; wp_go; exact I
        | wp_go; exact I ].

Ltac in_list := cbn [In]; repeat (first [left; reflexivity | right]).

Lemma chunked_passage_of tk sec sub c tags w :
  In w chunk_weights -> In sec chunk_sections ->
  chunked tk (passage_of tk sec sub c tags w).
Proof. intros Hw Hs. repeat split; assumption. Qed.

Ltac chunked_list :=
  repeat first [ apply Forall_nil
               | apply Forall_cons
               | apply Forall_app; split
               | apply chunked_passage_of; unfold chunk_weights, chunk_sections;
                 in_list
               | split; [reflexivity | split; unfold chunk_weights,
                                         chunk_sections; in_list]
               | assumption ].

Lemma wp_chunk_overview tk data :
  wp (chunk_overview py_str float_truthy tk data) (Forall (chunked tk)).
Proof.
  unfold chunk_overview. wp_go.
  all: match goal with
       | |- wp (match ?l with [] => _ | _ => _ end) _ => destruct l
       | _ => idtac
       end.
  all: wp_go; chunked_list.
Qed.

Lemma wp_chunk_metrics tk data :
  wp (chunk_metrics py_str float_truthy tk data) (Forall (chunked tk)).
Proof. unfold chunk_metrics. wp_go; chunked_list. Qed.

Lemma wp_chunk_identity tk data :
  wp (chunk_identity py_str float_truthy tk data) (Forall (chunked tk)).
Proof.
  unfold chunk_identity.
  apply wp_bind; [wp_base|]. intros identity.
  apply wp_bind; [wp_base|]. intros id_rows.
  destruct (py_truthy float_truthy id_rows); [|constructor].
  apply wp_bind; [wp_base|]. intros rows.
  apply wp_bind; [|intros; apply wp_ok; chunked_list].
  apply wp_mapR_any. intros row.
  apply wp_bind; [wp_base|]. intros cells.
  apply wp_bind; [|intros; exact I].
  apply wp_mapR_any. intros cell.
  apply wp_bind_eq; [wp_base|]. intros n Hn.
  destruct (2 <=? n)%nat eqn:E; [|exact I].
  apply Nat.leb_le in E.
  apply wp_bind; [apply (wp_index cell n); [exact Hn | lia]|]. intros c0.
  apply wp_bind; [apply (wp_index cell n); [exact Hn | lia]|]. intros c1.
  exact I.
Qed.

Lemma wp_chunk_skew tk data :
  wp (chunk_skew py_str float_truthy tk data) (Forall (chunked tk)).
Proof. unfold chunk_skew. wp_go; chunked_list. Qed.

Lemma wp_chunk_verdict tk data :
  wp (chunk_verdict py_str float_truthy tk data) (Forall (chunked tk)).
Proof. unfold chunk_verdict. wp_go; chunked_list. Qed.

Lemma wp_chunk_hypothesis tk hyp :
  wp (chunk_hypothesis py_str float_truthy tk hyp) (chunked tk).
Proof. unfold chunk_hypothesis. wp_go. chunked_list. Qed.

Lemma wp_chunk_hypotheses tk data :
  wp (chunk_hypotheses py_str float_truthy tk data) (Forall (chunked tk)).
Proof.
  unfold chunk_hypotheses.
  apply wp_bind; [wp_base|]. intros hyps.
  apply wp_bind; [wp_base|]. intros items.
  apply wp_mapR. intros hyp. apply wp_chunk_hypothesis.
Qed.

Lemma wp_chunk_narrative tk data :
  wp (chunk_narrative py_str float_truthy tk data) (Forall (chunked tk)).
Proof.
  unfold chunk_narrative.
  apply wp_bind; [wp_base|]. intros narrative.
  destruct (py_truthy float_truthy narrative); [|constructor].
  apply wp_bind; [wp_base|]. intros the.
  apply (wp_bind_post _ _ (Forall (chunked tk))); [wp_go; chunked_list|].
  intros n1 H1.
  apply wp_bind; [wp_base|]. intros pi.
  apply (wp_bind_post _ _ (Forall (chunked tk))); [wp_go; chunked_list|].
  intros n2 H2.
  apply wp_bind; [wp_base|]. intros ec.
  apply (wp_bind_post _ _ (Forall (chunked tk))); [wp_go; chunked_list|].
  intros n3 H3.
  apply wp_bind; [wp_base|]. intros ns.
  apply (wp_bind_post _ _ (Forall (chunked tk))); [wp_go; chunked_list|].
  intros n4 H4.
  apply wp_ok. chunked_list.
Qed.

Lemma wp_chunk_card tk card :
  wp (chunk_card py_str float_truthy tk card) (Forall (chunked tk)).
Proof. unfold chunk_card. wp_go; chunked_list. Qed.

Lemma wp_chunk_cards tk evidence :
  wp (chunk_cards py_str float_truthy tk evidence) (Forall (chunked tk)).
Proof.
  unfold chunk_cards.
  apply wp_bind; [wp_base|]. intros cards.
  apply wp_bind; [wp_base|]. intros items.
  apply (wp_bind_post _ _ (Forall (Forall (chunked tk)))).
  - apply wp_mapR. intros card. apply wp_chunk_card.
  - intros ps Hps. apply wp_ok, Forall_concat, Hps.
Qed.

Lemma wp_chunk_alignment tk evidence :
  wp (chunk_alignment py_str float_truthy tk evidence) (Forall (chunked tk)).
Proof. unfold chunk_alignment. wp_go; chunked_list. Qed.

Lemma wp_chunk_disc_row tk ir :
  wp (chunk_disc_row py_str float_truthy tk ir) (chunked tk).
Proof. unfold chunk_disc_row. cbv zeta. wp_go. chunked_list. Qed.

Lemma wp_chunk_discriminators tk data :
  wp (chunk_discriminators py_str float_truthy tk data)
     (Forall (chunked tk)).
Proof.
  unfold chunk_discriminators.
  apply wp_bind; [wp_base|]. intros disc.
  destruct (py_truthy float_truthy disc); [|constructor].
  apply wp_bind; [wp_base|]. intros rows.
  apply wp_bind; [wp_base|]. intros items.
  apply (wp_bind_post _ _ (Forall (chunked tk))).
  { apply wp_mapR. intros ir. apply wp_chunk_disc_row. }
  intros ps Hps.
  apply wp_bind; [wp_base|]. intros nd.
  apply (wp_bind_post _ _ (Forall (chunked tk))); [wp_go; chunked_list|].
  intros q Hq. apply wp_ok. chunked_list.
Qed.

Lemma wp_chunk_tripwire tk tw :
  wp (chunk_tripwire py_str float_truthy tk tw) (chunked tk).
Proof. unfold chunk_tripwire. wp_go. chunked_list. Qed.

Lemma wp_chunk_tripwires tk data :
  wp (chunk_tripwires py_str float_truthy tk data) (Forall (chunked tk)).
Proof.
  unfold chunk_tripwires.
  apply wp_bind; [wp_base|]. intros tripwires.
  apply wp_bind; [wp_base|]. intros cards.
  apply wp_bind; [wp_base|]. intros items.
  apply wp_mapR. intros tw. apply wp_chunk_tripwire.
Qed.

Lemma wp_chunk_gaps tk data :
  wp (chunk_gaps py_str float_truthy tk data) (Forall (chunked tk)).
Proof. unfold chunk_gaps. wp_go; chunked_list. Qed.

Lemma wp_chunk_technical tk data :
  wp (chunk_technical py_str float_truthy tk data) (Forall (chunked tk)).
Proof. unfold chunk_technical. wp_go; chunked_list. Qed.

Lemma wp_chunk_reference tk ref :
  wp (chunk_reference py_str float_truthy tk ref) (Forall (chunked tk)).
Proof. unfold chunk_reference. wp_go; chunked_list. Qed.

Lemma wp_chunk_freshness tk fresh :
  wp (chunk_freshness py_str float_truthy tk fresh) (Forall (chunked tk)).
Proof. unfold chunk_freshness. wp_go; chunked_list. Qed.

Lemma wp_chunk_stock tk data ref fresh :
  wp (_chunk_stock py_str float_truthy tk data ref fresh)
     (Forall (chunked tk)).
Proof.
  unfold _chunk_stock.
  apply (wp_bind_post _ _ _ _ (wp_chunk_overview tk data)). intros p1 H1.
  apply (wp_bind_post _ _ _ _ (wp_chunk_metrics tk data)). intros p2 H2.
  apply (wp_bind_post _ _ _ _ (wp_chunk_identity tk data)). intros p3 H3.
  apply (wp_bind_post _ _ _ _ (wp_chunk_skew tk data)). intros p4 H4.
  apply (wp_bind_post _ _ _ _ (wp_chunk_verdict tk data)). intros p5 H5.
  apply (wp_bind_post _ _ _ _ (wp_chunk_hypotheses tk data)). intros p6 H6.
  apply (wp_bind_post _ _ _ _ (wp_chunk_narrative tk data)). intros p7 H7.
  apply wp_bind; [wp_base|]. intros evidence.
  apply (wp_bind_post _ _ _ _ (wp_chunk_cards tk evidence)). intros p8 H8.
  apply (wp_bind_post _ _ _ _ (wp_chunk_alignment tk evidence)).
  intros p9 H9.
  apply (wp_bind_post _ _ _ _ (wp_chunk_discriminators tk data)).
  intros p10 H10.
  apply (wp_bind_post _ _ _ _ (wp_chunk_tripwires tk data)). intros p11 H11.
  apply (wp_bind_post _ _ _ _ (wp_chunk_gaps tk data)). intros p12 H12.
  apply (wp_bind_post _ _ _ _ (wp_chunk_technical tk data)). intros p13 H13.
  apply (wp_bind_post _ _ _ _ (wp_chunk_reference tk ref)). intros p14 H14.
  apply (wp_bind_post _ _ _ _ (wp_chunk_freshness tk fresh)).
  intros p15 H15.
  apply wp_ok. chunked_list.
Qed.

End Library.

End ChunkFacts.

Module ChunkClaims.
Import ChunkFacts.
Local Open Scope R_scope.

Lemma chunk_weights_pos (w : R) : In w chunk_weights -> 0 < w.
Proof.
  unfold chunk_weights. cbn [In].
  intros H. repeat (destruct H as [<-|H]; [lra|]). contradiction.
Qed.

(** Every passage [_chunk_stock] returns carries the ticker it was called
    with, one of the nine weights 0.5 to 1.3 (so a positive weight) and
    one of the twelve section names; and the only exceptions it raises,
    on data of an unexpected type, are [AttributeError], [TypeError] and
    [KeyError]. *)
Theorem chunk_stock_passages
        (py_str : json -> string) (float_truthy : string -> bool)
        (tk : string) (data ref fresh : json) :
  match _chunk_stock py_str float_truthy tk data ref fresh with
  | Ok ps =>
      Forall (fun p => ticker p = tk /\ 0 < weight p /\
                       In (weight p) chunk_weights /\
                       In (section p) chunk_sections) ps
  | Err e => e = AttributeError \/ e = TypeError \/ e = KeyError
  end.
Proof.
  pose proof (wp_chunk_stock py_str float_truthy tk data ref fresh) as H.
  destruct (_chunk_stock py_str float_truthy tk data ref fresh) as [ps|e];
    [|exact H].
  cbn [wp] in H. revert H. apply Forall_impl.
  intros p (Ht & Hw & Hs). repeat split; try assumption.
  apply chunk_weights_pos, Hw.
Qed.

End ChunkClaims.

(** ** Extraction of the ticker objects *)

Module ExtractFacts.
Import TokenFacts.

Lemma span_len_le (P : ascii -> bool) (s : string) :
  (span_len P s <= String.length s)%nat.
Proof.
  induction s as [|c r IH]; cbn; [lia|]. destruct (P c); cbn; lia.
Qed.

Lemma take_span_forall (P : ascii -> bool) (s : string) :
  str_forall P (str_take (span_len P s) s) = true.
Proof.
  induction s as [|c r IH]; cbn [span_len]; [reflexivity|].
  destruct (P c) eqn:E; [|reflexivity].
  cbn [str_take str_forall]. rewrite E, IH. reflexivity.
Qed.

Lemma take_length (n : nat) (s : string) :
  (n <= String.length s)%nat -> String.length (str_take n s) = n.
Proof.
  revert s. induction n as [|n IH]; intros [|c r] H; cbn in *;
    try reflexivity; try lia.
  f_equal. apply IH. lia.
Qed.

(** The group of a match of the ticker pattern is a ticker symbol. *)
Lemma m_stock_shape (t : string) (n : nat) (tk : string) :
  m_stock t = Some (n, tk) -> ticker_shape tk = true.
Proof.
  unfold m_stock. destruct (String.prefix "STOCK_DATA." t); [|discriminate].
  set (t1 := str_drop 11 t).
  destruct ((2 <=? span_len is_upper t1)%nat
            && (span_len is_upper t1 <=? 5)%nat) eqn:E; [|discriminate].
  destruct (m_assign_brace _); [|discriminate].
  intros [= _ <-]. unfold ticker_shape.
  rewrite take_length by apply span_len_le.
  rewrite E, take_span_forall. reflexivity.
Qed.

Lemma finditer_stock_shape (s : string) :
  forall pos skip,
    Forall (fun m => ticker_shape (fst m) = true)
           (finditer_stock pos skip s).
Proof.
  induction s as [|c r IH]; intros pos skip; cbn [finditer_stock];
    [constructor|].
  destruct skip as [|k]; [|apply IH].
  destruct (m_stock (String c r)) as [[n tk]|] eqn:E; [|apply IH].
  constructor; [|apply IH]. cbn [fst]. apply (m_stock_shape _ _ _ E).
Qed.

Lemma dict_set_keys {V} (d : list (string * V)) (k : string) (v : V) :
  map fst (dict_set d k v)
  = if str_mem k (map fst d) then map fst d else map fst d ++ [k].
Proof.
  induction d as [|[k' v'] r IH]; cbn [dict_set map fst str_mem existsb];
    [reflexivity|].
  fold (str_mem k (map fst r)).
  destruct (String.eqb k k') eqn:E; cbn [orb map fst]; [reflexivity|].
  rewrite IH. destruct (str_mem k (map fst r)); reflexivity.
Qed.

Lemma dict_set_fresh {V} (d : list (string * V)) (k : string) (v : V) :
  ~ In k (map fst d) -> dict_set d k v = d ++ [(k, v)].
Proof.
  induction d as [|[k' v'] r IH]; cbn [dict_set map fst In app]; intros H;
    [reflexivity|].
  destruct (String.eqb k k') eqn:E.
  - apply String.eqb_eq in E. subst. tauto.
  - f_equal. apply IH. tauto.
Qed.

Lemma dict_set_In {V} (d : list (string * V)) (k : string) (v : V) kv :
  In kv (dict_set d k v) -> In kv d \/ kv = (k, v).
Proof.
  induction d as [|[k' v'] r IH]; cbn [dict_set In].
  - intros [<-|[]]. auto.
  - destruct (String.eqb k k') eqn:E; cbn [In].
    + apply String.eqb_eq in E. subst k'. intros [<-|H]; auto.
    + intros [<-|H]; auto. destruct (IH H); auto.
Qed.

Lemma dict_set_NoDup {V} (d : list (string * V)) (k : string) (v : V) :
  NoDup (map fst d) -> NoDup (map fst (dict_set d k v)).
Proof.
  intros H. rewrite dict_set_keys.
  destruct (str_mem k (map fst d)) eqn:E; [exact H|].
  apply NoDup_app; [exact H | repeat constructor; intros [] |].
  intros x Hx [<-|[]].
  apply BM25Facts.str_mem_In in Hx. congruence.
Qed.

Section Library.
Variable json_loads : string -> option json.
Variable float_truthy : string -> bool.

(** The tickers [_extract_js_objects] returns are distinct ticker
    symbols, and the objects it returns are true values. *)
Lemma extract_js_objects_inv (html : string) :
  let stocks := _extract_js_objects json_loads float_truthy html in
  NoDup (map fst stocks) /\
  Forall (fun kv => ticker_shape (fst kv) = true /\
                    py_truthy float_truthy (snd kv) = true) stocks.
Proof.
  cbv zeta. unfold _extract_js_objects.
  pose proof (finditer_stock_shape html 0 0) as Hm.
  revert Hm. generalize (finditer_stock 0 0 html). intros ms Hm.
  assert (Hinit : NoDup (map fst (@nil (string * json))) /\
                  Forall (fun kv => ticker_shape (fst kv) = true /\
                                    py_truthy float_truthy (snd kv) = true)
                         []).
  { split; constructor. }
  revert Hinit. generalize (@nil (string * json)).
  induction Hm as [|m r Hmk _ IH]; intros stocks Hinv; cbn [fold_left];
    [exact Hinv|].
  apply IH. destruct Hinv as [Hnd Hall].
  destruct (String.eqb _ EmptyString); [split; assumption|].
  destruct (_js_to_dict json_loads _) as [parsed|]; [|split; assumption].
  destruct (py_truthy float_truthy parsed) eqn:Et; [|split; assumption].
  split; [apply dict_set_NoDup, Hnd|].
  apply Forall_forall. intros kv Hkv.
  apply dict_set_In in Hkv. destruct Hkv as [Hkv| ->].
  - rewrite Forall_forall in Hall. apply Hall, Hkv.
  - cbn [fst snd]. split; assumption.
Qed.

End Library.

End ExtractFacts.

Module ExtractClaims.
Import ExtractFacts.

(** The keys of the dict [_extract_js_objects] returns are pairwise
    distinct ticker symbols of two to five upper-case letters, and every
    value is a true value (an empty object is left out), whatever
    [json.loads] returns. *)
Theorem extract_js_objects_keys
        (json_loads : string -> option json)
        (float_truthy : string -> bool) (html : string) :
  let stocks := _extract_js_objects json_loads float_truthy html in
  NoDup (map fst stocks) /\
  Forall (fun kv =>
            (2 <= String.length (fst kv) <= 5)%nat /\
            str_forall is_upper (fst kv) = true /\
            py_truthy float_truthy (snd kv) = true) stocks.
Proof.
  cbv zeta.
  destruct (extract_js_objects_inv json_loads float_truthy html) as [Hn Ha].
  split; [exact Hn|]. revert Ha. apply Forall_impl.
  intros kv [Hs Ht]. unfold ticker_shape in Hs.
  apply andb_true_iff in Hs. destruct Hs as [Hs Hu].
  apply andb_true_iff in Hs. destruct Hs as [H2 H5].
  apply Nat.leb_le in H2. apply Nat.leb_le in H5. auto.
Qed.

End ExtractClaims.

(** ** The store that [ingest] builds *)

Module IngestFacts.
Import ExtractFacts ChunkFacts.

Lemma mapM_new_Passage (values : list Passage) :
  forall st,
    mapM new_Passage values st
    = (Ok (seq (List.length (heap st)) (List.length values)),
       mkState (heap st ++ values) (_store st) (_all_passages st)).
Proof.
  induction values as [|v r IH]; intros st.
  - cbn. rewrite app_nil_r. destruct st; reflexivity.
  - cbn [mapM]. unfold bind at 1. unfold new_Passage at 1.
    unfold bind at 1. rewrite IH. cbn [heap _store _all_passages ret].
    rewrite length_app, <- app_assoc. cbn [List.length app].
    rewrite Nat.add_1_r. reflexivity.
Qed.

Lemma store_wf_iff (st : State) :
  store_wf st = true
  <-> (forall kv l, In kv (_store st) -> In l (snd kv) ->
                    (l < List.length (heap st))%nat) /\
      (forall l, In l (_all_passages st) -> (l < List.length (heap st))%nat).
Proof.
  unfold store_wf. rewrite andb_true_iff, !forallb_forall. split.
  - intros [H1 H2]. split.
    + intros kv l Hkv Hl. specialize (H1 kv Hkv).
      rewrite forallb_forall in H1. apply Nat.ltb_lt, H1, Hl.
    + intros l Hl. apply Nat.ltb_lt, H2, Hl.
  - intros [H1 H2]. split.
    + intros kv Hkv. apply forallb_forall. intros l Hl.
      apply Nat.ltb_lt. eapply H1; eassumption.
    + intros l Hl. apply Nat.ltb_lt, H2, Hl.
Qed.

Lemma dict_get_found {V} (d : list (string * V)) (k : string) (default : V) :
  In (k, dict_get d k default) d \/ dict_get d k default = default.
Proof.
  induction d as [|[k' v] r IH]; cbn [dict_get In]; [right; reflexivity|].
  destruct (String.eqb k k') eqn:E.
  - apply String.eqb_eq in E. subst. auto.
  - destruct IH; auto.
Qed.

Lemma deref_app_old (h news : Heap) (l : loc) :
  (l < List.length h)%nat -> deref (h ++ news) l = deref h l.
Proof. intros H. unfold deref. apply app_nth1, H. Qed.

Lemma deref_app_new (h news : Heap) (i : nat) :
  deref (h ++ news) (List.length h + i) = nth i news unbound.
Proof.
  unfold deref. rewrite app_nth2 by lia. f_equal. lia.
Qed.

Lemma ingest_inv_init (h : Heap) : ingest_inv (mkState h [] []).
Proof.
  split; [reflexivity|]. split; [reflexivity|]. split; constructor.
Qed.

(** The state after one more ticker [tk] with passages [values]. *)
Lemma ingest_inv_step (st : State) (tk : string) (values : list Passage) :
  ingest_inv st -> ticker_shape tk = true ->
  ~ In tk (map fst (_store st)) ->
  Forall (chunked tk) values ->
  ingest_inv
    (mkState (heap st ++ values)
       (dict_set (_store st) tk
          (seq (List.length (heap st)) (List.length values)))
       (_all_passages st ++ seq (List.length (heap st))
                                (List.length values))).
Proof.
  intros (Hwf & Hall & Hnd & Hch) Hshape Hfresh Hvals.
  rewrite (dict_set_fresh _ _ _ Hfresh).
  apply store_wf_iff in Hwf. destruct Hwf as [Hw1 Hw2].
  split; [|split; [|split]].
  - apply store_wf_iff. cbn [heap _store _all_passages].
    rewrite length_app. split.
    + intros kv l Hkv Hl. apply in_app_or in Hkv.
      destruct Hkv as [Hkv|[<-|[]]].
      * specialize (Hw1 kv l Hkv Hl). lia.
      * cbn [snd] in Hl. apply in_seq in Hl. lia.
    + intros l Hl. apply in_app_or in Hl. destruct Hl as [Hl|Hl].
      * specialize (Hw2 l Hl). lia.
      * apply in_seq in Hl. lia.
  - cbn [_store _all_passages]. rewrite map_app, concat_app, <- Hall.
    cbn. rewrite app_nil_r. reflexivity.
  - cbn [_store]. rewrite map_app. cbn [map fst].
    apply NoDup_app; [exact Hnd | repeat constructor; intros [] |].
    intros x Hx [<-|[]]. contradiction.
  - cbn [_store heap]. apply Forall_app. split.
    + rewrite Forall_forall in *. intros kv Hkv.
      destruct (Hch kv Hkv) as [Hs Hp]. split; [exact Hs|].
      rewrite Forall_forall in *. intros l Hl.
      rewrite deref_app_old by (eapply Hw1; eassumption).
      apply Hp, Hl.
    + constructor; [|constructor]. cbn [fst snd]. split; [exact Hshape|].
      apply Forall_forall. intros l Hl. apply in_seq in Hl.
      replace l with (List.length (heap st) + (l - List.length (heap st)))%nat
        by lia.
      rewrite deref_app_new. rewrite Forall_forall in Hvals.
      apply Hvals, nth_In. lia.
Qed.

Section Library.
Variable json_loads : string -> option json.
Variable py_str : json -> string.
Variable float_truthy : string -> bool.

(** One iteration of the loop of [ingest], in closed form. *)
Lemma ingest_stock_eq (ref_data fresh_data : json) (td : string * json)
      (st : State) :
  ingest_stock py_str float_truthy ref_data fresh_data td st
  = match py_get ref_data (fst td) JNull with
    | Err e => (Err e, st)
    | Ok ref =>
        match py_get fresh_data (fst td) JNull with
        | Err e => (Err e, st)
        | Ok fresh =>
            match _chunk_stock py_str float_truthy (fst td) (snd td)
                    ref fresh with
            | Err e => (Err e, st)
            | Ok values =>
                (Ok tt,
                 mkState (heap st ++ values)
                   (dict_set (_store st) (fst td)
                      (seq (List.length (heap st)) (List.length values)))
                   (_all_passages st
                    ++ seq (List.length (heap st)) (List.length values)))
            end
        end
    end.
Proof.
  unfold ingest_stock. cbv zeta. unfold bind at 1. unfold lift at 1.
  destruct (py_get ref_data (fst td) JNull) as [ref|e]; [|reflexivity].
  unfold bind at 1. unfold lift at 1.
  destruct (py_get fresh_data (fst td) JNull) as [fresh|e]; [|reflexivity].
  unfold bind at 1. unfold lift at 1.
  destruct (_chunk_stock py_str float_truthy (fst td) (snd td) ref fresh)
    as [values|e]; [|reflexivity].
  unfold bind at 1. rewrite mapM_new_Passage.
  unfold bind, get_state, set_store. reflexivity.
Qed.

(** One iteration of the loop of [ingest]: the ticker is added with its
    passages, or an exception is raised and the state is as before. *)
Lemma ingest_stock_step (ref_data fresh_data : json) (td : string * json)
      (st : State) :
  ingest_inv st -> ticker_shape (fst td) = true ->
  ~ In (fst td) (map fst (_store st)) ->
  let r := ingest_stock py_str float_truthy ref_data fresh_data td st in
  ingest_inv (snd r) /\
  heap st = firstn (List.length (heap st)) (heap (snd r)) /\
  match fst r with
  | Ok _ => map fst (_store (snd r)) = map fst (_store st) ++ [fst td]
  | Err e => chunk_exn e
  end.
Proof.
  intros Hinv Hshape Hfresh. cbv zeta. rewrite ingest_stock_eq.
  pose proof (wp_get ref_data (fst td) JNull) as Hr.
  destruct (py_get ref_data (fst td) JNull) as [ref|e];
    [|cbn [fst snd wp] in *; rewrite firstn_all; auto].
  pose proof (wp_get fresh_data (fst td) JNull) as Hf.
  destruct (py_get fresh_data (fst td) JNull) as [fresh|e];
    [|cbn [fst snd wp] in *; rewrite firstn_all; auto].
  pose proof (wp_chunk_stock py_str float_truthy (fst td) (snd td) ref fresh)
    as Hc.
  destruct (_chunk_stock py_str float_truthy (fst td) (snd td) ref fresh)
    as [values|e]; [|cbn [fst snd wp] in *; rewrite firstn_all; auto].
  cbn [wp] in Hc. cbn [fst snd heap _store].
  split; [apply ingest_inv_step; assumption|]. split.
  - rewrite firstn_app, Nat.sub_diag, firstn_all. cbn [firstn].
    rewrite app_nil_r. reflexivity.
  - rewrite (dict_set_fresh _ _ _ Hfresh), map_app. reflexivity.
Qed.

(** The loop of [ingest] over the items [todo]: the invariant holds
    whenever the loop ends; it ends having added all tickers, or with an
    exception of the chunker. *)
Lemma ingest_loop (ref_data fresh_data : json)
      (todo : list (string * json)) :
  forall st,
    ingest_inv st ->
    Forall (fun td => ticker_shape (fst td) = true) todo ->
    NoDup (map fst (_store st) ++ map fst todo) ->
    let r := forM_ (ingest_stock py_str float_truthy ref_data fresh_data)
                   todo st in
    ingest_inv (snd r) /\
    heap st = firstn (List.length (heap st)) (heap (snd r)) /\
    match fst r with
    | Ok _ => map fst (_store (snd r)) = map fst (_store st) ++ map fst todo
    | Err e => chunk_exn e
    end.
Proof.
  induction todo as [|td rest IH]; intros st Hinv Hshape Hnd; cbv zeta.
  - cbn [forM_ ret fst snd map]. rewrite app_nil_r, firstn_all. auto.
  - cbn [forM_]. unfold bind.
    inversion Hshape as [|? ? Hs Hrest]; subst.
    assert (Hfresh : ~ In (fst td) (map fst (_store st))).
    { intros Hin. cbn [map] in Hnd.
      apply NoDup_remove_2 in Hnd. apply Hnd, in_or_app. auto. }
    pose proof (ingest_stock_step ref_data fresh_data td st Hinv Hs Hfresh)
      as Hstep.
    cbv zeta in Hstep.
    destruct (ingest_stock py_str float_truthy ref_data fresh_data td st)
      as [[u|e] st1]; cbn [fst snd] in *.
    + destruct Hstep as (Hinv1 & Hheap & Hkeys).
      assert (Hnd1 : NoDup (map fst (_store st1) ++ map fst rest)).
      { rewrite Hkeys, <- app_assoc. exact Hnd. }
      destruct (IH st1 Hinv1 Hrest Hnd1) as (Hi & Hh & Hk).
      split; [exact Hi|]. split.
      * rewrite Hheap at 1. rewrite Hh at 1.
        rewrite firstn_firstn. f_equal.
        apply (f_equal (@List.length _)) in Hheap.
        rewrite length_firstn in Hheap. lia.
      * destruct (fst (forM_ _ rest st1)); [|exact Hk].
        rewrite Hk, Hkeys, <- app_assoc. reflexivity.
    + destruct Hstep as (Hinv1 & Hheap & He). auto.
Qed.

Lemma ingest_eq (html : string) (st : State) :
  ingest json_loads py_str float_truthy html st
  = match forM_ (ingest_stock py_str float_truthy
                   (_extract_reference_data json_loads float_truthy html)
                   (_extract_freshness_data json_loads float_truthy html))
                (_extract_js_objects json_loads float_truthy html)
                (mkState (heap st) [] []) with
    | (Ok _, st1) => (Ok (_store st1), st1)
    | (Err e, st1) => (Err e, st1)
    end.
Proof.
  unfold ingest. cbv zeta. unfold bind at 1. unfold set_store at 1.
  unfold bind at 1.
  destruct (forM_ _ _ _) as [[u|e] st1]; reflexivity.
Qed.

(** The outcome of [ingest]. *)
Lemma ingest_outcome (html : string) (st : State) :
  let r := ingest json_loads py_str float_truthy html st in
  ingest_inv (snd r) /\
  heap st = firstn (List.length (heap st)) (heap (snd r)) /\
  match fst r with
  | Ok s =>
      s = _store (snd r) /\
      map fst s
      = map fst (_extract_js_objects json_loads float_truthy html)
  | Err e => chunk_exn e
  end.
Proof.
  cbv zeta. rewrite ingest_eq.
  destruct (extract_js_objects_inv json_loads float_truthy html)
    as [Hnd Hall].
  pose proof (ingest_loop
                (_extract_reference_data json_loads float_truthy html)
                (_extract_freshness_data json_loads float_truthy html)
                (_extract_js_objects json_loads float_truthy html)
                (mkState (heap st) [] [])
                (ingest_inv_init (heap st))) as Hloop.
  cbv zeta in Hloop. cbn [_store heap map app] in Hloop.
  specialize (Hloop (Forall_impl _ (fun kv H => proj1 H) Hall) Hnd).
  destruct (forM_ _ _ _) as [[u|e] st1]; cbn [fst snd] in *.
  - destruct Hloop as (Hi & Hh & Hk). auto.
  - exact Hloop.
Qed.

End Library.

End IngestFacts.

Module IngestClaims.
Import ExtractFacts ChunkFacts ChunkClaims IngestFacts RetrieveClaims.

Lemma insert_on_perm {A} (key : A -> string) (x : A) (l : list A) :
  Permutation (insert_on key x l) (x :: l).
Proof.
  induction l as [|y r IH]; cbn [insert_on]; [reflexivity|].
  destruct (String.ltb (key y) (key x)); [|reflexivity].
  rewrite IH. apply perm_swap.
Qed.

Lemma sorted_on_perm {A} (key : A -> string) (l : list A) :
  Permutation (sorted_on key l) l.
Proof.
  induction l as [|x r IH]; cbn [sorted_on fold_right]; [reflexivity|].
  fold (sorted_on key r). rewrite insert_on_perm, IH. reflexivity.
Qed.

Lemma insert_on_map {A} (f : A -> string) (x : A) (l : list A) :
  map f (insert_on f x l) = insert_on (fun t => t) (f x) (map f l).
Proof.
  induction l as [|y r IH]; cbn [insert_on map]; [reflexivity|].
  destruct (String.ltb (f y) (f x)); cbn [map]; [f_equal; exact IH|].
  reflexivity.
Qed.

Lemma sorted_on_map {A} (f : A -> string) (l : list A) :
  map f (sorted_on f l) = sorted_on (fun t => t) (map f l).
Proof.
  induction l as [|x r IH]; cbn [sorted_on fold_right map]; [reflexivity|].
  fold (sorted_on f r). fold (sorted_on (fun t : string => t) (map f r)).
  rewrite insert_on_map, IH. reflexivity.
Qed.

Lemma list_sum_perm (l l' : list nat) :
  Permutation l l' -> list_sum l = list_sum l'.
Proof.
  induction 1; unfold list_sum in *; cbn [fold_right] in *; lia.
Qed.

Lemma concat_length {A} (ls : list (list A)) :
  List.length (List.concat ls) = list_sum (map (@List.length A) ls).
Proof.
  induction ls as [|l r IH]; cbn [List.concat map list_sum fold_right];
    [reflexivity|].
  rewrite length_app, IH. reflexivity.
Qed.

(** The passages [get_passages] finds in a store that satisfies the
    invariant. *)
Lemma get_passages_inv (st : State) (tk : option string) (l : loc) :
  ingest_inv st -> In l (get_passages st tk) ->
  exists k, ticker_shape k = true /\ chunked k (deref (heap st) l) /\
            (forall t, tk = Some t -> t <> EmptyString -> k = upper t).
Proof.
  intros (_ & Hall & _ & Hch) Hl.
  assert (Hany : In l (_all_passages st) ->
                 exists k, ticker_shape k = true /\
                           chunked k (deref (heap st) l)).
  { rewrite Hall. intros H. apply in_concat in H.
    destruct H as (locs & Hlocs & Hin).
    apply in_map_iff in Hlocs. destruct Hlocs as ([k locs'] & <- & Hkv).
    rewrite Forall_forall in Hch. destruct (Hch _ Hkv) as [Hs Hp].
    exists k. split; [exact Hs|]. rewrite Forall_forall in Hp.
    apply Hp, Hin. }
  unfold get_passages in Hl. destruct tk as [t|].
  - destruct (str_truthy (Some t)) eqn:Et.
    + destruct (dict_get_found (_store st) (upper t) []) as [Hin|Hnil];
        [|rewrite Hnil in Hl; contradiction].
      rewrite Forall_forall in Hch. destruct (Hch _ Hin) as [Hs Hp].
      cbn [fst snd] in *. exists (upper t). split; [exact Hs|].
      split; [|intros t' [= <-] _; reflexivity].
      rewrite Forall_forall in Hp. apply Hp, Hl.
    + destruct (Hany Hl) as (k & Hs & Hc). exists k.
      split; [exact Hs|]. split; [exact Hc|].
      intros t' [= <-] Hne. destruct t; [congruence | discriminate].
  - destruct (Hany Hl) as (k & Hs & Hc). exists k.
    split; [exact Hs|]. split; [exact Hc|]. discriminate.
Qed.

Section Library.
Variable json_loads : string -> option json.
Variable py_str : json -> string.
Variable float_truthy : string -> bool.

(** After [ingest], whether it returned or raised: every reference of
    the store points to an allocated object, [_all_passages] is the
    concatenation of the stored lists in store order, the tickers of the
    store are pairwise distinct, and the objects that existed before the
    call are unchanged. *)
Theorem ingest_store_consistent (html : string) (st : State) :
  let st' := snd (ingest json_loads py_str float_truthy html st) in
  store_wf st' = true /\
  _all_passages st' = List.concat (map snd (_store st')) /\
  NoDup (map fst (_store st')) /\
  forall l, (l < List.length (heap st))%nat ->
            deref (heap st') l = deref (heap st) l.
Proof.
  cbv zeta.
  destruct (ingest_outcome json_loads py_str float_truthy html st)
    as ((Hwf & Hall & Hnd & _) & Hheap & _).
  split; [exact Hwf|]. split; [exact Hall|]. split; [exact Hnd|].
  intros l Hl. unfold deref.
  pose proof (firstn_skipn (List.length (heap st))
                (heap (snd (ingest json_loads py_str float_truthy html st))))
    as E.
  rewrite <- Hheap in E. rewrite <- E. apply app_nth1, Hl.
Qed.

(** The result of [ingest]: when [ingest] returns, it returns the store,
    whose tickers are the tickers [_extract_js_objects] found, in the
    same order. *)
Theorem ingest_returns_store (html : string) (st : State)
        (s : list (string * list loc)) :
  fst (ingest json_loads py_str float_truthy html st) = Ok s ->
  s = _store (snd (ingest json_loads py_str float_truthy html st)) /\
  map fst s = map fst (_extract_js_objects json_loads float_truthy html).
Proof.
  intros Hs.
  destruct (ingest_outcome json_loads py_str float_truthy html st)
    as (_ & _ & H).
  rewrite Hs in H. exact H.
Qed.

(** After [ingest], every passage [get_passages] returns has a ticker of
    two to five upper-case letters, a positive weight among the nine
    weights of the chunker and one of its twelve sections; and for a
    non-empty ticker argument its ticker is the upper-cased argument. *)
Theorem ingest_passages (html : string) (st : State)
        (tk : option string) :
  let st' := snd (ingest json_loads py_str float_truthy html st) in
  Forall (fun l =>
            let p := deref (heap st') l in
            (2 <= String.length (ticker p) <= 5)%nat /\
            str_forall is_upper (ticker p) = true /\
            (0 < weight p)%R /\ In (weight p) chunk_weights /\
            In (section p) chunk_sections /\
            (forall t, tk = Some t -> t <> EmptyString ->
                       ticker p = upper t))
         (get_passages st' tk).
Proof.
  cbv zeta.
  destruct (ingest_outcome json_loads py_str float_truthy html st)
    as (Hinv & _ & _).
  apply Forall_forall. intros l Hl.
  destruct (get_passages_inv _ tk l Hinv Hl) as (k & Hs & (Ht & Hw & Hsec) & Hk).
  rewrite Ht. unfold ticker_shape in Hs.
  apply andb_true_iff in Hs. destruct Hs as [Hs Hu].
  apply andb_true_iff in Hs. destruct Hs as [H2 H5].
  apply Nat.leb_le in H2. apply Nat.leb_le in H5.
  repeat split; try assumption; try lia.
  apply chunk_weights_pos, Hw.
Qed.

(** Retrieval from an ingested store never gives a negative relevance
    score or weight, whatever the document, the query, the ticker, the
    alignment and the bound; the only exception is the
    [ZeroDivisionError] of tokenless candidates. *)
Theorem ingest_then_retrieve_nonneg
        (html : string) (st : State) (query : string)
        (tk alignment : option string) (max_passages : Z) :
  let st' := snd (ingest json_loads py_str float_truthy html st) in
  match fst (retrieve query tk alignment max_passages st') with
  | Ok r => Forall (fun x => (0 <= relevance_score x)%R /\
                             (0 <= r_weight x)%R) r
  | Err e => e = ZeroDivisionError
  end.
Proof.
  cbv zeta.
  pose proof (ingest_outcome json_loads py_str float_truthy html st)
    as (Hinv & _ & _).
  apply retrieve_nonneg_candidates; [apply Hinv|].
  apply Forall_forall. intros l Hl.
  destruct (get_passages_inv _ tk l Hinv Hl) as (k & _ & (_ & Hw & _) & _).
  apply Rlt_le, chunk_weights_pos, Hw.
Qed.

(** After [ingest], [get_passage_count] lists the tickers of
    [get_tickers] in the same order, these are the tickers of the store,
    and the counts add up to the number of all passages. *)
Theorem passage_counts_total (html : string) (st : State) :
  let st' := snd (ingest json_loads py_str float_truthy html st) in
  map fst (get_passage_count st') = get_tickers st' /\
  Permutation (get_tickers st') (map fst (_store st')) /\
  list_sum (map snd (get_passage_count st'))
  = List.length (_all_passages st').
Proof.
  cbv zeta.
  destruct (ingest_outcome json_loads py_str float_truthy html st)
    as ((_ & Hall & _) & _ & _).
  set (st' := snd (ingest json_loads py_str float_truthy html st)) in *.
  unfold get_passage_count, get_tickers. split; [|split].
  - rewrite map_map. cbn [fst]. apply (sorted_on_map fst).
  - apply sorted_on_perm.
  - rewrite map_map. cbn [snd]. rewrite Hall, concat_length.
    rewrite <- (map_map snd (@List.length loc)).
    apply list_sum_perm, Permutation_map, Permutation_map, sorted_on_perm.
Qed.

End Library.

(** The theorem applied to the document with the single object of the
    symbol WOW and the example state. *)
Lemma ingest_returns_store_witness :
  [("WOW", [3%nat])]
  = _store (snd (ingest (fun _ => Some acme_data) (fun _ => EmptyString)
                        (fun _ => true) (acme_html "WOW") example_state)) /\
  map fst [("WOW", [3%nat])]
  = map fst (_extract_js_objects (fun _ => Some acme_data) (fun _ => true)
                                 (acme_html "WOW")).
Proof.
  apply (ingest_returns_store (fun _ => Some acme_data)
           (fun _ => EmptyString) (fun _ => true) (acme_html "WOW")
           example_state [("WOW", [3%nat])]).
  vm_compute. reflexivity.
Defined.

End IngestClaims.

(** ** Earlier calls do not influence [retrieve] *)

Module RepeatClaims.
Import HeapFacts RetrieveFacts RetrieveSpec IngestFacts.

Lemma store_wf_extends (st st' : State) :
  extends st st' -> store_wf st = true -> store_wf st' = true.
Proof.
  intros Hext Hwf. pose proof (extends_length st st' Hext) as Hlen.
  destruct Hext as (_ & Hs & Ha).
  apply store_wf_iff in Hwf. destruct Hwf as [H1 H2].
  apply store_wf_iff. rewrite Hs, Ha. split.
  - intros kv l Hkv Hl. specialize (H1 kv l Hkv Hl). lia.
  - intros l Hl. specialize (H2 l Hl). lia.
Qed.

Lemma get_passages_extends (st st' : State) (tk : option string) :
  extends st st' -> get_passages st' tk = get_passages st tk.
Proof.
  intros (_ & Hs & Ha). unfold get_passages. rewrite Hs, Ha. reflexivity.
Qed.

Lemma boosted_docs_extends (st st' : State) (q : string)
      (tk a : option string) :
  extends st st' -> store_wf st = true ->
  boosted_docs st' q tk a = boosted_docs st q tk a.
Proof.
  intros Hext Hwf. unfold boosted_docs.
  rewrite (get_passages_extends st st' tk Hext).
  apply map_ext_in. intros l Hl. f_equal.
  apply (extends_deref st st' l Hext).
  pose proof (get_passages_valid st tk Hwf) as Hv.
  rewrite Forall_forall in Hv. apply Hv, Hl.
Qed.

(** [retrieve] is repeatable: the result of a call does not depend on
    the calls of [retrieve] made before it.  (The copies earlier calls
    allocated are not reachable from the store.) *)
Theorem retrieve_repeatable
        (q1 : string) (t1 a1 : option string) (m1 : Z)
        (query : string) (tk alignment : option string) (max_passages : Z)
        (st : State) :
  store_wf st = true ->
  fst (retrieve query tk alignment max_passages
                (snd (retrieve q1 t1 a1 m1 st)))
  = fst (retrieve query tk alignment max_passages st).
Proof.
  intros Hwf.
  destruct (retrieve_spec q1 t1 a1 m1 st Hwf) as (st1 & Hext & ->).
  cbn [snd].
  pose proof (store_wf_extends st st1 Hext Hwf) as Hwf1.
  destruct (retrieve_spec query tk alignment max_passages st1 Hwf1)
    as (st2 & _ & ->).
  destruct (retrieve_spec query tk alignment max_passages st Hwf)
    as (st3 & _ & ->).
  cbn [fst]. rewrite (boosted_docs_extends st st1 query tk alignment Hext Hwf).
  reflexivity.
Qed.

(** The theorem applied to the example corpus. *)
Lemma retrieve_repeatable_witness :
  fst (retrieve "margin risk" (Some "wow") (Some "t2") 2
         (snd (retrieve "upside thesis" (Some "WOW") (Some "bullish") 5
                 example_state)))
  = fst (retrieve "margin risk" (Some "wow") (Some "t2") 2 example_state).
Proof.
  apply (retrieve_repeatable "upside thesis" (Some "WOW") (Some "bullish") 5
           "margin risk" (Some "wow") (Some "t2") 2 example_state).
  reflexivity.
Defined.

End RepeatClaims.

(** ** A document with one ticker object *)

Module ScenarioFacts.
Import TokenFacts StringFacts ExtractFacts IngestFacts.

Lemma prefix_self_app (p x : string) : String.prefix p (p ++ x) = true.
Proof.
  induction p as [|a p IH]; cbn [append String.prefix].
  - destruct x; reflexivity.
  - destruct (ascii_dec a a); [exact IH | congruence].
Qed.

Lemma str_drop_add (s1 s2 : string) (j : nat) :
  str_drop (String.length s1 + j) (s1 ++ s2) = str_drop j s2.
Proof.
  induction s1 as [|c r IH]; cbn [String.length append Nat.add str_drop];
    [reflexivity | exact IH].
Qed.

Lemma str_drop_length (s1 s2 : string) :
  str_drop (String.length s1) (s1 ++ s2) = s2.
Proof.
  rewrite <- (Nat.add_0_r (String.length s1)), str_drop_add. reflexivity.
Qed.

Lemma str_take_length (s1 s2 : string) :
  str_take (String.length s1) (s1 ++ s2) = s1.
Proof.
  induction s1 as [|c r IH]; cbn [String.length append str_take].
  - destruct s2; reflexivity.
  - f_equal. exact IH.
Qed.

Lemma span_len_app (P : ascii -> bool) (s r : string) :
  str_forall P s = true -> head_is P r = false ->
  span_len P (s ++ r) = String.length s.
Proof.
  intros Hs Hr. induction s as [|c s IH]; cbn [append String.length].
  - destruct r as [|d r]; [reflexivity|].
    unfold head_is in Hr. cbn in Hr. cbn [span_len]. rewrite Hr. reflexivity.
  - cbn [str_forall] in Hs. apply andb_true_iff in Hs. destruct Hs as [Hc Hs].
    cbn [span_len]. rewrite Hc, (IH Hs). reflexivity.
Qed.

(** The ticker pattern at a symbol followed by an assignment. *)
Lemma m_stock_symbol (sym rest : string) (n : nat) :
  ticker_shape sym = true -> head_is is_upper rest = false ->
  m_assign_brace rest = Some n ->
  m_stock ("STOCK_DATA." ++ sym ++ rest)
  = Some ((11 + String.length sym + n)%nat, sym).
Proof.
  intros Hshape Hrest Hn. unfold ticker_shape in Hshape.
  apply andb_true_iff in Hshape. destruct Hshape as [Hlen Hup].
  unfold m_stock. cbv zeta. rewrite prefix_self_app.
  change (str_drop 11 ("STOCK_DATA." ++ sym ++ rest)%string)
    with (sym ++ rest)%string.
  rewrite (span_len_app is_upper sym rest Hup Hrest), Hlen.
  rewrite str_drop_length, Hn, str_take_length. reflexivity.
Qed.

Lemma finditer_skip (s1 s2 : string) :
  forall pos j,
    finditer_stock pos (String.length s1 + j) (s1 ++ s2)
    = finditer_stock (pos + String.length s1) j s2.
Proof.
  induction s1 as [|c r IH]; intros pos j;
    cbn [String.length append Nat.add].
  - rewrite Nat.add_0_r. reflexivity.
  - cbn [finditer_stock]. rewrite IH. f_equal. lia.
Qed.

Lemma upper_char_not_c (c : ascii) :
  is_upper c = true -> Ascii.eqb c "c"%char = false.
Proof. destruct c as [[] [] [] [] [] [] [] []]; vm_compute; congruence. Qed.

Lemma m_const_head (name : string) (c : ascii) (r : string) :
  Ascii.eqb c "c"%char = false -> m_const name (String c r) = None.
Proof.
  intros H. unfold m_const. cbn [String.prefix].
  destruct (ascii_dec "c" c) as [<-|]; [discriminate | reflexivity].
Qed.

Lemma search_const_skip (name : string) (s1 s2 : string) :
  str_forall (fun c => negb (Ascii.eqb c "c"%char)) s1 = true ->
  forall pos,
    search_const name pos (s1 ++ s2)
    = search_const name (pos + String.length s1) s2.
Proof.
  induction s1 as [|c r IH]; intros Hs pos;
    cbn [String.length append].
  - rewrite Nat.add_0_r. reflexivity.
  - cbn [str_forall] in Hs. apply andb_true_iff in Hs. destruct Hs as [Hc Hs].
    apply negb_true_iff in Hc.
    cbn [search_const]. rewrite (m_const_head name c _ Hc), (IH Hs).
    f_equal. lia.
Qed.

Lemma str_forall_impl (P Q : ascii -> bool) (s : string) :
  (forall c, P c = true -> Q c = true) ->
  str_forall P s = true -> str_forall Q s = true.
Proof.
  intros H. induction s as [|c r IH]; cbn [str_forall]; [reflexivity|].
  intros Hs. apply andb_true_iff in Hs. destruct Hs as [Hc Hs].
  rewrite (H c Hc), (IH Hs). reflexivity.
Qed.

Lemma upper_of_upper (s : string) :
  str_forall is_upper s = true -> upper s = s.
Proof.
  unfold upper. induction s as [|c r IH]; cbn [str_forall str_map];
    [reflexivity|].
  intros Hs. apply andb_true_iff in Hs. destruct Hs as [Hc Hs].
  rewrite (IH Hs). f_equal.
  revert Hc. destruct c as [[] [] [] [] [] [] [] []]; vm_compute; congruence.
Qed.

End ScenarioFacts.

Module ScenarioClaims.
Import TokenFacts StringFacts ExtractFacts IngestFacts ScenarioFacts.

Lemma length_app_s (a b : string) :
  String.length (a ++ b) = (String.length a + String.length b)%nat.
Proof. induction a as [|c r IH]; cbn; [reflexivity | f_equal; exact IH]. Qed.

Lemma acme_finditer (sym : string) :
  ticker_shape sym = true ->
  finditer_stock 0 0 (acme_html sym)
  = [(sym, (11 + String.length sym + 3)%nat)].
Proof.
  intros H. unfold acme_html.
  set (rest := (" = " ++ acme_block)%string).
  pose proof (m_stock_symbol sym rest 4 H eq_refl eq_refl) as Hm.
  change ("STOCK_DATA." ++ sym ++ rest)%string
    with (String "S" ("TOCK_DATA." ++ sym ++ rest)%string) in *.
  cbn [finditer_stock]. rewrite Hm. f_equal; [f_equal; lia|].
  replace (Nat.pred (11 + String.length sym + 4))
    with (String.length ("TOCK_DATA." ++ sym) + 4)%nat
    by (rewrite length_app_s; cbn [String.length]; lia).
  rewrite <- app_assoc_s, finditer_skip. reflexivity.
Qed.

Lemma acme_extract (sym : string) :
  Extractor._extract_balanced_braces (acme_html sym)
    (11 + String.length sym + 3)
  = acme_block.
Proof.
  unfold Extractor._extract_balanced_braces, acme_html.
  replace (11 + String.length sym + 3)%nat
    with (String.length ("STOCK_DATA." ++ sym) + 3)%nat
    by (rewrite length_app_s; cbn [String.length]; lia).
  rewrite <- app_assoc_s, str_drop_add. reflexivity.
Qed.

Lemma search_const_none (name : string) (s : string) :
  contains "const" s = false -> forall pos, search_const name pos s = None.
Proof.
  induction s as [|c r IH]; intros H pos.
  - reflexivity.
  - rewrite contains_cons_s in H. apply orb_false_iff in H.
    destruct H as [Hp Hr].
    cbn [search_const]. unfold m_const at 1. rewrite Hp. apply IH, Hr.
Qed.

Lemma acme_no_const (name sym : string) :
  ticker_shape sym = true ->
  search_const name 0 (acme_html sym) = None.
Proof.
  intros H. unfold ticker_shape in H.
  apply andb_true_iff in H. destruct H as [_ Hup].
  unfold acme_html. rewrite <- app_assoc_s, search_const_skip.
  - apply search_const_none. reflexivity.
  - rewrite str_forall_app. apply andb_true_iff. split; [reflexivity|].
    revert Hup. apply str_forall_impl. intros c Hc.
    rewrite (upper_char_not_c c Hc). reflexivity.
Qed.

Section Library.
Variable json_loads : string -> option json.
Variable py_str : json -> string.
Variable float_truthy : string -> bool.
Hypothesis loads_acme :
  json_loads (Normalizer.normalize acme_block) = Some acme_data.

Lemma acme_stocks (sym : string) :
  ticker_shape sym = true ->
  _extract_js_objects json_loads float_truthy (acme_html sym)
  = [(sym, acme_data)].
Proof.
  intros H. unfold _extract_js_objects.
  rewrite (acme_finditer sym H). cbn [fold_left fst snd].
  rewrite acme_extract. unfold _js_to_dict. rewrite loads_acme.
  reflexivity.
Qed.

Lemma acme_const_data (name sym : string) :
  ticker_shape sym = true ->
  extract_const_data json_loads float_truthy name (acme_html sym) = JObj [].
Proof.
  intros H. unfold extract_const_data. rewrite (acme_no_const name sym H).
  reflexivity.
Qed.

Lemma acme_chunk (sym : string) :
  _chunk_stock py_str float_truthy sym acme_data JNull JNull
  = Ok [acme_passage sym].
Proof.
  unfold acme_passage.
  replace ("Acme Corp (ASX: " ++ sym ++ ")" ++ nl ++ "Sector: Industrials")%string
    with (("Acme Corp" ++ " (ASX: " ++ sym ++ ")") ++ nl
          ++ "Sector: Industrials")%string
    by (cbn [append]; rewrite !app_assoc_s; reflexivity).
  reflexivity.
Qed.

(** A document that holds one ticker object, written as the text
    STOCK_DATA and a dot, a symbol of two to five upper-case letters, and
    the assignment of the block with the company Acme Corp and the sector
    Industrials: provided [json.loads] reads the normalised block as the
    object with these two members, [ingest] returns a store with this
    symbol only, and [get_passages] for the symbol yields exactly one
    passage, of section overview and subsection company_description,
    whose content is the line Acme Corp (ASX: symbol) followed by the
    line Sector: Industrials. *)
Theorem ingest_single_object (sym : string) (st : State) :
  ticker_shape sym = true ->
  let r := ingest json_loads py_str float_truthy (acme_html sym) st in
  fst r = Ok [(sym, [List.length (heap st)])] /\
  map (deref (heap (snd r))) (get_passages (snd r) (Some sym))
  = [acme_passage sym] /\
  _all_passages (snd r) = [List.length (heap st)].
Proof.
  intros H. cbv zeta.
  assert (E : ingest json_loads py_str float_truthy (acme_html sym) st
              = (Ok [(sym, [List.length (heap st)])],
                 mkState (heap st ++ [acme_passage sym])
                         [(sym, [List.length (heap st)])]
                         [List.length (heap st)])).
  { rewrite ingest_eq. rewrite (acme_stocks sym H).
    unfold _extract_reference_data, _extract_freshness_data.
    rewrite !(acme_const_data _ sym H).
    cbn [forM_]. unfold bind. rewrite ingest_stock_eq.
    cbn [fst snd py_get dict_get]. rewrite acme_chunk. reflexivity. }
  rewrite E. cbn [fst snd heap _all_passages].
  split; [reflexivity|]. split; [|reflexivity].
  assert (Hup : upper sym = sym).
  { apply upper_of_upper. unfold ticker_shape in H.
    apply andb_true_iff in H. apply H. }
  assert (Ht : str_truthy (Some sym) = true).
  { destruct sym; [discriminate H | reflexivity]. }
  unfold get_passages. rewrite Ht, Hup.
  cbn [_store dict_get]. rewrite String.eqb_refl. cbn [map].
  f_equal. rewrite <- (Nat.add_0_r (List.length (heap st))).
  apply deref_app_new.
Qed.

End Library.

(** The theorem applied to the symbol WOW and the example state. *)
Lemma ingest_single_object_witness :
  let r := ingest (fun _ => Some acme_data) (fun _ => EmptyString)
                  (fun _ => true) (acme_html "WOW") example_state in
  fst r = Ok [("WOW", [List.length (heap example_state)])] /\
  map (deref (heap (snd r))) (get_passages (snd r) (Some "WOW"))
  = [acme_passage "WOW"] /\
  _all_passages (snd r) = [List.length (heap example_state)].
Proof.
  apply (ingest_single_object (fun _ => Some acme_data)
           (fun _ => EmptyString) (fun _ => true) eq_refl "WOW"
           example_state).
  reflexivity.
Defined.

End ScenarioClaims.

(* ------------------------------------------------------------------ *)
(** ** Relevance scores that agree only after rounding *)
(* ------------------------------------------------------------------ *)

Module TieFacts.
Import BM25Facts ScoreFacts SortFacts ScoreSpec RetrieveSpec RoundFacts.
Import IndexFacts TfExamples TfCounterexample.
Local Open Scope R_scope.

Lemma ln_le_double (x y : R) : 0 < y -> 0 < x -> y <= x * x -> ln y <= 2 * ln x.
Proof.
  intros Hy Hx H.
  replace (2 * ln x) with (ln x + ln x) by ring.
  rewrite <- ln_mult by exact Hx.
  destruct H as [H|H].
  - left. apply ln_increasing; assumption.
  - right. rewrite H. reflexivity.
Qed.

Lemma ln_ge_double (x y : R) : 0 < x -> x * x <= y -> 2 * ln x <= ln y.
Proof.
  intros Hx H.
  replace (2 * ln x) with (ln x + ln x) by ring.
  rewrite <- ln_mult by exact Hx.
  assert (Hxx : 0 < x * x) by (apply Rmult_lt_0_compat; exact Hx).
  destruct H as [H|H].
  - left. apply ln_increasing; assumption.
  - right. rewrite H. reflexivity.
Qed.

(** [ln (6 / 5)] to three decimal places, by seven square roots. *)
Lemma ln_six_fifths_bounds :
  18219 / 100000 < ln (6 / 5) < 18246 / 100000.
Proof.
  split.
  - assert (H1 : 2 * ln (10954451150 / 10000000000) <= ln (6 / 5))
      by (apply ln_ge_double; lra).
    assert (H2 : 2 * ln (10466351393 / 10000000000)
                 <= ln (10954451150 / 10000000000))
      by (apply ln_ge_double; lra).
    assert (H3 : 2 * ln (10230518751 / 10000000000)
                 <= ln (10466351393 / 10000000000))
      by (apply ln_ge_double; lra).
    assert (H4 : 2 * ln (10114602686 / 10000000000)
                 <= ln (10230518751 / 10000000000))
      by (apply ln_ge_double; lra).
    assert (H5 : 2 * ln (10057138104 / 10000000000)
                 <= ln (10114602686 / 10000000000))
      by (apply ln_ge_double; lra).
    assert (H6 : 2 * ln (10028528358 / 10000000000)
                 <= ln (10057138104 / 10000000000))
      by (apply ln_ge_double; lra).
    assert (H7 : 2 * ln (10014254020 / 10000000000)
                 <= ln (10028528358 / 10000000000))
      by (apply ln_ge_double; lra).
    assert (H8 : 1 - / (10014254020 / 10000000000)
                 <= ln (10014254020 / 10000000000))
      by (apply ln_lower; lra).
    assert (Hinv : / (10014254020 / 10000000000)
                   = 10000000000 / 10014254020) by field.
    rewrite Hinv in H8. lra.
  - assert (H1 : ln (6 / 5) <= 2 * ln (10954451151 / 10000000000))
      by (apply ln_le_double; lra).
    assert (H2 : ln (10954451151 / 10000000000)
                 <= 2 * ln (10466351395 / 10000000000))
      by (apply ln_le_double; lra).
    assert (H3 : ln (10466351395 / 10000000000)
                 <= 2 * ln (10230518753 / 10000000000))
      by (apply ln_le_double; lra).
    assert (H4 : ln (10230518753 / 10000000000)
                 <= 2 * ln (10114602688 / 10000000000))
      by (apply ln_le_double; lra).
    assert (H5 : ln (10114602688 / 10000000000)
                 <= 2 * ln (10057138106 / 10000000000))
      by (apply ln_le_double; lra).
    assert (H6 : ln (10057138106 / 10000000000)
                 <= 2 * ln (10028528360 / 10000000000))
      by (apply ln_le_double; lra).
    assert (H7 : ln (10028528360 / 10000000000)
                 <= 2 * ln (10014254022 / 10000000000))
      by (apply ln_le_double; lra).
    assert (H8 : ln (10014254022 / 10000000000)
                 <= 10014254022 / 10000000000 - 1)
      by (apply ln_upper; lra).
    lra.
Qed.

(** A number less than one half away from an integer rounds to it. *)
Lemma round_half_even_near (x : R) (k : Z) :
  IZR k - 1 / 2 < x < IZR k + 1 / 2 -> round_half_even x = k.
Proof.
  intros [Hlo Hhi].
  destruct (base_Int_part x) as [Hf1 Hf2].
  assert (Hle : (Int_part x <= k)%Z).
  { apply Z.lt_succ_r. apply lt_IZR. rewrite succ_IZR. lra. }
  assert (Hge : (k - 1 <= Int_part x)%Z).
  { apply Z.lt_succ_r. apply lt_IZR. rewrite succ_IZR, minus_IZR. lra. }
  unfold round_half_even.
  assert (Hc : Int_part x = k \/ Int_part x = (k - 1)%Z) by lia.
  destruct Hc as [Hc|Hc]; rewrite Hc in *.
  - destruct (Rlt_dec (x - IZR k) (1 / 2)); [reflexivity | lra].
  - rewrite minus_IZR in *.
    destruct (Rlt_dec (x - (IZR k - 1)) (1 / 2)); [lra|].
    destruct (Rlt_dec (1 / 2) (x - (IZR k - 1))); [lia | lra].
Qed.

Lemma round3_near (x : R) (k : Z) :
  IZR k - 1 / 2 < x * 1000 < IZR k + 1 / 2 -> round3 x = IZR k / 1000.
Proof.
  intros H. unfold round3. rewrite (round_half_even_near _ k H). reflexivity.
Qed.

(** Of two candidates the one with the higher score is returned first. *)
Lemma ranking_two_ascending (a b : R) : a < b -> ranking [a; b] = [1; 0]%nat.
Proof.
  intros H. unfold ranking, sort_by.
  cbn [List.length seq fold_right insert_by nth]. unfold Rltb.
  destruct (Rlt_dec (- b) (- a)); [reflexivity | lra].
Qed.

(** The unrounded scores of the two candidates of [tie_state] for the
    query "volume". *)
Lemma tie_scores :
  bm25_scores [tie_first; tie_second] "volume"
  = Ok [ln (6 / 5) * (264 / 317); ln (6 / 5) * (176 / 211)].
Proof.
  set (docs := [tie_first; tie_second]).
  set (bm := BM25_init docs (seq 0 (List.length docs))).
  assert (Ha : avg_dl bm = INR 11 / INR 2)
    by (apply avg_dl_value; reflexivity).
  assert (Ha' : avg_dl bm = 11 / 2) by (rewrite Ha; cbn [INR]; field).
  rewrite bm25_scores_ok;
    [ | change (_tokenize "volume") with ["volume"]; discriminate
      | fold bm; rewrite Ha'; lra ].
  fold bm. f_equal.
  change (_tokenize "volume") with ["volume"].
  destruct (init_fields docs) as (Hf & Hl & _). fold bm in Hf, Hl.
  subst docs. cbn [List.length seq map nth].
  unfold doc_val. rewrite Hf, Hl. cbn [map nth sum_vals].
  rewrite !counter_of_get.
  change (count_occ string_dec (tokens_of tie_first) "volume")
    with 2%nat.
  change (count_occ string_dec (tokens_of tie_second) "volume")
    with 1%nat.
  change (List.length (tokens_of tie_first)) with 6%nat.
  change (List.length (tokens_of tie_second)) with 5%nat.
  rewrite (term_val_formula bm "volume" 2 6 2 2 (11 / 2)
             eq_refl eq_refl eq_refl)
    by (try apply df_value; try reflexivity; exact Ha').
  rewrite (term_val_formula bm "volume" 1 5 2 2 (11 / 2)
             eq_refl eq_refl eq_refl)
    by (try apply df_value; try reflexivity; exact Ha').
  change (weight tie_first) with (6 / 10).
  change (weight tie_second) with (8 / 10).
  cbn [INR Z.of_nat Pos.of_succ_nat Pos.succ Z.sub Z.add Z.opp Z.pos_sub
       Pos.pred_double Z.succ_double Z.pred_double Z.double].
  replace ((0 + 5 / 10) / (1 + 1 + 5 / 10) + 1) with (6 / 5) by field.
  f_equal; [field | f_equal; field].
Qed.

End TieFacts.

Module TieClaims.
Import SortFacts ScoreSpec RetrieveSpec RoundFacts TieFacts.
Local Open Scope R_scope.

(** C1 as stated fails.  The store holds two passages of the ticker WOW:
    first one of weight 0.6 with six tokens, two of them "volume", then
    one of weight 0.8 with five tokens, one of them "volume".  For the
    query "volume" the second candidate's score is the higher one
    (about 0.15208 against 0.15184), so it is returned first; both scores
    round to 0.152.  The two returned entries have equal relevance scores
    and are in the reverse of the candidate order. *)
Theorem equal_relevance_reverse_candidate_order :
  store_wf tie_state = true /\
  map (deref (heap tie_state)) (get_passages tie_state (Some "WOW"))
  = [tie_first; tie_second] /\
  fst (retrieve "volume" (Some "WOW") None 12 tie_state)
  = Ok [mkResultDict "WOW" "technical" (JStr "analysis")
                     "price volume trend support level"
                     [JStr "technical"; JStr "price"; JStr "chart"]
                     (8 / 10) (152 / 1000);
        mkResultDict "WOW" "discriminator" (JStr "non_discriminating")
                     "volume noise volume trend flat signal"
                     [JStr "discriminator"; JStr "noise"]
                     (6 / 10) (152 / 1000)].
Proof.
  split; [reflexivity|]. split; [reflexivity|].
  destruct (retrieve_spec "volume" (Some "WOW") None 12 tie_state eq_refl)
    as (st' & _ & Hret).
  rewrite Hret. cbn [fst].
  change (boosted_docs tie_state "volume" (Some "WOW") None)
    with [tie_first; tie_second].
  rewrite tie_scores. cbn [rmap rbind].
  pose proof ln_six_fifths_bounds as [Hlo Hhi].
  rewrite ranking_two_ascending by lra.
  change (slice_to [1; 0]%nat 12) with [1; 0]%nat.
  cbn [map nth]. unfold to_result.
  rewrite (round3_near (ln (6 / 5) * (176 / 211)) 152) by lra.
  rewrite (round3_near (ln (6 / 5) * (264 / 317)) 152) by lra.
  reflexivity.
Qed.

End TieClaims.

(* ------------------------------------------------------------------ *)
(** ** One more occurrence of a query term *)
(* ------------------------------------------------------------------ *)

Module OccurrenceClaims.
Import BM25Facts ScoreFacts SortFacts ScoreLoopFacts ScoreSpec.
Import TfFacts IndexFacts TfClaim RetrievalClaims TfExamples TfCounterexample.
Local Open Scope R_scope.

(** C4 (as amended).  For a fixed query, one more occurrence of a term in
    one candidate document that takes the place of a token which is not
    a query term, so that the document keeps its length, all other
    documents and all weights being equal, never decreases that
    document's BM25 score, provided its weight is not negative.  Both
    scorings succeed, or both divide by a zero average length. *)
Theorem occurrence_at_equal_length
        (docs docs' : list Passage) (query : string)
        (A B : list (list string)) (l1 l2 : list string) (u t : string) :
  map tokens_of docs = A ++ (l1 ++ u :: l2) :: B ->
  map tokens_of docs' = A ++ (l1 ++ t :: l2) :: B ->
  map weight docs' = map weight docs ->
  ~ In u (_tokenize query) ->
  0 <= weight (nth (List.length A) docs unbound) ->
  (exists s s',
      bm25_scores docs query = Ok s /\ bm25_scores docs' query = Ok s' /\
      nth (List.length A) s 0 <= nth (List.length A) s' 0)
  \/ (bm25_scores docs query = Err ZeroDivisionError /\
      bm25_scores docs' query = Err ZeroDivisionError).
Proof.
  intros Htoks Htoks' Hweights Hu Hw.
  set (i := List.length A) in *.
  pose proof (replace_lengths docs docs' Hweights) as Hlen.
  assert (Hi : (i < List.length docs)%nat).
  { apply (f_equal (@List.length _)) in Htoks.
    rewrite length_map, length_app in Htoks. cbn in Htoks. unfold i. lia. }
  assert (Hwi : weight (nth i docs' unbound) = weight (nth i docs unbound)).
  { rewrite <- (nth_map_in weight docs' i unbound 0) by lia.
    rewrite <- (nth_map_in weight docs i unbound 0) by lia.
    rewrite Hweights. reflexivity. }
  destruct (_tokenize query) as [|x r] eqn:E.
  - left. rewrite !bm25_scores_empty by exact E.
    eexists _, _. split; [reflexivity|]. split; [reflexivity|].
    rewrite !nth_zeros. lra.
  - assert (Htok : _tokenize query <> []) by congruence.
    assert (Hd : docs <> []) by (destruct docs; [cbn in Hi; lia | congruence]).
    assert (Hd' : docs' <> []).
    { destruct docs'; [cbn in Hlen; destruct docs; [congruence|discriminate]
                      | congruence]. }
    destruct (replace_stats docs docs' A B l1 l2 u t Htoks Htoks' Hweights)
      as (_ & _ & Ha & _ & _).
    destruct (replace_doc docs docs' A B l1 l2 u t Htoks Htoks' Hweights)
      as (Hf & Hf' & Hl).
    fold i in Hf, Hf', Hl.
    pose proof (avg_dl_nonneg docs (seq 0 (List.length docs))) as Hnn.
    destruct (Req_dec_T (avg_dl (BM25_init docs (seq 0 (List.length docs)))) 0)
      as [Hz|Hnz].
    + right. split; apply bm25_scores_zero_div; try assumption.
      rewrite <- Ha. exact Hz.
    + left.
      assert (Hpos : 0 < avg_dl (BM25_init docs (seq 0 (List.length docs))))
        by lra.
      rewrite (bm25_scores_ok docs query Htok Hpos).
      rewrite (bm25_scores_ok docs' query Htok) by (rewrite <- Ha; exact Hpos).
      eexists _, _. split; [reflexivity|]. split; [reflexivity|].
      rewrite !nth_map_seq by lia.
      rewrite Hwi. apply Rmult_le_compat_r; [exact Hw|].
      unfold doc_val. rewrite Hf, Hf', Hl, E.
      apply (replace_sum docs docs' A B l1 l2 u t Htoks Htoks' Hweights).
      * exact Hu.
      * exact Hpos.
Qed.

(** The theorem applied to a corpus of three documents in which the
    token zeta of the first document is replaced by alpha. *)
Lemma occurrence_at_equal_length_witness :
  (exists s s',
      bm25_scores tf_docs_swap "alpha beta" = Ok s /\
      bm25_scores tf_docs_swapped "alpha beta" = Ok s' /\
      nth 0 s 0 <= nth 0 s' 0)
  \/ (bm25_scores tf_docs_swap "alpha beta" = Err ZeroDivisionError /\
      bm25_scores tf_docs_swapped "alpha beta" = Err ZeroDivisionError).
Proof.
  apply (occurrence_at_equal_length
           tf_docs_swap tf_docs_swapped "alpha beta"
           [] [["alpha"; "gamma"]; ["alpha"; "gamma"]]
           ["alpha"; "beta"] [] "zeta" "alpha").
  - reflexivity.
  - reflexivity.
  - reflexivity.
  - intros H. vm_compute in H. intuition discriminate.
  - change (0 <= 1). lra.
Defined.

(** C4 as stated fails.  In a corpus of three documents of weight 1 with
    the contents alpha beta, alpha gamma and alpha gamma, the first
    document scores ln (8/7) + ln (8/3), about 1.114, for the query
    alpha beta.  With one more occurrence of alpha in the first
    document and nothing else changed it scores about 1.044: the
    occurrence lengthens the document and raises the average length, and
    the contribution of beta falls by more than that of alpha rises. *)
Theorem added_occurrence_lowers_score :
  map content tf_docs = ["alpha beta"; "alpha gamma"; "alpha gamma"] /\
  map content tf_docs_more
  = ["alpha alpha beta"; "alpha gamma"; "alpha gamma"] /\
  map weight tf_docs_more = map weight tf_docs /\
  exists s s',
    bm25_scores tf_docs "alpha beta" = Ok s /\
    bm25_scores tf_docs_more "alpha beta" = Ok s' /\
    nth 0 s' 0 < nth 0 s 0.
Proof.
  split; [reflexivity|]. split; [reflexivity|]. split; [reflexivity|].
  destruct before_score as (s & Hs & Hv).
  destruct after_score as (s' & Hs' & Hv').
  exists s, s'. split; [exact Hs|]. split; [exact Hs'|].
  rewrite Hv, Hv'.
  assert (Hup : ln (8 / 7) <= 8 / 7 - 1) by (apply ln_upper; lra).
  assert (Hlo : 1 - / (8 / 3) <= ln (8 / 3)) by (apply ln_lower; lra).
  assert (Hinv : / (8 / 3) = 3 / 8) by field.
  rewrite Hinv in Hlo. lra.
Qed.

End OccurrenceClaims.

(* ------------------------------------------------------------------ *)
(** ** The token undefined without the single space *)
(* ------------------------------------------------------------------ *)

Module UndefinedClaims.
Import Normalizer.

(** C8.  For the literal with the member a and the value undefined
    written directly behind the colon, the normalizer quotes the key and
    keeps the token: the text [_js_to_dict] hands to [json.loads] still
    holds undefined, not null.  The same holds with a tab between the
    colon and the token. *)
Theorem undefined_without_space_kept :
  let q := str1 ch_dquote in
  normalize "{a:undefined}" = ("{ " ++ q ++ "a" ++ q ++ ":undefined}")%string /\
  normalize ("{a:" ++ str1 ch_tab ++ "undefined}")
  = ("{ " ++ q ++ "a" ++ q ++ ":" ++ str1 ch_tab ++ "undefined}")%string /\
  forall json_loads : string -> option json,
    _js_to_dict json_loads "{a:undefined}"
    = json_loads ("{ " ++ q ++ "a" ++ q ++ ":undefined}")%string.
Proof.
  cbv zeta. split; [vm_compute; reflexivity|].
  split; [vm_compute; reflexivity|].
  intros json_loads. unfold _js_to_dict. f_equal.
Qed.

End UndefinedClaims.

(* ------------------------------------------------------------------ *)
(** ** Relevance scores are not negative *)
(* ------------------------------------------------------------------ *)

Module NonNegativeClaims.
Import BM25Facts ScoreFacts RetrievalClaims RetrieveClaims.
Import ChunkClaims IngestFacts IngestClaims.
Local Open Scope R_scope.

Section Library.
Variable json_loads : string -> option json.
Variable py_str : json -> string.
Variable float_truthy : string -> bool.

(** C10.  On every index the constructor builds, the inverse document
    frequency of every term is strictly positive.  After [ingest], every
    candidate has a positive weight; the boosting passes multiply a
    weight by a factor of at least one; and no relevance score
    [retrieve] returns is negative.  (The only exception [retrieve]
    raises is the [ZeroDivisionError] of tokenless candidates.) *)
Theorem relevance_scores_nonneg
        (html : string) (st : State) (query : string)
        (tk alignment : option string) (max_passages : Z) :
  let st' := snd (ingest json_loads py_str float_truthy html st) in
  (forall (h : Heap) (ps : list loc) (t : string),
      exists v, _idf (BM25_init h ps) t = Ok v /\ 0 < v) /\
  Forall (fun l => 0 < weight (deref (heap st') l)) (get_passages st' tk) /\
  (forall p : Passage,
      exists f, 1 <= f /\ boosted_value query alignment p = scaled p f) /\
  match fst (retrieve query tk alignment max_passages st') with
  | Ok r => Forall (fun x => 0 <= relevance_score x) r
  | Err e => e = ZeroDivisionError
  end.
Proof.
  cbv zeta.
  pose proof (ingest_outcome json_loads py_str float_truthy html st)
    as (Hinv & _ & _).
  set (st' := snd (ingest json_loads py_str float_truthy html st)) in *.
  assert (Hpos : Forall (fun l => 0 < weight (deref (heap st') l))
                        (get_passages st' tk)).
  { apply Forall_forall. intros l Hl.
    destruct (get_passages_inv _ tk l Hinv Hl) as (k & _ & (_ & Hw & _) & _).
    apply chunk_weights_pos, Hw. }
  split; [|split; [exact Hpos|split]].
  - intros h ps t. exists (idf_val (BM25_init h ps) t).
    apply idf_ok, df_le_corpus_size.
  - intros p. apply boosted_value_scaled.
  - assert (Hnn : Forall (fun l => 0 <= weight (deref (heap st') l))
                         (get_passages st' tk)).
    { revert Hpos. apply Forall_impl. intros l Hl. lra. }
    pose proof (retrieve_nonneg_candidates query tk alignment max_passages
                  st' (proj1 Hinv) Hnn) as H.
    destruct (fst (retrieve query tk alignment max_passages st')) as [r|e];
      [|exact H].
    revert H. apply Forall_impl. intros x [Hx _]. exact Hx.
Qed.

End Library.

End NonNegativeClaims.

(* ------------------------------------------------------------------ *)
(** ** The document with one ticker object *)
(* ------------------------------------------------------------------ *)

Module AcmeClaims.
Import TokenFacts StringFacts ExtractFacts IngestFacts ScenarioFacts.
Import ScenarioClaims.

Section Library.
Variable json_loads : string -> option json.
Variable py_str : json -> string.
Variable float_truthy : string -> bool.
Hypothesis loads_acme :
  json_loads (Normalizer.normalize acme_block) = Some acme_data.



End Library.


End AcmeClaims.
